(** * A shallow embedding of the web-service simulation model

    [model.py] drives a SimPy discrete-event simulation: an arrival generator,
    one handler per request and a failure/recovery process share a list of
    single-capacity [simpy.Resource] servers.  This file embeds

      - the parts of Python's [random] module the model calls,
      - the parts of SimPy the model calls (event queue, processes,
        timeouts, resource requests and releases),
      - [WebServiceModel] itself, method by method,
      - the drivers of [app.py] and [optim_app.py]: the snapshot loop and
        the random search,

    and proves properties of the embedded program.  Python floats are
    modelled by rationals ([Q]), Python integers by [Z].  SimPy and [random]
    are libraries outside the repository: what the model uses of them is
    embedded from their documented behaviour, with the generator behind
    [random] left abstract. *)

From Stdlib Require Import QArith Qminmax ZArith String List Lia Lqa.
From stdpp Require Import base option list.
Import ListNotations.

Local Open Scope Z_scope.

(** ** Python exceptions and results *)

Inductive exn :=
| ZeroDivisionError
| ValueError (msg : string)
| IndexError
| RuntimeError (msg : string).

Inductive result (A : Type) :=
| Ok (a : A)
| Raise (e : exn).
Arguments Ok {A} a.
Arguments Raise {A} e.

(** [1 / x] on Python numbers. *)
Definition py_div (a b : Q) : result Q :=
  if Qeq_bool b 0 then Raise ZeroDivisionError else Ok (a / b)%Q.

(** [max(0, x)]: the first argument is kept unless the second is strictly
    greater. *)
Definition py_max0 (x : Q) : Q :=
  if Qlt_le_dec 0 x then x else 0%Q.

(** ** The [random] module

    The generator behind [random.expovariate], [random.uniform],
    [random.gauss] and [random.choice] is one hidden, process-wide object.
    Its state is a value of type [G]; the four primitive draws below are the
    ones CPython derives those functions from. *)

Record RandomSource := {
  G : Type;
  (** [random.random()]: a float in [0, 1). *)
  rand_random : G -> Q * G;
  (** [-log(1 - random.random())]: a standard exponential draw. *)
  rand_std_exp : G -> Q * G;
  (** the standard normal draw behind [random.gauss]. *)
  rand_std_normal : G -> Q * G;
  (** [random._randbelow(n)]: an integer in [0, n). *)
  rand_below : nat -> G -> nat * G
}.

(** The ranges CPython documents for the primitive draws. *)
Record RandomLaws (R : RandomSource) : Prop := {
  rand_random_range :
    forall g, (0 <= fst (rand_random R g) /\ fst (rand_random R g) < 1)%Q;
  rand_std_exp_nonneg : forall g, (0 <= fst (rand_std_exp R g))%Q;
  rand_below_lt :
    forall n g, (0 < n)%nat -> (fst (rand_below R n g) < n)%nat
}.

Section Random.
Context (R : RandomSource).

(** [random.expovariate(lambd)] is [-log(1 - random()) / lambd]: the draw is
    made first, the division may then raise. *)
Definition expovariate (lambd : Q) (g : G R) : result Q * G R :=
  let '(e, g') := rand_std_exp R g in
  (py_div e lambd, g').

(** [random.uniform(a, b)] is [a + (b - a) * random()]. *)
Definition uniform (a b : Q) (g : G R) : Q * G R :=
  let '(u, g') := rand_random R g in
  ((a + (b - a) * u)%Q, g').

(** [random.gauss(mu, sigma)] is [mu + z * sigma]. *)
Definition gauss (mu sigma : Q) (g : G R) : Q * G R :=
  let '(z, g') := rand_std_normal R g in
  ((mu + z * sigma)%Q, g').

(** [random.choice(seq)]: [IndexError] on an empty sequence, otherwise
    [seq[_randbelow(len(seq))]].  [choice_index] is the index drawn, which
    identifies the chosen object when the sequence holds objects. *)
Definition choice_index (n : nat) (g : G R) : result nat * G R :=
  match n with
  | O => (Raise IndexError, g)
  | _ => let '(i, g') := rand_below R n g in (Ok i, g')
  end.

Definition choice {A} (seq : list A) (g : G R) : result A * G R :=
  match choice_index (length seq) g with
  | (Ok i, g') =>
      match seq !! i with
      | Some x => (Ok x, g')
      | None => (Raise IndexError, g')
      end
  | (Raise e, g') => (Raise e, g')
  end.

(** ** [WebServiceModel.random_value]

    The keyword arguments of a call: a keyword that the call site does not
    pass is [None], and [kwargs.get(k, d)] is [default d]. *)

Record kwargs := {
  kw_rate : option Q;
  kw_mean : option Q;
  kw_std : option Q;
  kw_low : option Q;
  kw_high : option Q;
  kw_values : option (list Q)
}.

Definition random_value (distribution : string) (kw : kwargs) (g : G R)
  : result Q * G R :=
  if (distribution =? "exponential")%string then
    expovariate (default 1%Q (kw_rate kw)) g
  else if (distribution =? "uniform")%string then
    let '(x, g') := uniform (default 0%Q (kw_low kw)) (default 1%Q (kw_high kw)) g in
    (Ok x, g')
  else if (distribution =? "normal")%string then
    let '(x, g') := gauss (default 0%Q (kw_mean kw)) (default 1%Q (kw_std kw)) g in
    (Ok (py_max0 x), g')
  else if (distribution =? "custom")%string then
    choice (default [1%Q] (kw_values kw)) g
  else
    (Raise (ValueError "Unsupported distribution"), g).

End Random.

(** ** Configuration

    [params] is a dictionary with a fixed set of keys.  The callers in
    [app.py] and [optim_app.py] always supply the numeric parameters and the
    four distribution names; [queue_timeout], [custom_values] and
    [server_processing_time_std] may be absent. *)

Record Params := {
  num_servers : Z;
  server_processing_time : Q;
  server_processing_time_std : option Q;
  queue_timeout : option Q;
  request_rate : Q;
  failure_rate : Q;
  recovery_rate : Q;
  request_rate_distribution : string;
  server_processing_time_distribution : string;
  failure_rate_distribution : string;
  recovery_time_distribution : string;
  custom_values : option (list Q)
}.

Definition with_queue_timeout (v : option Q) (p : Params) : Params :=
  {| num_servers := num_servers p;
     server_processing_time := server_processing_time p;
     server_processing_time_std := server_processing_time_std p;
     queue_timeout := v;
     request_rate := request_rate p;
     failure_rate := failure_rate p;
     recovery_rate := recovery_rate p;
     request_rate_distribution := request_rate_distribution p;
     server_processing_time_distribution := server_processing_time_distribution p;
     failure_rate_distribution := failure_rate_distribution p;
     recovery_time_distribution := recovery_time_distribution p;
     custom_values := custom_values p |}.

(** ** SimPy: resources

    A suspended [process_request] frame: its argument and the local
    [arrival_time].  The frame stands for the [Request] event it created,
    which is what [users] and the put queue of a resource hold. *)

Record Handler := {
  request_id : Z;
  arrival_time : Q
}.

(** [simpy.Resource]: [_capacity], the granted requests [users] and the
    pending requests [put_queue].  The model takes a server out of service
    by setting [_capacity] to 0 and restores it by setting it to 1; a server
    is busy when [users] is not empty. *)
Record Resource := {
  capacity : Z;
  users : list Handler;
  put_queue : list Handler
}.

Definition set_capacity (c : Z) (sv : Resource) : Resource :=
  {| capacity := c; users := users sv; put_queue := put_queue sv |}.

(** [users.remove(request)]: the first occurrence goes. *)
Fixpoint remove_request (h : Handler) (l : list Handler) : list Handler :=
  match l with
  | [] => []
  | x :: l' =>
      if request_id x =? request_id h then l' else x :: remove_request h l'
  end.

(** ** SimPy: events

    An event in the queue is identified with what runs when it is processed:
    the continuation of the process waiting for it. *)

Inductive event :=
| InitGen                          (* Initialize of generate_requests() *)
| InitFail                         (* Initialize of server_failures() *)
| InitReq (rid : Z)                (* Initialize of process_request(rid) *)
| GenWake (rid : Z)                (* interarrival timeout *)
| FailWake                         (* time-to-failure timeout *)
| RecoverWake (i : nat)            (* recovery timeout for servers[i] *)
| Granted (i : nat) (h : Handler)  (* the request of h on servers[i] succeeded *)
| Done (i : nat) (h : Handler)     (* processing timeout of h on servers[i] *)
| Released (i : nat)               (* a Release event of servers[i] *)
| ProcExit                         (* a process that returned *)
| Crash (e : exn)                  (* a process that raised e *)
| Until.                           (* the stop event of env.run(until=t) *)

Definition URGENT : nat := 0.
Definition NORMAL : nat := 1.

Record scheduled := {
  at_time : Q;
  priority : nat;
  eid : nat;
  ev : event
}.

(** The heap orders its entries as tuples [(time, priority, eid)]. *)
Definition before (a b : scheduled) : bool :=
  match (at_time a ?= at_time b)%Q with
  | Lt => true
  | Gt => false
  | Eq =>
      if (priority a <? priority b)%nat then true
      else if (priority b <? priority a)%nat then false
      else (eid a <? eid b)%nat
  end.

Fixpoint enqueue (x : scheduled) (q : list scheduled) : list scheduled :=
  match q with
  | [] => [x]
  | y :: q' => if before x y then x :: q else y :: enqueue x q'
  end.

Inductive outcome := Yielded | Returned.

Section Model.
Context (R : RandomSource).

(** ** The state of a simulation

    One record holds the [simpy.Environment] ([now], the event [queue], the
    event-id counter), the state of the [random] module's generator, and the
    attributes of the [WebServiceModel] object.  [spawned] is not an
    attribute of the source: it counts the calls of
    [env.process(self.process_request(...))]. *)

Record Sim := {
  now : Q;
  queue : list scheduled;
  next_eid : nat;
  rng : G R;
  servers : list Resource;
  total_requests : Z;
  completed_requests : Z;
  failed_requests : Z;
  latency : list Q;
  available_servers : Z;
  spawned : Z
}.

Definition with_env (t : Q) (q : list scheduled) (n : nat) (s : Sim) : Sim :=
  {| now := t; queue := q; next_eid := n; rng := rng s;
     servers := servers s; total_requests := total_requests s;
     completed_requests := completed_requests s;
     failed_requests := failed_requests s; latency := latency s;
     available_servers := available_servers s; spawned := spawned s |}.

Definition with_rng (g : G R) (s : Sim) : Sim :=
  {| now := now s; queue := queue s; next_eid := next_eid s; rng := g;
     servers := servers s; total_requests := total_requests s;
     completed_requests := completed_requests s;
     failed_requests := failed_requests s; latency := latency s;
     available_servers := available_servers s; spawned := spawned s |}.

Definition with_servers (l : list Resource) (s : Sim) : Sim :=
  {| now := now s; queue := queue s; next_eid := next_eid s; rng := rng s;
     servers := l; total_requests := total_requests s;
     completed_requests := completed_requests s;
     failed_requests := failed_requests s; latency := latency s;
     available_servers := available_servers s; spawned := spawned s |}.

(** The counters of the model: total, completed, failed, latency samples,
    available servers and the spawn count. *)
Definition with_metrics (t c f : Z) (l : list Q) (a sp : Z) (s : Sim) : Sim :=
  {| now := now s; queue := queue s; next_eid := next_eid s; rng := rng s;
     servers := servers s; total_requests := t;
     completed_requests := c; failed_requests := f; latency := l;
     available_servers := a; spawned := sp |}.

Definition incr_total (s : Sim) : Sim :=
  with_metrics (total_requests s + 1) (completed_requests s) (failed_requests s)
    (latency s) (available_servers s) (spawned s) s.

Definition incr_failed (s : Sim) : Sim :=
  with_metrics (total_requests s) (completed_requests s) (failed_requests s + 1)
    (latency s) (available_servers s) (spawned s) s.

Definition record_completion (sample : Q) (s : Sim) : Sim :=
  with_metrics (total_requests s) (completed_requests s + 1) (failed_requests s)
    (latency s ++ [sample]) (available_servers s) (spawned s) s.

Definition add_available (d : Z) (s : Sim) : Sim :=
  with_metrics (total_requests s) (completed_requests s) (failed_requests s)
    (latency s) (available_servers s + d) (spawned s) s.

Definition incr_spawned (s : Sim) : Sim :=
  with_metrics (total_requests s) (completed_requests s) (failed_requests s)
    (latency s) (available_servers s) (spawned s + 1) s.

(** An attribute assignment on the object [servers[i]]. *)
Definition update_server (i : nat) (f : Resource -> Resource) (s : Sim) : Sim :=
  with_servers (alter f i (servers s)) s.

(** ** A state-and-exception monad for process bodies

    A Python exception leaves the mutations made before it in place, so a
    computation returns its result together with the state it reached. *)

Definition M (A : Type) : Type := Sim -> result A * Sim.

Definition ret {A} (a : A) : M A := fun s => (Ok a, s).

Definition bind {A B} (m : M A) (k : A -> M B) : M B :=
  fun s =>
    match m s with
    | (Ok a, s') => k a s'
    | (Raise e, s') => (Raise e, s')
    end.

Definition lift {A} (r : result A) : M A := fun s => (r, s).
Definition gets {A} (f : Sim -> A) : M A := fun s => (Ok (f s), s).
Definition modify (f : Sim -> Sim) : M unit := fun s => (Ok tt, f s).

(** A call into the [random] module: the generator state moves on, whether
    or not the call raises. *)
Definition draw {A} (f : G R -> result A * G R) : M A :=
  fun s => let '(r, g') := f (rng s) in (r, with_rng g' s).

(** [with ... :] around [m]: on an exception the exit handler [h] runs and
    the exception propagates. *)
Definition on_exception {A} (m : M A) (h : Sim -> Sim) : M A :=
  fun s =>
    match m s with
    | (Ok a, s') => (Ok a, s')
    | (Raise e, s') => (Raise e, h s')
    end.

Notation "'let*' x ':=' m 'in' k" := (bind m (fun x => k))
  (at level 10, x binder, k at level 200).

(** ** SimPy: scheduling *)

(** [Environment.schedule(event, priority, delay)]. *)
Definition schedule (e : event) (prio : nat) (delay : Q) (s : Sim) : Sim :=
  with_env (now s)
    (enqueue {| at_time := (now s + delay)%Q; priority := prio;
                eid := next_eid s; ev := e |} (queue s))
    (S (next_eid s)) s.

(** [yield self.env.timeout(delay)]: the constructor refuses a negative
    delay; the process then waits for the timeout and continues as [k]. *)
Definition timeout (delay : Q) (k : event) : M outcome :=
  fun s =>
    if Qlt_le_dec delay 0 then (Raise (ValueError "Negative delay"), s)
    else (Ok Yielded, schedule k NORMAL delay s).

(** ** SimPy: [Resource] operations on [servers[i]] *)

(** [BaseResource._trigger_put]: [Resource._do_put] returns nothing, so the
    loop looks at the head of the put queue only; the head is granted when
    [len(users) < capacity]. *)
Definition trigger_put (i : nat) (s : Sim) : Sim :=
  match servers s !! i with
  | Some sv =>
      match put_queue sv with
      | h :: rest =>
          if Z.of_nat (length (users sv)) <? capacity sv then
            schedule (Granted i h) NORMAL 0
              (with_servers
                 (<[i := {| capacity := capacity sv;
                            users := users sv ++ [h];
                            put_queue := rest |}]> (servers s)) s)
          else s
      | [] => s
      end
  | None => s
  end.

(** [server.request()]: the new request joins the put queue, then the
    queue is triggered. *)
Definition request (i : nat) (h : Handler) (s : Sim) : Sim :=
  match servers s !! i with
  | Some sv =>
      trigger_put i
        (with_servers
           (<[i := {| capacity := capacity sv; users := users sv;
                      put_queue := put_queue sv ++ [h] |}]> (servers s)) s)
  | None => s
  end.

(** [server.release(req)] on leaving the [with] block: the request leaves
    [users] at once and the Release event is scheduled; the put queue is
    triggered when that event is processed. *)
Definition release (i : nat) (h : Handler) (s : Sim) : Sim :=
  match servers s !! i with
  | Some sv =>
      schedule (Released i) NORMAL 0
        (with_servers
           (<[i := {| capacity := capacity sv;
                      users := remove_request h (users sv);
                      put_queue := put_queue sv |}]> (servers s)) s)
  | None => s
  end.

(** ** [WebServiceModel]

    Each method that is a generator is split at its [yield]s: one
    definition per stretch of code that runs between two suspensions. *)

Context (params : Params).

(** [__init__]: the servers, the counters, and the two processes, whose
    Initialize events are scheduled as urgent. *)
Definition init (t : Q) (q : list scheduled) (n : nat) (g : G R) : Sim :=
  let self :=
    {| now := t; queue := q; next_eid := n; rng := g;
       servers :=
         replicate (Z.to_nat (num_servers params))
           {| capacity := 1; users := []; put_queue := [] |};
       total_requests := 0; completed_requests := 0; failed_requests := 0;
       latency := [];
       available_servers := num_servers params;
       spawned := 0 |} in
  schedule InitFail URGENT 0 (schedule InitGen URGENT 0 self).

(** [WebServiceModel(simpy.Environment(), params)]: a fresh environment has
    time 0, an empty queue and event ids from 0.  [__init__] holds no
    [raise] and checks none of the parameters, so the call always returns
    the object. *)
Definition construct (g : G R) : result Sim := Ok (init 0%Q [] 0%nat g).

(** The keyword arguments of the three calls that pass a rate:
    [rate=r, mean=1 / r, std=0.1, low=0.1, high=1 / r * 2]. *)
Definition rate_kwargs (rate : Q) : result kwargs :=
  match py_div 1 rate with
  | Raise e => Raise e
  | Ok mean =>
      match py_div 1 rate with
      | Raise e => Raise e
      | Ok inv =>
          Ok {| kw_rate := Some rate; kw_mean := Some mean;
                kw_std := Some (1 # 10)%Q; kw_low := Some (1 # 10)%Q;
                kw_high := Some (inv * 2)%Q; kw_values := None |}
      end
  end.

(** The keyword arguments of the call in [process_request]. *)
Definition processing_kwargs : kwargs :=
  {| kw_rate := None;
     kw_mean := Some (server_processing_time params);
     kw_std := Some (default (1 # 10)%Q (server_processing_time_std params));
     kw_low := Some (1 # 10)%Q;
     kw_high := Some (server_processing_time params * 2)%Q;
     kw_values := None |}.

(** [process_request], from its start to [yield req].  Nothing in the
    program interrupts a process, so the [except simpy.Interrupt] branch
    never runs and is left out. *)
Definition process_request (request_id : Z) : M outcome :=
  let* arrival_time := gets now in
  let* free := gets (fun s => list_find (fun sv => length (users sv) = 0%nat) (servers s)) in
  match free with
  | None =>
      let* _ := modify incr_failed in
      ret Returned
  | Some (i, _) =>
      let* _ := modify (request i {| request_id := request_id;
                                     arrival_time := arrival_time |}) in
      ret Yielded
  end.

(** [process_request], from the granted request to the processing
    timeout.  The code runs inside the [with] block, so an exception
    releases the server on its way out. *)
Definition process_request_granted (i : nat) (h : Handler) : M outcome :=
  on_exception
    (let* processing_time :=
       draw (random_value R (server_processing_time_distribution params)
               processing_kwargs) in
     timeout processing_time (Done i h))
    (release i h).

(** [process_request], after the processing timeout. *)
Definition process_request_done (i : nat) (h : Handler) : M outcome :=
  let* t := gets now in
  let* _ := modify (record_completion (t - arrival_time h)%Q) in
  let* _ := modify (release i h) in
  ret Returned.

(** [generate_requests], from the head of the loop to the [yield]. *)
Definition generate_requests : M outcome :=
  let* _ := modify incr_total in
  let* request_id := gets total_requests in
  let* kw := lift (rate_kwargs (request_rate params)) in
  let* interarrival_time :=
    draw (random_value R (request_rate_distribution params) kw) in
  timeout interarrival_time (GenWake request_id).

(** [generate_requests], after the [yield]: the handler is spawned and the
    loop starts over. *)
Definition generate_requests_wake (request_id : Z) : M outcome :=
  let* _ := modify (schedule (InitReq request_id) URGENT 0) in
  let* _ := modify incr_spawned in
  generate_requests.

(** [server_failures], from the head of the loop to the first [yield]. *)
Definition server_failures : M outcome :=
  let* kw := lift (rate_kwargs (failure_rate params)) in
  let* time_to_failure :=
    draw (random_value R (failure_rate_distribution params) kw) in
  timeout time_to_failure FailWake.

(** [server_failures], after the first [yield]. *)
Definition server_failures_wake : M outcome :=
  let* n := gets (fun s => length (servers s)) in
  let* i := draw (choice_index R n) in
  let* server := gets (fun s => servers s !! i) in
  match server with
  | Some sv =>
      if (length (users sv) =? 0)%nat then
        let* _ := modify (update_server i (set_capacity 0)) in
        let* _ := modify (add_available (-1)) in
        let* kw := lift (rate_kwargs (recovery_rate params)) in
        let* recovery_time :=
          draw (random_value R (recovery_time_distribution params) kw) in
        timeout recovery_time (RecoverWake i)
      else server_failures
  | None => lift (Raise IndexError)
  end.

(** [server_failures], after the recovery timeout. *)
Definition server_failures_recovered (i : nat) : M outcome :=
  let* _ := modify (update_server i (set_capacity 1)) in
  let* _ := modify (add_available 1) in
  server_failures.

(** ** SimPy: processes and the event loop *)

(** [Process._resume]: the body runs to its next suspension.  A process
    that returns or raises becomes an event itself, scheduled at the
    current time. *)
Definition resume (body : M outcome) (s : Sim) : Sim :=
  match body s with
  | (Ok Yielded, s') => s'
  | (Ok Returned, s') => schedule ProcExit NORMAL 0 s'
  | (Raise e, s') => schedule (Crash e) NORMAL 0 s'
  end.

(** What the callbacks of an event do. *)
Definition fire (e : event) (s : Sim) : Sim :=
  match e with
  | InitGen => resume generate_requests s
  | InitFail => resume server_failures s
  | InitReq rid => resume (process_request rid) s
  | GenWake rid => resume (generate_requests_wake rid) s
  | FailWake => resume server_failures_wake s
  | RecoverWake i => resume (server_failures_recovered i) s
  | Granted i h => resume (process_request_granted i h) s
  | Done i h => resume (process_request_done i h) s
  | Released i => trigger_put i s
  | ProcExit => s
  | Crash _ => s
  | Until => s
  end.

Inductive stepped :=
| Continue (s : Sim)
| Stop (s : Sim)
| Raised (e : exn) (s : Sim)
| EmptySchedule.

(** [Environment.step]: the earliest event leaves the queue, the clock
    moves to its time, its callbacks run.  The event of a crashed process
    re-raises the exception; the [Until] event stops the run.  [queue] holds
    the events that still have callbacks to run: what SimPy's heap keeps of
    an event already processed is not modelled. *)
Definition step (s : Sim) : stepped :=
  match queue s with
  | [] => EmptySchedule
  | x :: q =>
      let s' := fire (ev x) (with_env (at_time x) q (next_eid s) s) in
      match ev x with
      | Crash e => Raised e s'
      | Until => Stop s'
      | _ => Continue s'
      end
  end.

(** The loop of [Environment.run].  It need not terminate (a zero
    interarrival time repeats forever at one instant), so the embedding
    takes fuel: [None] is a run that needs more steps. *)
Fixpoint run_loop (fuel : nat) (s : Sim) : option (result unit * Sim) :=
  match fuel with
  | O => None
  | S fuel' =>
      match step s with
      | Continue s' => run_loop fuel' s'
      | Stop s' => Some (Ok tt, s')
      | Raised e s' => Some (Raise e, s')
      | EmptySchedule =>
          Some (Raise (RuntimeError "No scheduled events left"), s)
      end
  end.

(** [env.run(until=t)]. *)
Definition run (fuel : nat) (until : Q) (s : Sim) : option (result unit * Sim) :=
  if Qle_bool until (now s) then
    Some (Raise (ValueError "until must be greater than now"), s)
  else run_loop fuel (schedule Until URGENT (until - now s) s).

(** ** [get_metrics] *)

Record Metrics := {
  m_total_requests : Z;
  m_completed_requests : Z;
  m_failed_requests : Z;
  m_avg_latency : Q;
  m_available_servers : Z
}.

(** [sum(self.latency)]. *)
Definition py_sum (l : list Q) : Q := fold_left Qplus l 0%Q.

Definition get_metrics (s : Sim) : Metrics :=
  {| m_total_requests := total_requests s;
     m_completed_requests := completed_requests s;
     m_failed_requests := failed_requests s;
     m_avg_latency :=
       match latency s with
       | [] => 0%Q
       | _ => (py_sum (latency s) / inject_Z (Z.of_nat (length (latency s))))%Q
       end;
     m_available_servers := available_servers s |}.

(** [run_simulation] of [optim_app.py]: a fresh environment, a model, one
    run and the metrics.  The generator state [g] is whatever the process
    holds when the function is called; the result carries the state the
    run leaves behind. *)
Definition run_simulation (fuel : nat) (simulation_time : Q) (g : G R)
  : option (result Metrics * G R) :=
  match construct g with
  | Raise e => Some (Raise e, g)
  | Ok model =>
      match run fuel simulation_time model with
      | Some (Ok _, s) => Some (Ok (get_metrics s), rng s)
      | Some (Raise e, s) => Some (Raise e, rng s)
      | None => None
      end
  end.

End Model.

Arguments Continue {R} s.
Arguments Stop {R} s.
Arguments Raised {R} e s.
Arguments EmptySchedule {R}.

(** ** [app.py]: the snapshot loop

    [run_simulation(params, simulation_time, update_interval, time_scale)]
    is a generator: it advances the model one second at a time, yields a
    metrics dictionary whenever [update_interval] seconds have passed since
    the last one, and returns the table of all of them with a final row.
    The names of [app.py] live in the module [App], since [optim_app.py]
    has a [run_simulation] of its own. *)

Module App.
Section RunSimulation.
Context (R : RandomSource) (params : Params).

(** A metrics dictionary with its ["time"] key. *)
Record Row := {
  row_metrics : Metrics;
  row_time : Z
}.

(** The locals of the generator: the model, [last_update] and [results];
    [yielded] is what the consumer has received so far. *)
Record Frame := {
  model : Sim R;
  last_update : Z;
  results : list Row;
  yielded : list Row
}.

(** [time.sleep(secs)]: a negative length raises. *)
Definition sleep (secs : Q) : result unit :=
  if Qlt_le_dec secs 0 then
    Raise (ValueError "sleep length must be non-negative")
  else Ok tt.

(** [range(n)]. *)
Definition py_range (n : Z) : list Z := map Z.of_nat (seq 0 (Z.to_nat n)).

(** The body of [for t in range(simulation_time + 1)], over the values of
    [t] still to come.  An exception ends the generator with the frame as
    it stands; [None] is a run that needs more fuel. *)
Fixpoint loop (fuel : nat) (update_interval : Z) (time_scale : Q)
    (ts : list Z) (f : Frame) : option (result unit * Frame) :=
  match ts with
  | [] => Some (Ok tt, f)
  | t :: ts' =>
      match run R params fuel (inject_Z (t + 1)) (model f) with
      | None => None
      | Some (Raise e, s) =>
          Some (Raise e, {| model := s; last_update := last_update f;
                            results := results f; yielded := yielded f |})
      | Some (Ok _, s) =>
          if update_interval <=? t - last_update f then
            let metrics := {| row_metrics := get_metrics R s; row_time := t |} in
            let f' := {| model := s; last_update := t;
                         results := results f ++ [metrics];
                         yielded := yielded f |} in
            match py_div 1 time_scale with
            | Raise e => Some (Raise e, f')
            | Ok secs =>
                match sleep secs with
                | Raise e => Some (Raise e, f')
                | Ok _ =>
                    loop fuel update_interval time_scale ts'
                      {| model := s; last_update := t;
                         results := results f ++ [metrics];
                         yielded := yielded f ++ [metrics] |}
                end
            end
          else
            loop fuel update_interval time_scale ts'
              {| model := s; last_update := last_update f;
                 results := results f; yielded := yielded f |}
      end
  end.

(** What a consumer that exhausts the generator observes: the rows
    yielded, then the returned table or the exception, and the state the
    [random] module is left in. *)
Definition run_simulation (fuel : nat) (simulation_time update_interval : Z)
    (time_scale : Q) (g : G R)
  : option (list Row * result (list Row) * G R) :=
  match construct R params g with
  | Raise e => Some ([], Raise e, g)
  | Ok m =>
      match loop fuel update_interval time_scale (py_range (simulation_time + 1))
              {| model := m; last_update := 0; results := []; yielded := [] |} with
      | None => None
      | Some (Raise e, f) => Some (yielded f, Raise e, rng R (model f))
      | Some (Ok _, f) =>
          let final_metrics :=
            {| row_metrics := get_metrics R (model f);
               row_time := simulation_time |} in
          Some (yielded f, Ok (results f ++ [final_metrics]), rng R (model f))
      end
  end.

End RunSimulation.

End App.

(** ** [optim_app.py]: the random search *)

Section Optimize.
Context (R : RandomSource).

(** [random.randint(a, b)] is [randrange(a, b + 1)]: [ValueError] on an
    empty range, otherwise [a + _randbelow(b + 1 - a)]. *)
Definition randint (a b : Z) (g : G R) : result Z * G R :=
  if 0 <? b + 1 - a then
    let '(k, g') := rand_below R (Z.to_nat (b + 1 - a)) g in
    (Ok (a + Z.of_nat k), g')
  else (Raise (ValueError "empty range for randrange()"), g).

(** [param_ranges]: a pair of bounds under each key. *)
Record ParamRanges := {
  range_num_servers : Z * Z;
  range_request_rate : Q * Q;
  range_failure_rate : Q * Q;
  range_server_processing_time : Q * Q;
  range_recovery_rate : Q * Q
}.

(** The dictionary literal of the loop body: the values are drawn in the
    order of the keys; the four distribution names are fixed and the other
    keys are absent. *)
Definition draw_params (param_ranges : ParamRanges) (g : G R)
  : result Params * G R :=
  match randint (fst (range_num_servers param_ranges))
                (snd (range_num_servers param_ranges)) g with
  | (Raise e, g1) => (Raise e, g1)
  | (Ok n, g1) =>
      let '(rr, g2) := uniform R (fst (range_request_rate param_ranges))
                         (snd (range_request_rate param_ranges)) g1 in
      let '(fr, g3) := uniform R (fst (range_failure_rate param_ranges))
                         (snd (range_failure_rate param_ranges)) g2 in
      let '(pt, g4) := uniform R (fst (range_server_processing_time param_ranges))
                         (snd (range_server_processing_time param_ranges)) g3 in
      let '(rc, g5) := uniform R (fst (range_recovery_rate param_ranges))
                         (snd (range_recovery_rate param_ranges)) g4 in
      (Ok {| num_servers := n;
             server_processing_time := pt;
             server_processing_time_std := None;
             queue_timeout := None;
             request_rate := rr;
             failure_rate := fr;
             recovery_rate := rc;
             request_rate_distribution := "exponential";
             server_processing_time_distribution := "normal";
             failure_rate_distribution := "exponential";
             recovery_time_distribution := "exponential";
             custom_values := None |}, g5)
  end.

(** An entry of [all_results]. *)
Record Experiment := {
  res_params : Params;
  res_metrics : Metrics
}.

(** The locals of [optimize_simulation]. *)
Record Search := {
  best_params : option Params;
  best_metrics : option Metrics;
  all_results : list Experiment
}.

(** [best_metrics is None or
     metrics["avg_latency"] < best_metrics["avg_latency"]]. *)
Definition improves (metrics : Metrics) (best : option Metrics) : bool :=
  match best with
  | None => true
  | Some b =>
      if Qlt_le_dec (m_avg_latency metrics) (m_avg_latency b) then true
      else false
  end.

(** The body of [for _ in range(num_experiments)], [n] iterations to go.
    An exception of a draw or of a simulation ends the search. *)
Fixpoint optimize_loop (fuel : nat) (simulation_time : Q)
    (param_ranges : ParamRanges) (n : nat) (st : Search) (g : G R)
  : option (result Search * G R) :=
  match n with
  | O => Some (Ok st, g)
  | S n' =>
      match draw_params param_ranges g with
      | (Raise e, g1) => Some (Raise e, g1)
      | (Ok simulation_params, g1) =>
          match run_simulation R simulation_params fuel simulation_time g1 with
          | None => None
          | Some (Raise e, g2) => Some (Raise e, g2)
          | Some (Ok metrics, g2) =>
              let all := all_results st ++
                         [{| res_params := simulation_params;
                             res_metrics := metrics |}] in
              optimize_loop fuel simulation_time param_ranges n'
                (if improves metrics (best_metrics st) then
                   {| best_params := Some simulation_params;
                      best_metrics := Some metrics;
                      all_results := all |}
                 else
                   {| best_params := best_params st;
                      best_metrics := best_metrics st;
                      all_results := all |})
                g2
          end
      end
  end.

(** [optimize_simulation(env_params, param_ranges, num_experiments)], with
    [simulation_time] for [env_params["simulation_time"]]; the returned
    triple is the final [Search]. *)
Definition optimize_simulation (fuel : nat) (simulation_time : Q)
    (param_ranges : ParamRanges) (num_experiments : Z) (g : G R)
  : option (result Search * G R) :=
  optimize_loop fuel simulation_time param_ranges (Z.to_nat num_experiments)
    {| best_params := None; best_metrics := None; all_results := [] |} g.

End Optimize.

(** ** Tactics for process bodies *)

(** Runs a process body symbolically: the monad is unfolded and every
    branch the body can take becomes a goal. *)
Ltac run_body :=
  unfold bind, ret, lift, gets, modify, draw, timeout, on_exception;
  repeat match goal with
    | |- context [match ?x with _ => _ end] =>
        lazymatch x with
        | context [match _ with _ => _ end] => fail
        | _ => destruct x eqn:?
        end
    end.

(** The counter updates, unfolded to [with_metrics]. *)
Ltac unfold_counters :=
  unfold incr_total, incr_failed, record_completion, add_available,
    incr_spawned.

(** Equations between pairs, as [run_body] leaves them. *)
Ltac split_pairs :=
  repeat match goal with
    | H : (_, _) = (_, _) |- _ => injection H as ? ?; subst
    | H : (_, _) = (_, _) |- _ => discriminate H
    end.

(** ** A scripted generator

    A concrete [RandomSource] for running the model: the state is a tape of
    naturals and every draw reads the head of the tape (an exhausted tape
    reads 4). *)

Definition tape_read (g : list nat) : nat * list nat :=
  match g with
  | [] => (4%nat, [])
  | x :: g' => (x, g')
  end.

Definition tape_random (g : list nat) : Q * list nat :=
  let '(x, g') := tape_read g in
  (Z.of_nat (x mod 10) # 10, g').

Definition tape_std_exp (g : list nat) : Q * list nat :=
  let '(x, g') := tape_read g in
  (Z.of_nat x # 4, g').

Definition tape_std_normal (g : list nat) : Q * list nat :=
  let '(x, g') := tape_read g in
  ((Z.of_nat x - 5) # 2, g').

Definition tape_below (n : nat) (g : list nat) : nat * list nat :=
  let '(x, g') := tape_read g in
  ((x mod n)%nat, g').

Definition Tape : RandomSource :=
  {| G := list nat;
     rand_random := tape_random;
     rand_std_exp := tape_std_exp;
     rand_std_normal := tape_std_normal;
     rand_below := tape_below |}.

(** ** Configurations and runs on the scripted generator *)

(** A small configuration of the shape [app.py] builds: two servers, a
    custom processing time and a list of custom values. *)
Definition example_params : Params :=
  {| num_servers := 2;
     server_processing_time := 1;
     server_processing_time_std := None;
     queue_timeout := Some 5%Q;
     request_rate := 1;
     failure_rate := 1 # 2;
     recovery_rate := 1;
     request_rate_distribution := "exponential";
     server_processing_time_distribution := "custom";
     failure_rate_distribution := "exponential";
     recovery_time_distribution := "exponential";
     custom_values := Some [3%Q] |}.

(** A configuration the contract calls invalid in every way it lists. *)
Definition invalid_params : Params :=
  {| num_servers := 0;
     server_processing_time := 0;
     server_processing_time_std := None;
     queue_timeout := None;
     request_rate := 0;
     failure_rate := 0;
     recovery_rate := -1;
     request_rate_distribution := "custom";
     server_processing_time_distribution := "custom";
     failure_rate_distribution := "custom";
     recovery_time_distribution := "custom";
     custom_values := Some [] |}.

(** Two servers; the first failure comes at time 1 and lasts until time 11,
    the first request arrives at time 2. *)
Definition outage_params : Params :=
  {| num_servers := 2;
     server_processing_time := 1;
     server_processing_time_std := None;
     queue_timeout := Some 5%Q;
     request_rate := 1;
     failure_rate := 1;
     recovery_rate := 1;
     request_rate_distribution := "exponential";
     server_processing_time_distribution := "custom";
     failure_rate_distribution := "exponential";
     recovery_time_distribution := "exponential";
     custom_values := None |}.

Definition outage_tape : list nat := [8; 4; 0; 40; 8]%nat.

(** One server, and a [queue_timeout] of five seconds. *)
Definition lone_params : Params :=
  {| num_servers := 1;
     server_processing_time := 1;
     server_processing_time_std := None;
     queue_timeout := Some 5%Q;
     request_rate := 1;
     failure_rate := 1;
     recovery_rate := 1;
     request_rate_distribution := "exponential";
     server_processing_time_distribution := "custom";
     failure_rate_distribution := "exponential";
     recovery_time_distribution := "exponential";
     custom_values := None |}.

(** The draws of the lone-server scenario: the server fails at time 1 and
    is due back at time 11; requests arrive at times 2, 4, 6 and 8. *)
Definition lone_tape : list nat := [8; 4; 0; 40; 8; 8; 8; 8]%nat.

(** The lone-server scenario at time 3: the server is down and the first
    request waits. *)
Definition lone_state : Sim Tape :=
  match run Tape lone_params 40 3 (init Tape lone_params 0 [] 0%nat lone_tape) with
  | Some (_, s) => s
  | None => init Tape lone_params 0 [] 0%nat lone_tape
  end.

Definition lone_server : Resource :=
  {| capacity := 0; users := [];
     put_queue := [{| request_id := 1; arrival_time := 8 # 4 |}] |}.

(** The keyword arguments of a call that passes the rate 10. *)
Definition rate_ten_kwargs : kwargs :=
  {| kw_rate := Some 10%Q; kw_mean := Some (1 / 10)%Q;
     kw_std := Some (1 # 10)%Q; kw_low := Some (1 # 10)%Q;
     kw_high := Some (1 / 10 * 2)%Q; kw_values := None |}.

Definition sample_tape : list nat := [4; 2; 2; 8; 3; 1; 4; 1; 5; 9; 2; 6]%nat.

(** The example configuration, run to time 5. *)
Definition sample_state : Sim Tape :=
  match run Tape example_params 60 5 (init Tape example_params 0 [] 0%nat sample_tape) with
  | Some (_, s) => s
  | None => init Tape example_params 0 [] 0%nat sample_tape
  end.

(** The outage scenario at time 3: one of the two servers is down. *)
Definition outage_state : Sim Tape :=
  match run Tape outage_params 20 3 (init Tape outage_params 0 [] 0%nat outage_tape) with
  | Some (_, s) => s
  | None => init Tape outage_params 0 [] 0%nat outage_tape
  end.

Definition busy_server : Resource :=
  {| capacity := 1;
     users := [{| request_id := 1; arrival_time := 0 |}];
     put_queue := [] |}.

Definition idle_server : Resource :=
  {| capacity := 1; users := []; put_queue := [] |}.

(** A state in which the failure timeout is next: [servers[0]] serves a
    request, [servers[1]] is idle. *)
Definition failure_state (tape : G Tape) : Sim Tape :=
  {| now := 0;
     queue := [{| at_time := 1; priority := NORMAL; eid := 4%nat; ev := FailWake |}];
     next_eid := 5%nat; rng := tape;
     servers := [busy_server; idle_server];
     total_requests := 2; completed_requests := 0; failed_requests := 0;
     latency := []; available_servers := 2; spawned := 1 |}.

Definition after_failure : Sim Tape :=
  fire Tape example_params FailWake
    (with_env Tape 1 [] 5%nat (failure_state [1]%nat)).

Definition first_result : result Metrics * G Tape :=
  (Ok {| m_total_requests := 2; m_completed_requests := 0;
         m_failed_requests := 0; m_avg_latency := 0;
         m_available_servers := 2 |}, []).

(** The server the example run leaves busy. *)
Definition sample_server : Resource :=
  match servers Tape sample_state with
  | sv :: _ => sv
  | [] => idle_server
  end.

(** The example configuration with the failure slider of [app.py] at its
    lowest position. *)
Definition no_failure_params : Params :=
  {| num_servers := 2;
     server_processing_time := 1;
     server_processing_time_std := None;
     queue_timeout := Some 5%Q;
     request_rate := 1;
     failure_rate := 0;
     recovery_rate := 1;
     request_rate_distribution := "exponential";
     server_processing_time_distribution := "custom";
     failure_rate_distribution := "exponential";
     recovery_time_distribution := "exponential";
     custom_values := Some [3%Q] |}.

(** [app.py] on the example configuration: four seconds, a snapshot every
    two, at real-time scale. *)
Definition demo_app : option (list App.Row * result (list App.Row) * G Tape) :=
  App.run_simulation Tape example_params 60 4 2 1 sample_tape.

Definition demo_yielded : list App.Row :=
  match demo_app with
  | Some (ys, _, _) => ys
  | None => []
  end.

Definition demo_rows : list App.Row :=
  match demo_app with
  | Some (_, Ok rows, _) => rows
  | _ => []
  end.

(** A search of two experiments over three seconds: the draws make the
    first one see no arrival before the horizon. *)
Definition demo_ranges : ParamRanges :=
  {| range_num_servers := (1, 3);
     range_request_rate := (1, 3)%Q;
     range_failure_rate := (1 # 2, 1)%Q;
     range_server_processing_time := (1 # 2, 2)%Q;
     range_recovery_rate := (1 # 10, 1 # 2)%Q |}.

(** The same ranges with the bounds of [num_servers] the wrong way round. *)
Definition reversed_ranges : ParamRanges :=
  {| range_num_servers := (3, 1);
     range_request_rate := (1, 3)%Q;
     range_failure_rate := (1 # 2, 1)%Q;
     range_server_processing_time := (1 # 2, 2)%Q;
     range_recovery_rate := (1 # 10, 1 # 2)%Q |}.

Definition demo_search_tape : list nat :=
  [1; 0; 5; 0; 5; 40; 40; 1; 0; 5; 0; 5]%nat.

Definition demo_search : Search :=
  match optimize_simulation Tape 200 3 demo_ranges 2 demo_search_tape with
  | Some (Ok st, _) => st
  | _ => {| best_params := None; best_metrics := None; all_results := [] |}
  end.

Definition demo_idle : Experiment :=
  {| res_params :=
       match draw_params Tape demo_ranges demo_search_tape with
       | (Ok sp, _) => sp
       | _ => example_params
       end;
     res_metrics :=
       {| m_total_requests := 1; m_completed_requests := 0;
          m_failed_requests := 0; m_avg_latency := 0;
          m_available_servers := 2 |} |}.

(** * Vocabulary of the properties *)

(** ** Sampling *)

Definition supported (distribution : string) : Prop :=
  distribution = "exponential"%string \/ distribution = "uniform"%string \/
  distribution = "normal"%string \/ distribution = "custom"%string.

(** The keyword arguments the model passes when its rates and its mean
    processing time are positive. *)
Definition passed_by_model (kw : kwargs) : Prop :=
  (exists p, (0 < server_processing_time p)%Q /\ kw = processing_kwargs p) \/
  (exists rate, (0 < rate)%Q /\ rate_kwargs rate = Ok kw).

(** ** Construction *)

Definition selects_custom (p : Params) : Prop :=
  request_rate_distribution p = "custom"%string \/
  server_processing_time_distribution p = "custom"%string \/
  failure_rate_distribution p = "custom"%string \/
  recovery_time_distribution p = "custom"%string.

(** The configurations the interface contract calls valid. *)
Definition valid_config (p : Params) : Prop :=
  0 < num_servers p /\ (0 < server_processing_time p)%Q /\
  (0 < request_rate p)%Q /\ (0 < failure_rate p)%Q /\
  (0 < recovery_rate p)%Q /\
  (selects_custom p -> exists x l, custom_values p = Some (x :: l)).

(** ** Reachable states

    The states a caller can observe: the model as constructed on a fresh
    environment, then any number of [env.run(until=t)] calls, each of which
    schedules its stop event and processes events one at a time.  A state
    left behind by a run that raised is reachable too. *)

Definition after_step {R} (r : stepped R) : option (Sim R) :=
  match r with
  | Continue s | Stop s | Raised _ s => Some s
  | EmptySchedule => None
  end.

Inductive reachable (R : RandomSource) (p : Params) : Sim R -> Prop :=
| reach_construct g s :
    construct R p g = Ok s -> reachable R p s
| reach_run s d :
    reachable R p s -> reachable R p (schedule R Until URGENT d s)
| reach_step s s' :
    reachable R p s -> after_step (step R p s) = Some s' -> reachable R p s'.

(** The arrival generator is suspended at its [yield]: its interarrival
    timeout is pending. *)
Definition generator_suspended {R} (s : Sim R) : Prop :=
  exists x rid, In x (queue R s) /\ ev x = GenWake rid.

(** Servers whose [_capacity] is 1. *)
Definition servers_up {R} (s : Sim R) : Z :=
  Z.of_nat (length (List.filter (fun sv => capacity sv =? 1) (servers R s))).

(** The capacities of the servers, in order. *)
Definition caps {R} (s : Sim R) : list Z := map capacity (servers R s).

(** ** Counting events and requests *)

Definition is_init_gen (e : event) : bool :=
  match e with InitGen => true | _ => false end.

Definition is_gen_wake (e : event) : bool :=
  match e with GenWake _ => true | _ => false end.

(** The events that resume a request handler. *)
Definition is_handler (e : event) : bool :=
  match e with InitReq _ | Granted _ _ | Done _ _ => true | _ => false end.

(** The events that resume the failure process at a point where every
    server it took down has been restored. *)
Definition is_fail_idle (e : event) : bool :=
  match e with InitFail | FailWake => true | _ => false end.

Definition is_recover (e : event) : bool :=
  match e with RecoverWake _ => true | _ => false end.

Definition indicator (b : bool) : Z := if b then 1 else 0.

Fixpoint count_ev (P : event -> bool) (q : list scheduled) : Z :=
  match q with
  | [] => 0
  | x :: q' => indicator (P (ev x)) + count_ev P q'
  end.

(** A sum over the servers. *)
Fixpoint sum_over (f : Resource -> Z) (l : list Resource) : Z :=
  match l with
  | [] => 0
  | sv :: l' => f sv + sum_over f l'
  end.

(** Requests waiting in some put queue. *)
Definition waiting (l : list Resource) : Z :=
  sum_over (fun sv => Z.of_nat (length (put_queue sv))) l.

(** Servers in service: [_capacity == 1]. *)
Definition is_up (sv : Resource) : Z := indicator (capacity sv =? 1).
Definition count_up (l : list Resource) : Z := sum_over is_up l.

Arguments waiting : simpl never.
Arguments count_up : simpl never.

(** ** Handlers spawned

    [env.process(self.process_request(request_id))] creates a process and
    schedules its Initialize event.  A handler has been spawned when that
    event is pending or has been processed. *)

Definition is_init_req (e : event) : bool :=
  match e with InitReq _ => true | _ => false end.

(** The events processed since the model was constructed, in order, and the
    state they led to. *)
Inductive history (R : RandomSource) (p : Params) : list event -> Sim R -> Prop :=
| hist_construct g s :
    construct R p g = Ok s -> history R p [] s
| hist_run tr s d :
    history R p tr s -> history R p tr (schedule R Until URGENT d s)
| hist_step tr s x q s' :
    history R p tr s -> queue R s = x :: q ->
    after_step (step R p s) = Some s' -> history R p (tr ++ [ev x]) s'.

Definition handlers_spawned {R} (tr : list event) (s : Sim R) : Z :=
  Z.of_nat (length (List.filter is_init_req tr)) +
  count_ev is_init_req (queue R s).

(** The handlers whose Initialize event is no longer pending, by the spawn
    count of the state. *)
Definition started_handlers {R} (s : Sim R) : Z :=
  spawned R s - count_ev is_init_req (queue R s).

(** A recovery timeout is stale when the server it will restore is not
    down (or does not exist). *)
Definition is_down_at (l : list Resource) (i : nat) : bool :=
  match l !! i with
  | Some sv => capacity sv =? 0
  | None => false
  end.

Definition is_stale (l : list Resource) (e : event) : bool :=
  match e with
  | RecoverWake i => negb (is_down_at l i)
  | _ => false
  end.

(** A process event that takes no part in the invariant. *)
Definition neutral (e : event) : Prop := e = ProcExit \/ exists x, e = Crash x.

(** ** The view of a state

    The quantities the invariants speak about: how many events of each kind
    are pending, how many requests are in flight (a pending handler event
    or a place in a put queue), the counters, and how many servers are
    up. *)

Record view := {
  v_init_gen : Z;
  v_gen_wake : Z;
  v_in_flight : Z;
  v_fail_idle : Z;
  v_recover : Z;
  v_stale : Z;
  v_total : Z;
  v_completed : Z;
  v_failed : Z;
  v_spawned : Z;
  v_available : Z;
  v_up : Z;
  v_servers : Z
}.

Definition view_of {R} (s : Sim R) : view :=
  {| v_init_gen := count_ev is_init_gen (queue R s);
     v_gen_wake := count_ev is_gen_wake (queue R s);
     v_in_flight := count_ev is_handler (queue R s) + waiting (servers R s);
     v_fail_idle := count_ev is_fail_idle (queue R s);
     v_recover := count_ev is_recover (queue R s);
     v_stale := count_ev (is_stale (servers R s)) (queue R s);
     v_total := total_requests R s;
     v_completed := completed_requests R s;
     v_failed := failed_requests R s;
     v_spawned := spawned R s;
     v_available := available_servers R s;
     v_up := count_up (servers R s);
     v_servers := Z.of_nat (length (servers R s)) |}.

(** The view after one more event of kind [e] entered the queue. *)
Definition view_add (e : event) (stale : bool) (v : view) : view :=
  {| v_init_gen := indicator (is_init_gen e) + v_init_gen v;
     v_gen_wake := indicator (is_gen_wake e) + v_gen_wake v;
     v_in_flight := indicator (is_handler e) + v_in_flight v;
     v_fail_idle := indicator (is_fail_idle e) + v_fail_idle v;
     v_recover := indicator (is_recover e) + v_recover v;
     v_stale := indicator stale + v_stale v;
     v_total := v_total v;
     v_completed := v_completed v;
     v_failed := v_failed v;
     v_spawned := v_spawned v;
     v_available := v_available v;
     v_up := v_up v;
     v_servers := v_servers v |}.

(** The view after the counters moved by the given amounts. *)
Definition view_count (dt dc df ds da : Z) (v : view) : view :=
  {| v_init_gen := v_init_gen v;
     v_gen_wake := v_gen_wake v;
     v_in_flight := v_in_flight v;
     v_fail_idle := v_fail_idle v;
     v_recover := v_recover v;
     v_stale := v_stale v;
     v_total := v_total v + dt;
     v_completed := v_completed v + dc;
     v_failed := v_failed v + df;
     v_spawned := v_spawned v + ds;
     v_available := v_available v + da;
     v_up := v_up v;
     v_servers := v_servers v |}.

(** The view after one more request joined a put queue. *)
Definition view_wait (v : view) : view :=
  {| v_init_gen := v_init_gen v;
     v_gen_wake := v_gen_wake v;
     v_in_flight := v_in_flight v + 1;
     v_fail_idle := v_fail_idle v;
     v_recover := v_recover v;
     v_stale := v_stale v;
     v_total := v_total v;
     v_completed := v_completed v;
     v_failed := v_failed v;
     v_spawned := v_spawned v;
     v_available := v_available v;
     v_up := v_up v;
     v_servers := v_servers v |}.

(** The view after a capacity changed while no recovery was pending. *)
Definition view_up (d : Z) (v : view) : view :=
  {| v_init_gen := v_init_gen v;
     v_gen_wake := v_gen_wake v;
     v_in_flight := v_in_flight v;
     v_fail_idle := v_fail_idle v;
     v_recover := v_recover v;
     v_stale := 0;
     v_total := v_total v;
     v_completed := v_completed v;
     v_failed := v_failed v;
     v_spawned := v_spawned v;
     v_available := v_available v;
     v_up := v_up v + d;
     v_servers := v_servers v |}.

(** ** The invariant

    On the view of a state, for a model built with [num_servers = n]:
    every request in flight or finished was spawned; the arrival generator
    is one process, which has counted one request more than it has spawned
    once it has started; the failure process is one process, with every
    server up while it waits for the next failure and exactly the server
    it waits to restore down otherwise; [available_servers] moves with the
    number of servers that are up. *)

Record inv (n : Z) (v : view) : Prop := {
  inv_in_flight : v_completed v + v_failed v + v_in_flight v <= v_spawned v;
  inv_generator : v_init_gen v + v_gen_wake v <= 1;
  inv_fresh : v_init_gen v = 1 -> v_total v = 0 /\ v_spawned v = 0;
  inv_started : v_init_gen v = 0 -> v_total v = v_spawned v + 1;
  inv_failure : v_fail_idle v + v_recover v <= 1;
  inv_all_up : v_fail_idle v = 1 -> v_up v = v_servers v;
  inv_one_down : v_recover v = 1 -> v_up v = v_servers v - 1;
  inv_stale : v_stale v = 0;
  inv_available : v_available v - v_up v = n - v_servers v;
  inv_servers : v_servers v = Z.max 0 n
}.

(** Closing a case: the view of the new state is known in terms of the
    view [v] of the old one, and the rest is arithmetic on its fields. *)
Ltac close_inv Hinv Hnn :=
  revert Hinv Hnn;
  match goal with |- context [view_of ?s] => generalize (view_of s) end;
  intros v Hinv Hnn; destruct v; destruct Hinv;
  constructor; cbn in *; lia.

(** ** Properties that every operation keeps *)

(** A process body keeps the property [P] of the state. *)
Definition keeps {R} (P : Sim R -> Prop) (body : M R outcome) : Prop :=
  forall s r s', P s -> body s = (r, s') -> P s'.

(** ** Snapshots over time *)

(** From [s] to [s'] no counter went down and the latency samples of [s] are
    still there, in place, with new ones after them. *)
Definition grew {R} (s s' : Sim R) : Prop :=
  total_requests R s <= total_requests R s' /\
  completed_requests R s <= completed_requests R s' /\
  failed_requests R s <= failed_requests R s' /\
  exists new, latency R s' = latency R s ++ new.

(** ** The stop event of a run *)

Definition is_until (e : event) : bool :=
  match e with Until => true | _ => false end.

(** The due times of the pending stop events. *)
Fixpoint until_times (q : list scheduled) : list Q :=
  match q with
  | [] => []
  | x :: q' => if is_until (ev x) then at_time x :: until_times q'
               else until_times q'
  end.

(** ** Single capacity *)

(** A server is out of service or in service, and holds no more granted
    requests than its capacity. *)
Definition exclusive (sv : Resource) : Prop :=
  0 <= capacity sv <= 1 /\ Z.of_nat (length (users sv)) <= capacity sv.

(** Capacities equal to 1 in a list of capacities. *)
Fixpoint count_caps (l : list Z) : Z :=
  match l with
  | [] => 0
  | c :: l' => indicator (c =? 1) + count_caps l'
  end.

(** ** Crashed processes *)

Definition is_crash (e : event) : bool :=
  match e with Crash _ => true | _ => false end.

(** The event of a crashed process is pending, ahead of every stop event. *)
Definition crash_pending (q : list scheduled) : Prop :=
  exists l1 c l2,
    q = l1 ++ c :: l2 /\ is_crash (ev c) = true /\ until_times l1 = [].

(** ** The processing time *)

(** The configuration with other values under [server_processing_time] and
    [server_processing_time_std]. *)
Definition with_server_processing_time (v : Q) (std : option Q) (p : Params)
  : Params :=
  {| num_servers := num_servers p;
     server_processing_time := v;
     server_processing_time_std := std;
     queue_timeout := queue_timeout p;
     request_rate := request_rate p;
     failure_rate := failure_rate p;
     recovery_rate := recovery_rate p;
     request_rate_distribution := request_rate_distribution p;
     server_processing_time_distribution := server_processing_time_distribution p;
     failure_rate_distribution := failure_rate_distribution p;
     recovery_time_distribution := recovery_time_distribution p;
     custom_values := custom_values p |}.

(** ** The clock *)

(** The handler an event resumes, for the two events that carry one. *)
Definition handler_of (e : event) : option Handler :=
  match e with
  | Granted _ h | Done _ h => Some h
  | _ => None
  end.

(** The handler of [e], if any, arrived no later than [t]. *)
Definition arrived_by (t : Q) (e : event) : Prop :=
  forall h, handler_of e = Some h -> (arrival_time h <= t)%Q.

(** A pending event is due no earlier than [t] and no earlier than the
    arrival of its handler. *)
Definition entry_ok (t : Q) (x : scheduled) : Prop :=
  (t <= at_time x)%Q /\ arrived_by (at_time x) (ev x).

(** The queue is in time order. *)
Fixpoint time_sorted (q : list scheduled) : Prop :=
  match q with
  | [] => True
  | x :: q' =>
      Forall (fun y => (at_time x <= at_time y)%Q) q' /\ time_sorted q'
  end.

(** The clock and what it is compared with: the queue is in time order,
    nothing pending is due in the past, no waiting request arrived in the
    future and no latency sample is negative. *)
Record clock_ok {R} (s : Sim R) : Prop := {
  clock_sorted : time_sorted (queue R s);
  clock_pending : Forall (entry_ok (now R s)) (queue R s);
  clock_waiting :
    Forall (fun sv =>
              Forall (fun h => (arrival_time h <= now R s)%Q) (put_queue sv))
           (servers R s);
  clock_latency : Forall (fun x => (0 <= x)%Q) (latency R s)
}.

(** ** The snapshot loop of [app.py]

    The values of [t] paired with the state [env.run(until=t + 1)] left. *)

(** Each run starts where the one before stopped, and returns. *)
Fixpoint chain {R} (p : Params) (fuel : nat) (s : Sim R)
    (l : list (Z * Sim R)) : Prop :=
  match l with
  | [] => True
  | (t, s') :: l' =>
      run R p fuel (inject_Z (t + 1)) s = Some (Ok tt, s') /\
      chain p fuel s' l'
  end.

(** The iterations in which a snapshot is due: those with
    [t - last_update >= update_interval]. *)
Fixpoint due {A} (update_interval : Z) (l : list (Z * A)) (last : Z)
  : list (Z * A) :=
  match l with
  | [] => []
  | (t, a) :: l' =>
      if update_interval <=? t - last then (t, a) :: due update_interval l' t
      else due update_interval l' last
  end.

(** [last_update] after the iterations [l]. *)
Fixpoint last_after {A} (update_interval : Z) (l : list (Z * A)) (last : Z) : Z :=
  match l with
  | [] => last
  | (t, _) :: l' =>
      last_after update_interval l'
        (if update_interval <=? t - last then t else last)
  end.

Definition snapshot {R} (x : Z * Sim R) : App.Row :=
  {| App.row_metrics := get_metrics R (snd x); App.row_time := fst x |}.

(** The counters of a row are not below those of another. *)
Definition row_le (a b : App.Row) : Prop :=
  m_total_requests (App.row_metrics a) <= m_total_requests (App.row_metrics b) /\
  m_completed_requests (App.row_metrics a) <= m_completed_requests (App.row_metrics b) /\
  m_failed_requests (App.row_metrics a) <= m_failed_requests (App.row_metrics b).

Fixpoint pairwise {A} (rel : A -> A -> Prop) (l : list A) : Prop :=
  match l with
  | [] => True
  | x :: l' => Forall (rel x) l' /\ pairwise rel l'
  end.

(** The positive multiples of [k] up to [n], in order. *)
Definition multiples (k n : Z) : list Z :=
  List.filter (fun t => t mod k =? 0) (map Z.of_nat (seq 1 (Z.to_nat n))).

(** ** The random search of [optim_app.py] *)

(** [best_params] and [best_metrics] are those of one experiment, the first
    of those with the least [avg_latency]; they are [None] when nothing has
    been run. *)
Definition best_of (st : Search) : Prop :=
  match best_params st, best_metrics st with
  | None, None => all_results st = []
  | Some bp, Some bm =>
      exists i : nat,
        all_results st !! i = Some {| res_params := bp; res_metrics := bm |} /\
        (forall (j : nat) e, all_results st !! j = Some e ->
           (m_avg_latency bm <= m_avg_latency (res_metrics e))%Q) /\
        (forall (j : nat) e, (j < i)%nat -> all_results st !! j = Some e ->
           (m_avg_latency bm < m_avg_latency (res_metrics e))%Q)
  | _, _ => False
  end.

(** The entry holds drawn parameters and the metrics their simulation
    returned. *)
Definition ran (R : RandomSource) (fuel : nat) (simulation_time : Q)
    (param_ranges : ParamRanges) (e : Experiment) : Prop :=
  exists g g1 g2,
    draw_params R param_ranges g = (Ok (res_params e), g1) /\
    run_simulation R (res_params e) fuel simulation_time g1 =
      Some (Ok (res_metrics e), g2).

(** Each pair of bounds is in order. *)
Definition ordered (r : ParamRanges) : Prop :=
  fst (range_num_servers r) <= snd (range_num_servers r) /\
  (fst (range_request_rate r) <= snd (range_request_rate r))%Q /\
  (fst (range_failure_rate r) <= snd (range_failure_rate r))%Q /\
  (fst (range_server_processing_time r) <= snd (range_server_processing_time r))%Q /\
  (fst (range_recovery_rate r) <= snd (range_recovery_rate r))%Q.

Definition between (x : Q) (r : Q * Q) : Prop := (fst r <= x <= snd r)%Q.

Definition within (r : ParamRanges) (p : Params) : Prop :=
  fst (range_num_servers r) <= num_servers p <= snd (range_num_servers r) /\
  between (request_rate p) (range_request_rate r) /\
  between (failure_rate p) (range_failure_rate r) /\
  between (server_processing_time p) (range_server_processing_time r) /\
  between (recovery_rate p) (range_recovery_rate r).

(** * Properties *)

(** ** The scripted generator keeps the documented ranges *)

Lemma tape_random_range g :
  (0 <= fst (tape_random g) /\ fst (tape_random g) < 1)%Q.
Proof.
  unfold tape_random. destruct (tape_read g) as [x g']. cbn [fst].
  pose proof (Nat.mod_upper_bound x 10 ltac:(lia)) as Hx.
  unfold Qle, Qlt. cbn [Qnum Qden]. lia.
Qed.

Lemma tape_std_exp_nonneg g : (0 <= fst (tape_std_exp g))%Q.
Proof.
  unfold tape_std_exp. destruct (tape_read g) as [x g']. cbn [fst].
  unfold Qle. cbn [Qnum Qden]. lia.
Qed.

Lemma tape_below_lt n g : (0 < n)%nat -> (fst (tape_below n g) < n)%nat.
Proof.
  intros Hn. unfold tape_below. destruct (tape_read g) as [x g']. cbn [fst].
  apply Nat.mod_upper_bound. lia.
Qed.

Lemma Tape_laws : RandomLaws Tape.
Proof.
  constructor.
  - exact tape_random_range.
  - exact tape_std_exp_nonneg.
  - exact tape_below_lt.
Qed.

(** ** Sampled durations *)

Lemma py_max0_nonneg x : (0 <= py_max0 x)%Q.
Proof. unfold py_max0. destruct (Qlt_le_dec 0 x); lra. Qed.

Lemma py_div_pos a b :
  (0 <= a)%Q -> (0 < b)%Q -> exists x, py_div a b = Ok x /\ (0 <= x)%Q.
Proof.
  intros Ha Hb. unfold py_div.
  destruct (Qeq_bool b 0) eqn:E.
  - apply Qeq_bool_iff in E. rewrite E in Hb. lra.
  - eexists; split; [reflexivity|]. apply Qle_shift_div_l; lra.
Qed.

Lemma py_div_one_pos b :
  (0 < b)%Q -> exists x, py_div 1 b = Ok x /\ (0 < x)%Q.
Proof.
  intros Hb. unfold py_div.
  destruct (Qeq_bool b 0) eqn:E.
  - apply Qeq_bool_iff in E. rewrite E in Hb. lra.
  - eexists; split; [reflexivity|]. apply Qlt_shift_div_l; lra.
Qed.

Lemma passed_by_model_inv kw :
  passed_by_model kw ->
  (0 < default 1 (kw_rate kw))%Q /\ kw_low kw = Some (1 # 10)%Q /\
  (0 < default 1 (kw_high kw))%Q /\ kw_values kw = None.
Proof.
  intros [(p & Hp & ->) | (rate & Hr & Hkw)].
  - cbn. repeat split; lra.
  - unfold rate_kwargs in Hkw.
    destruct (py_div_one_pos rate Hr) as (x & Hdiv & Hx).
    rewrite Hdiv in Hkw. injection Hkw as <-. cbn. repeat split; lra.
Qed.

Section Sampling.
Context (R : RandomSource) (laws : RandomLaws R).

Lemma choice_default g : fst (choice R [1%Q] g) = Ok 1%Q.
Proof.
  unfold choice, choice_index. cbn [length].
  pose proof (rand_below_lt R laws 1%nat g ltac:(lia)) as Hlt.
  destruct (rand_below R 1 g) as [i g']. cbn [fst] in Hlt.
  assert (i = 0%nat) as -> by lia. reflexivity.
Qed.

Lemma uniform_pos a b g :
  (0 < a)%Q -> (0 < b)%Q -> (0 <= fst (uniform R a b g))%Q.
Proof.
  intros Ha Hb. unfold uniform.
  pose proof (rand_random_range R laws g) as [H0 H1].
  destruct (rand_random R g) as [u g']. cbn [fst] in *. nra.
Qed.

(** C8: for each of the four distribution names and the keyword arguments
    the model passes when its rates and mean processing time are positive,
    [random_value] returns a duration and the duration is not negative; a
    normal draw is the Gaussian draw [z] clamped at 0: it is [z] when [z] is
    positive and 0 otherwise. *)
Theorem random_value_nonneg (distribution : string) (kw : kwargs) (g : G R) :
  supported distribution ->
  passed_by_model kw ->
  exists x,
    fst (random_value R distribution kw g) = Ok x /\ (0 <= x)%Q /\
    (distribution = "normal"%string ->
     forall z,
       z = fst (gauss R (default 0%Q (kw_mean kw)) (default 1%Q (kw_std kw)) g) ->
       ((0 < z)%Q -> x = z) /\ ((z <= 0)%Q -> x = 0%Q)).
Proof.
  intros Hd Hkw.
  destruct (passed_by_model_inv kw Hkw) as (Hrate & Hlow & Hhigh & Hvalues).
  unfold random_value.
  destruct Hd as [-> | [-> | [-> | ->]]]; cbn [String.eqb Ascii.eqb Bool.eqb].
  - unfold expovariate.
    pose proof (rand_std_exp_nonneg R laws g) as He.
    destruct (rand_std_exp R g) as [e g']. cbn [fst] in *.
    destruct (py_div_pos e _ He Hrate) as (x & -> & Hx).
    exists x. split; [reflexivity|]. split; [assumption | discriminate].
  - rewrite Hlow. cbn [default].
    pose proof (uniform_pos (1 # 10) (default 1%Q (kw_high kw)) g
                  ltac:(lra) Hhigh) as Hu.
    destruct (uniform R _ _ g) as [x g']. cbn [fst] in *.
    exists x. split; [reflexivity|]. split; [assumption | discriminate].
  - destruct (gauss R _ _ g) as [x g']. cbn [fst].
    exists (py_max0 x). split; [reflexivity|]. split; [apply py_max0_nonneg|].
    intros _ z ->. unfold py_max0.
    destruct (Qlt_le_dec 0 x) as [Hpos|Hneg]; split; intros H;
      try reflexivity; lra.
  - rewrite Hvalues. cbn [default]. rewrite choice_default.
    exists 1%Q. split; [reflexivity|]. split; [lra | discriminate].
Qed.

Lemma rate_kwargs_values rate kw : rate_kwargs rate = Ok kw -> kw_values kw = None.
Proof.
  unfold rate_kwargs. destruct (py_div 1 rate); [|discriminate].
  intros H. injection H as <-. reflexivity.
Qed.

(** C3: at every call site of the model, whatever the configuration, a
    custom draw is 1, the only element of the default list of
    [random_value]: no call passes [values], so [custom_values] never
    reaches the draw.  In particular the processing time of a configuration
    that selects the custom distribution with [custom_values = [3.0]] is 1. *)
Theorem custom_draw_ignores_custom_values (g : G R) :
  (forall p rate kw,
      kw = processing_kwargs p \/ rate_kwargs rate = Ok kw ->
      fst (random_value R "custom" kw g) = Ok 1%Q) /\
  server_processing_time_distribution example_params = "custom"%string /\
  custom_values example_params = Some [3%Q] /\
  fst (random_value R (server_processing_time_distribution example_params)
         (processing_kwargs example_params) g) = Ok 1%Q.
Proof.
  assert (forall kw, kw_values kw = None ->
                     fst (random_value R "custom" kw g) = Ok 1%Q) as Hdraw.
  { intros kw Hkw. unfold random_value. cbn [String.eqb Ascii.eqb Bool.eqb].
    rewrite Hkw. cbn [default]. apply choice_default. }
  split.
  - intros p rate kw [-> | Hkw]; apply Hdraw;
      [reflexivity | exact (rate_kwargs_values rate kw Hkw)].
  - repeat split. apply (Hdraw (processing_kwargs example_params)). reflexivity.
Qed.

End Sampling.

Lemma random_value_nonneg_witness :
  (RandomLaws Tape /\ supported "normal" /\ passed_by_model rate_ten_kwargs) /\
  ((fst (gauss Tape (1 / 10) (1 # 10) [0%nat]) <= 0)%Q /\
   fst (random_value Tape "normal" rate_ten_kwargs [0%nat]) = Ok 0%Q) /\
  ((0 < fst (gauss Tape (1 / 10) (1 # 10) [9%nat]))%Q /\
   fst (random_value Tape "normal" rate_ten_kwargs [9%nat]) =
     Ok (fst (gauss Tape (1 / 10) (1 # 10) [9%nat]))).
Proof.
  assert (supported "normal") as Hs by (right; right; left; reflexivity).
  assert (passed_by_model rate_ten_kwargs) as Hk
    by (right; exists 10%Q; split; [lra | reflexivity]).
  assert (fst (gauss Tape (1 / 10) (1 # 10) [0%nat]) <= 0)%Q as Hlow
    by (vm_compute; discriminate).
  assert (0 < fst (gauss Tape (1 / 10) (1 # 10) [9%nat]))%Q as Hhigh
    by (vm_compute; reflexivity).
  split; [split; [exact Tape_laws | split; assumption]|]. split.
  - split; [exact Hlow|].
    destruct (random_value_nonneg Tape Tape_laws "normal" rate_ten_kwargs [0%nat]
                Hs Hk) as (x & Hx & _ & Hclamp).
    rewrite Hx. f_equal. exact (proj2 (Hclamp eq_refl _ eq_refl) Hlow).
  - split; [exact Hhigh|].
    destruct (random_value_nonneg Tape Tape_laws "normal" rate_ten_kwargs [9%nat]
                Hs Hk) as (x & Hx & _ & Hclamp).
    rewrite Hx. f_equal. exact (proj1 (Hclamp eq_refl _ eq_refl) Hhigh).
Defined.

Lemma custom_draw_ignores_custom_values_witness :
  RandomLaws Tape /\
  ((forall p rate kw,
       kw = processing_kwargs p \/ rate_kwargs rate = Ok kw ->
       fst (random_value Tape "custom" kw [0%nat]) = Ok 1%Q) /\
   server_processing_time_distribution example_params = "custom"%string /\
   custom_values example_params = Some [3%Q] /\
   fst (random_value Tape (server_processing_time_distribution example_params)
          (processing_kwargs example_params) [0%nat]) = Ok 1%Q).
Proof.
  split; [exact Tape_laws|].
  apply (custom_draw_ignores_custom_values Tape Tape_laws [0%nat]).
Defined.

(** ** Counting events and requests *)

Lemma indicator_range b : 0 <= indicator b <= 1.
Proof. destruct b; cbn; lia. Qed.

Lemma count_ev_nonneg P q : 0 <= count_ev P q.
Proof.
  induction q as [|x q IH]; cbn [count_ev]; [lia|].
  pose proof (indicator_range (P (ev x))). lia.
Qed.

Lemma count_ev_enqueue P x q :
  count_ev P (enqueue x q) = indicator (P (ev x)) + count_ev P q.
Proof.
  induction q as [|y q IH]; cbn [enqueue count_ev]; [reflexivity|].
  destruct (before x y); cbn [count_ev]; lia.
Qed.

Lemma sum_over_insert f l i sv sv' :
  l !! i = Some sv ->
  sum_over f (<[i := sv']> l) = sum_over f l - f sv + f sv'.
Proof.
  revert i. induction l as [|y l IH]; intros [|i] H; try discriminate.
  - injection H as ->. cbn. lia.
  - cbn in H. cbn [sum_over]. change (<[S i:=sv']> (y :: l)) with (y :: <[i:=sv']> l).
    cbn [sum_over]. rewrite (IH _ H). lia.
Qed.

Lemma alter_as_insert (f : Resource -> Resource) (l : list Resource) (i : nat) sv :
  l !! i = Some sv -> alter f i l = <[i := f sv]> l.
Proof.
  revert i. induction l as [|y l IH]; intros [|i] H; try discriminate.
  - injection H as ->. reflexivity.
  - cbn in H. cbn. f_equal. apply IH, H.
Qed.

Lemma alter_missing (f : Resource -> Resource) (l : list Resource) (i : nat) :
  l !! i = None -> alter f i l = l.
Proof.
  revert i. induction l as [|y l IH]; intros [|i] H; try discriminate; try reflexivity.
  cbn in H. cbn. f_equal. apply IH, H.
Qed.

Lemma count_up_range l : 0 <= count_up l <= Z.of_nat (length l).
Proof.
  unfold count_up. induction l as [|sv l IH]; cbn [sum_over length]; [lia|].
  pose proof (indicator_range (capacity sv =? 1)) as Hsv.
  change (is_up sv) with (indicator (capacity sv =? 1)). lia.
Qed.

Lemma count_up_replicate n :
  count_up (replicate n {| capacity := 1; users := []; put_queue := [] |}) = Z.of_nat n.
Proof.
  unfold count_up. induction n as [|n IH]; cbn [replicate sum_over]; [reflexivity|].
  rewrite IH. cbn. lia.
Qed.

Lemma waiting_replicate n :
  waiting (replicate n {| capacity := 1; users := []; put_queue := [] |}) = 0.
Proof.
  unfold waiting. induction n as [|n IH]; cbn [replicate sum_over]; [reflexivity|].
  rewrite IH. reflexivity.
Qed.

(** All servers up, read at one index. *)
Lemma count_up_full l i sv :
  count_up l = Z.of_nat (length l) -> l !! i = Some sv -> capacity sv = 1.
Proof.
  revert i. induction l as [|y l IH]; intros i Hfull Hi; [destruct i; discriminate|].
  unfold count_up in *. cbn [sum_over length] in Hfull.
  pose proof (count_up_range l) as Hr. unfold count_up in Hr.
  pose proof (indicator_range (capacity y =? 1)) as Hy.
  change (is_up y) with (indicator (capacity y =? 1)) in Hfull.
  destruct i as [|i].
  - injection Hi as ->. destruct (capacity sv =? 1) eqn:E; [lia|]. cbn in Hfull. lia.
  - cbn in Hi. apply (IH i); [lia | exact Hi].
Qed.

(** ** Views *)

Lemma view_eq v w :
  v_init_gen v = v_init_gen w -> v_gen_wake v = v_gen_wake w ->
  v_in_flight v = v_in_flight w -> v_fail_idle v = v_fail_idle w ->
  v_recover v = v_recover w -> v_stale v = v_stale w ->
  v_total v = v_total w -> v_completed v = v_completed w ->
  v_failed v = v_failed w -> v_spawned v = v_spawned w ->
  v_available v = v_available w -> v_up v = v_up w ->
  v_servers v = v_servers w -> v = w.
Proof. destruct v, w; cbn; intros; subst; reflexivity. Qed.

Lemma is_stale_not_recover l e : is_recover e = false -> is_stale l e = false.
Proof. destruct e; cbn; congruence. Qed.

Lemma count_stale_no_recover l q :
  count_ev is_recover q = 0 -> count_ev (is_stale l) q = 0.
Proof.
  induction q as [|x q IH]; cbn [count_ev]; [reflexivity|].
  pose proof (count_ev_nonneg is_recover q).
  pose proof (count_ev_nonneg (is_stale l) q).
  destruct (is_recover (ev x)) eqn:E; cbn [indicator]; [lia|].
  rewrite (is_stale_not_recover _ _ E). cbn [indicator]. intros. apply IH. lia.
Qed.

(** Replacing a server by one of the same capacity changes no staleness. *)
Lemma is_down_at_insert (l : list Resource) (j : nat) sv sv' i :
  l !! j = Some sv -> capacity sv' = capacity sv ->
  is_down_at (<[j := sv']> l) i = is_down_at l i.
Proof.
  intros Hj Hc. unfold is_down_at.
  destruct (decide (j = i)) as [->|Hne].
  - rewrite list_lookup_insert_eq by (eapply lookup_lt_Some; eassumption).
    rewrite Hj, Hc. reflexivity.
  - rewrite list_lookup_insert_ne by assumption. reflexivity.
Qed.

Lemma count_stale_insert (l : list Resource) (j : nat) sv sv' q :
  l !! j = Some sv -> capacity sv' = capacity sv ->
  count_ev (is_stale (<[j := sv']> l)) q = count_ev (is_stale l) q.
Proof.
  intros Hj Hc. induction q as [|x q IH]; cbn [count_ev]; [reflexivity|].
  rewrite IH. f_equal. f_equal. destruct (ev x); cbn [is_stale]; try reflexivity.
  now rewrite (is_down_at_insert l j sv sv').
Qed.

Lemma count_up_insert_same (l : list Resource) (j : nat) sv sv' :
  l !! j = Some sv -> capacity sv' = capacity sv ->
  count_up (<[j := sv']> l) = count_up l.
Proof.
  intros Hj Hc. unfold count_up. rewrite (sum_over_insert _ _ _ _ _ Hj).
  unfold is_up. rewrite Hc. lia.
Qed.

(** ** The view after each operation of the model *)

Section Effects.
Context (R : RandomSource).
Implicit Types s : Sim R.

Lemma view_nonneg s :
  0 <= v_init_gen (view_of s) /\ 0 <= v_gen_wake (view_of s) /\
  0 <= v_fail_idle (view_of s) /\ 0 <= v_recover (view_of s) /\
  0 <= v_stale (view_of s).
Proof. cbn. repeat split; apply count_ev_nonneg. Qed.

Lemma view_with_rng g s : view_of (with_rng R g s) = view_of s.
Proof. reflexivity. Qed.

(** Taking the earliest event [x] off the queue. *)
Lemma view_pop s x q :
  queue R s = x :: q ->
  view_of s =
  view_add (ev x) (is_stale (servers R s) (ev x))
    (view_of (with_env R (at_time x) q (next_eid R s) s)).
Proof.
  intros Hq. unfold view_of. rewrite Hq. cbn [count_ev].
  apply view_eq; cbn; lia.
Qed.

Lemma view_schedule e prio d s :
  view_of (schedule R e prio d s) =
  view_add e (is_stale (servers R s) e) (view_of s).
Proof.
  unfold view_of, schedule. cbn [queue servers with_env].
  rewrite !count_ev_enqueue. cbn [ev].
  apply view_eq; cbn; lia.
Qed.

Lemma view_incr_total s :
  view_of (incr_total R s) = view_count 1 0 0 0 0 (view_of s).
Proof. apply view_eq; cbn; lia. Qed.

Lemma view_incr_failed s :
  view_of (incr_failed R s) = view_count 0 0 1 0 0 (view_of s).
Proof. apply view_eq; cbn; lia. Qed.

Lemma view_record_completion x s :
  view_of (record_completion R x s) = view_count 0 1 0 0 0 (view_of s).
Proof. apply view_eq; cbn; lia. Qed.

Lemma view_incr_spawned s :
  view_of (incr_spawned R s) = view_count 0 0 0 1 0 (view_of s).
Proof. apply view_eq; cbn; lia. Qed.

Lemma view_add_available d s :
  view_of (add_available R d s) = view_count 0 0 0 0 d (view_of s).
Proof. apply view_eq; cbn; lia. Qed.

(** A server replaced by one of the same capacity. *)
Lemma view_with_servers_same s (j : nat) sv sv' :
  servers R s !! j = Some sv -> capacity sv' = capacity sv ->
  view_of (with_servers R (<[j := sv']> (servers R s)) s) =
  {| v_init_gen := v_init_gen (view_of s);
     v_gen_wake := v_gen_wake (view_of s);
     v_in_flight := v_in_flight (view_of s)
                    - Z.of_nat (length (put_queue sv))
                    + Z.of_nat (length (put_queue sv'));
     v_fail_idle := v_fail_idle (view_of s);
     v_recover := v_recover (view_of s);
     v_stale := v_stale (view_of s);
     v_total := v_total (view_of s);
     v_completed := v_completed (view_of s);
     v_failed := v_failed (view_of s);
     v_spawned := v_spawned (view_of s);
     v_available := v_available (view_of s);
     v_up := v_up (view_of s);
     v_servers := v_servers (view_of s) |}.
Proof.
  intros Hj Hc. unfold view_of. cbn [queue servers with_servers
    total_requests completed_requests failed_requests spawned
    available_servers].
  rewrite (count_stale_insert _ _ _ _ _ Hj Hc).
  rewrite (count_up_insert_same _ _ _ _ Hj Hc).
  unfold waiting. rewrite (sum_over_insert _ _ _ _ _ Hj).
  rewrite length_insert.
  apply view_eq; cbn; lia.
Qed.

(** Granting the head of a put queue turns a waiting request into a
    pending [Granted] event. *)
Lemma view_trigger_put i s : view_of (trigger_put R i s) = view_of s.
Proof.
  unfold trigger_put.
  destruct (servers R s !! i) as [sv|] eqn:Hi; [|reflexivity].
  destruct (put_queue sv) as [|h rest] eqn:Hq; [reflexivity|].
  destruct (Z.of_nat (length (users sv)) <? capacity sv); [|reflexivity].
  rewrite view_schedule.
  rewrite (view_with_servers_same s i sv _ Hi) by reflexivity.
  cbn [is_stale put_queue]. rewrite Hq. cbn [length].
  apply view_eq; cbn; lia.
Qed.

Lemma view_request i h s sv :
  servers R s !! i = Some sv ->
  view_of (request R i h s) = view_wait (view_of s).
Proof.
  intros Hi. unfold request. rewrite Hi. rewrite view_trigger_put.
  rewrite (view_with_servers_same s i sv _ Hi) by reflexivity.
  cbn [put_queue]. rewrite length_app. cbn [length].
  apply view_eq; cbn; lia.
Qed.

Lemma view_release i h s : view_of (release R i h s) = view_of s.
Proof.
  unfold release.
  destruct (servers R s !! i) as [sv|] eqn:Hi; [|reflexivity].
  rewrite view_schedule.
  rewrite (view_with_servers_same s i sv _ Hi) by reflexivity.
  cbn [is_stale put_queue].
  apply view_eq; cbn; lia.
Qed.

(** A capacity assignment, made while no recovery timeout is pending. *)
Lemma view_set_capacity i c s sv :
  servers R s !! i = Some sv ->
  v_recover (view_of s) = 0 ->
  view_of (update_server R i (set_capacity c) s) =
  view_up (indicator (c =? 1) - is_up sv) (view_of s).
Proof.
  intros Hi Hrec. unfold update_server.
  rewrite (alter_as_insert _ _ _ _ Hi).
  unfold view_of in *. cbn [queue servers with_servers
    total_requests completed_requests failed_requests spawned
    available_servers v_recover] in *.
  rewrite (count_stale_no_recover _ _ Hrec).
  unfold count_up, waiting. rewrite !(sum_over_insert _ _ _ _ _ Hi).
  rewrite length_insert.
  apply view_eq; cbn; unfold is_up; cbn; lia.
Qed.

Lemma is_down_after_failure i s sv :
  servers R s !! i = Some sv ->
  is_down_at (servers R (update_server R i (set_capacity 0) s)) i = true.
Proof.
  intros Hi. unfold update_server. cbn [servers with_servers].
  rewrite (alter_as_insert _ _ _ _ Hi). unfold is_down_at.
  rewrite list_lookup_insert_eq by (eapply lookup_lt_Some; eassumption).
  reflexivity.
Qed.

End Effects.

(** ** Every event preserves the invariant *)

Section Preservation.
Context (R : RandomSource) (p : Params).
Implicit Types s : Sim R.

Lemma view_add_neutral e v : neutral e -> view_add e false v = v.
Proof. intros [-> | [x ->]]; apply view_eq; cbn; lia. Qed.

Lemma resume_generate_requests s :
  exists e, (neutral e \/ exists rid, e = GenWake rid) /\
    view_of (resume R (generate_requests R p) s) =
    view_add e false (view_count 1 0 0 0 0 (view_of s)).
Proof.
  unfold resume, generate_requests. run_body;
    split_pairs;
    rewrite view_schedule; cbn [is_stale];
    rewrite ?view_with_rng, ?view_incr_total;
    eexists; (split; [|reflexivity]); unfold neutral; eauto.
Qed.

Lemma resume_server_failures s :
  exists e, (neutral e \/ e = FailWake) /\
    view_of (resume R (server_failures R p) s) =
    view_add e false (view_of s).
Proof.
  unfold resume, server_failures. run_body;
    split_pairs;
    rewrite view_schedule; cbn [is_stale];
    rewrite ?view_with_rng;
    eexists; (split; [|reflexivity]); unfold neutral; eauto.
Qed.

(** The three ways [server_failures] continues after its first timeout:
    no server could be chosen, the chosen server is in use, the chosen
    server is idle. *)
Lemma server_failures_wake_raise s e g' :
  choice_index R (length (servers R s)) (rng R s) = (Raise e, g') ->
  server_failures_wake R p s = (Raise e, with_rng R g' s).
Proof.
  intros Hc. unfold server_failures_wake, bind, gets, draw.
  rewrite Hc. reflexivity.
Qed.

Lemma server_failures_wake_busy s i g' sv :
  choice_index R (length (servers R s)) (rng R s) = (Ok i, g') ->
  servers R s !! i = Some sv ->
  (length (users sv) =? 0)%nat = false ->
  server_failures_wake R p s = server_failures R p (with_rng R g' s).
Proof.
  intros Hc Hi Hu. unfold server_failures_wake, bind, gets, draw.
  rewrite Hc. cbn [servers with_rng]. rewrite Hi, Hu. reflexivity.
Qed.

Lemma server_failures_wake_idle s i g' sv :
  choice_index R (length (servers R s)) (rng R s) = (Ok i, g') ->
  servers R s !! i = Some sv ->
  (length (users sv) =? 0)%nat = true ->
  server_failures_wake R p s =
  bind R (lift R (rate_kwargs (recovery_rate p)))
    (fun kw =>
       bind R (draw R (random_value R (recovery_time_distribution p) kw))
         (fun recovery_time => timeout R recovery_time (RecoverWake i)))
    (add_available R (-1)
       (update_server R i (set_capacity 0) (with_rng R g' s))).
Proof.
  intros Hc Hi Hu. unfold server_failures_wake.
  unfold bind at 1, gets at 1. unfold bind at 1, draw at 1. rewrite Hc.
  unfold bind at 1, gets at 1. cbn [servers with_rng]. rewrite Hi, Hu.
  reflexivity.
Qed.

Lemma server_failures_wake_missing s i g' :
  choice_index R (length (servers R s)) (rng R s) = (Ok i, g') ->
  servers R s !! i = None ->
  server_failures_wake R p s = (Raise IndexError, with_rng R g' s).
Proof.
  intros Hc Hi. unfold server_failures_wake, bind, gets, draw.
  rewrite Hc. cbn [servers with_rng]. rewrite Hi. reflexivity.
Qed.

Lemma fire_inv n e s :
  inv n (view_add e (is_stale (servers R s) e) (view_of s)) ->
  inv n (view_of (fire R p e s)).
Proof.
  intros Hinv. pose proof (view_nonneg R s) as Hnn.
  destruct e as [| |rid|rid| |i|i h|i h|i| |x|]; cbn [fire is_stale] in *.
  - (* InitGen *)
    destruct (resume_generate_requests s) as (e & He & ->).
    destruct He as [He | [rid ->]]; [rewrite (view_add_neutral _ _ He)|];
      close_inv Hinv Hnn.
  - (* InitFail *)
    destruct (resume_server_failures s) as (e & He & ->).
    destruct He as [He | ->]; [rewrite (view_add_neutral _ _ He)|];
      close_inv Hinv Hnn.
  - (* InitReq *)
    unfold resume, process_request. run_body;
      split_pairs.
    + match goal with H : list_find _ _ = Some _ |- _ =>
        apply list_find_Some in H; destruct H as (Hi & _) end.
      rewrite (view_request R _ _ _ _ Hi). close_inv Hinv Hnn.
    + rewrite view_schedule, view_incr_failed. cbn [is_stale].
      close_inv Hinv Hnn.
  - (* GenWake *)
    change (resume R (generate_requests_wake R p rid) s)
      with (resume R (generate_requests R p)
              (incr_spawned R (schedule R (InitReq rid) URGENT 0 s))).
    destruct (resume_generate_requests
                (incr_spawned R (schedule R (InitReq rid) URGENT 0 s)))
      as (e & He & ->).
    rewrite view_incr_spawned, view_schedule. cbn [is_stale].
    destruct He as [He | [rid' ->]]; [rewrite (view_add_neutral _ _ He)|];
      close_inv Hinv Hnn.
  - (* FailWake *)
    destruct (choice_index R (length (servers R s)) (rng R s))
      as [[i|x] g'] eqn:Hc.
    2:{ unfold resume. rewrite (server_failures_wake_raise s x g' Hc).
        rewrite view_schedule, view_with_rng. cbn [is_stale].
        close_inv Hinv Hnn. }
    destruct (servers R s !! i) as [sv|] eqn:Hi.
    2:{ unfold resume. rewrite (server_failures_wake_missing s i g' Hc Hi).
        rewrite view_schedule, view_with_rng. cbn [is_stale].
        close_inv Hinv Hnn. }
    destruct (length (users sv) =? 0)%nat eqn:Hu.
    2:{ unfold resume.
        rewrite (server_failures_wake_busy s i g' sv Hc Hi Hu).
        destruct (resume_server_failures (with_rng R g' s)) as (e & He & Hv).
        unfold resume in Hv. rewrite Hv, view_with_rng.
        destruct He as [He | ->]; [rewrite (view_add_neutral _ _ He)|];
          close_inv Hinv Hnn. }
    assert (v_recover (view_of s) = 0) as Hrec.
    { destruct Hinv, Hnn as (? & ? & ? & ? & ?). cbn in *. lia. }
    assert (is_up sv = 1) as Hup.
    { assert (count_up (servers R s) = Z.of_nat (length (servers R s))) as Hfull.
      { destruct Hinv, Hnn as (? & ? & ? & ? & ?). cbn in *. lia. }
      unfold is_up. rewrite (count_up_full _ _ _ Hfull Hi). reflexivity. }
    pose proof (is_down_after_failure R i (with_rng R g' s) sv Hi) as Hdown.
    pose proof (view_set_capacity R i 0 (with_rng R g' s) sv Hi Hrec) as Hset.
    rewrite Hup in Hset. cbn [Z.eqb indicator] in Hset.
    unfold resume. rewrite (server_failures_wake_idle s i g' sv Hc Hi Hu).
    run_body;
      split_pairs;
      rewrite view_schedule; cbn [is_stale servers with_rng add_available with_metrics];
      rewrite ?Hdown; cbn [negb];
      rewrite ?view_with_rng, view_add_available, Hset, view_with_rng;
      close_inv Hinv Hnn.
  - (* RecoverWake *)
    destruct (is_down_at (servers R s) i) eqn:Hdown; cbn [negb] in Hinv.
    2:{ exfalso. destruct Hinv, Hnn as (? & ? & ? & ? & ?). cbn in *. lia. }
    unfold is_down_at in Hdown.
    destruct (servers R s !! i) as [sv|] eqn:Hi; [|discriminate].
    assert (v_recover (view_of s) = 0) as Hrec.
    { destruct Hinv, Hnn as (? & ? & ? & ? & ?). cbn in *. lia. }
    pose proof (view_set_capacity R i 1 s sv Hi Hrec) as Hset.
    apply Z.eqb_eq in Hdown.
    unfold is_up in Hset. rewrite Hdown in Hset. cbn [Z.eqb indicator] in Hset.
    change (resume R (server_failures_recovered R p i) s)
      with (resume R (server_failures R p)
              (add_available R 1 (update_server R i (set_capacity 1) s))).
    destruct (resume_server_failures
                (add_available R 1 (update_server R i (set_capacity 1) s)))
      as (e & He & ->).
    rewrite view_add_available, Hset.
    destruct He as [He | ->]; [rewrite (view_add_neutral _ _ He)|];
      close_inv Hinv Hnn.
  - (* Granted *)
    unfold resume, process_request_granted. run_body;
      split_pairs;
      rewrite ?view_schedule, ?view_release, ?view_with_rng; cbn [is_stale];
      close_inv Hinv Hnn.
  - (* Done *)
    unfold resume, process_request_done. run_body;
      split_pairs.
    rewrite view_schedule, view_release, view_record_completion.
    cbn [is_stale]. close_inv Hinv Hnn.
  - (* Released *)
    rewrite view_trigger_put. close_inv Hinv Hnn.
  - close_inv Hinv Hnn.
  - close_inv Hinv Hnn.
  - close_inv Hinv Hnn.
Qed.

End Preservation.

(** ** The invariant in every reachable state *)

Lemma count_up_filter l :
  count_up l = Z.of_nat (length (List.filter (fun sv => capacity sv =? 1) l)).
Proof.
  unfold count_up. induction l as [|sv l IH]; cbn [sum_over List.filter]; [reflexivity|].
  unfold is_up at 1. destruct (capacity sv =? 1); cbn [indicator length]; lia.
Qed.

Lemma waiting_nonneg l : 0 <= waiting l.
Proof.
  unfold waiting. induction l as [|sv l IH]; cbn [sum_over]; lia.
Qed.

Lemma count_ev_In P q x : In x q -> P (ev x) = true -> 1 <= count_ev P q.
Proof.
  induction q as [|y q IH]; cbn [In count_ev]; [tauto|].
  intros [-> | Hin] HP.
  - rewrite HP. pose proof (count_ev_nonneg P q). cbn [indicator]. lia.
  - pose proof (indicator_range (P (ev y))). specialize (IH Hin HP). lia.
Qed.

Section Invariants.
Context (R : RandomSource) (p : Params).
Implicit Types s : Sim R.

Lemma init_inv g : inv (num_servers p) (view_of (init R p 0 [] 0%nat g)).
Proof.
  unfold init. rewrite !view_schedule. cbn [is_stale].
  unfold view_of. cbn [queue servers total_requests completed_requests
    failed_requests spawned available_servers count_ev].
  rewrite waiting_replicate, count_up_replicate, length_replicate.
  constructor; cbn; lia.
Qed.

Lemma step_inv n s s' :
  inv n (view_of s) -> after_step (step R p s) = Some s' -> inv n (view_of s').
Proof.
  intros Hinv. unfold step.
  destruct (queue R s) as [|x q] eqn:Hq; [discriminate|].
  rewrite (view_pop R s x q Hq) in Hinv.
  change (servers R s)
    with (servers R (with_env R (at_time x) q (next_eid R s) s)) in Hinv.
  apply (fire_inv R p) in Hinv.
  intros Hs'.
  assert (s' = fire R p (ev x) (with_env R (at_time x) q (next_eid R s) s)) as ->
    by (destruct (ev x); cbn [after_step] in Hs'; congruence).
  exact Hinv.
Qed.

Lemma reachable_inv s : reachable R p s -> inv (num_servers p) (view_of s).
Proof.
  induction 1 as [g s Hc | s d _ IH | s s' _ IH Hstep].
  - unfold construct in Hc. injection Hc as <-. apply init_inv.
  - rewrite view_schedule. cbn [is_stale].
    revert IH. generalize (view_of s). intros v Hinv.
    destruct v, Hinv. constructor; cbn in *; lia.
  - exact (step_inv _ s s' IH Hstep).
Qed.

(** Runs stay within the reachable states. *)
Lemma run_loop_reachable fuel s r s' :
  reachable R p s -> run_loop R p fuel s = Some (r, s') -> reachable R p s'.
Proof.
  revert s. induction fuel as [|fuel IH]; intros s Hs; cbn [run_loop]; [discriminate|].
  destruct (step R p s) as [s1|s1|e s1|] eqn:Hstep; intros H.
  - apply (IH s1); [|exact H].
    apply (reach_step R p s s1 Hs). rewrite Hstep. reflexivity.
  - injection H as <- <-.
    apply (reach_step R p s s1 Hs). rewrite Hstep. reflexivity.
  - injection H as <- <-.
    apply (reach_step R p s s1 Hs). rewrite Hstep. reflexivity.
  - injection H as <- <-. exact Hs.
Qed.

Lemma run_reachable fuel until s r s' :
  reachable R p s -> run R p fuel until s = Some (r, s') -> reachable R p s'.
Proof.
  intros Hs. unfold run. destruct (Qle_bool until (now R s)).
  - intros H. injection H as <- <-. exact Hs.
  - apply run_loop_reachable. apply reach_run, Hs.
Qed.

(** C6: in every reachable state, the snapshot has
    [completed_requests + failed_requests <= total_requests]; more
    precisely every completed or failed request is one of the spawned
    handlers, and the generator has counted every handler it spawned. *)
Theorem terminal_counters_bounded s :
  reachable R p s ->
  m_completed_requests (get_metrics R s) + m_failed_requests (get_metrics R s)
    <= m_total_requests (get_metrics R s) /\
  completed_requests R s + failed_requests R s <= spawned R s /\
  spawned R s <= total_requests R s.
Proof.
  intros Hs. pose proof (reachable_inv s Hs) as Hinv.
  pose proof (view_nonneg R s) as (Hig & Hgw & _).
  pose proof (count_ev_nonneg is_handler (queue R s)) as Hh.
  pose proof (waiting_nonneg (servers R s)) as Hw.
  destruct Hinv as [Hfl Hgen Hfresh Hstarted _ _ _ _ _ _].
  cbn in *. lia.
Qed.

(** *** Handlers spawned

    The spawn count moves with the Initialize events of the handlers: no
    operation but the scheduling of such an event, or the count itself,
    changes the number of handlers started. *)

Lemma started_schedule e prio d s :
  started_handlers (schedule R e prio d s) =
  started_handlers s - indicator (is_init_req e).
Proof.
  unfold started_handlers, schedule. cbn [queue spawned with_env].
  rewrite count_ev_enqueue. cbn [ev]. lia.
Qed.

Lemma started_with_rng g s :
  started_handlers (with_rng R g s) = started_handlers s.
Proof. reflexivity. Qed.

Lemma started_with_servers l s :
  started_handlers (with_servers R l s) = started_handlers s.
Proof. reflexivity. Qed.

Lemma started_with_metrics t c f l a s :
  started_handlers (with_metrics R t c f l a (spawned R s) s) = started_handlers s.
Proof. reflexivity. Qed.

Lemma started_incr_spawned s :
  started_handlers (incr_spawned R s) = started_handlers s + 1.
Proof. unfold started_handlers. cbn. lia. Qed.

Lemma started_trigger_put i s :
  started_handlers (trigger_put R i s) = started_handlers s.
Proof.
  unfold trigger_put.
  destruct (servers R s !! i) as [sv|]; [|reflexivity].
  destruct (put_queue sv); [reflexivity|].
  destruct (_ <? _); [|reflexivity].
  rewrite started_schedule, started_with_servers. cbn. lia.
Qed.

Lemma started_request i h s :
  started_handlers (request R i h s) = started_handlers s.
Proof.
  unfold request. destruct (servers R s !! i) as [sv|]; [|reflexivity].
  now rewrite started_trigger_put, started_with_servers.
Qed.

Lemma started_release i h s :
  started_handlers (release R i h s) = started_handlers s.
Proof.
  unfold release. destruct (servers R s !! i) as [sv|]; [|reflexivity].
  rewrite started_schedule, started_with_servers. cbn. lia.
Qed.

Create Rewrite HintDb started.
#[local] Hint Rewrite started_schedule started_with_rng started_with_servers
  started_with_metrics started_incr_spawned started_trigger_put
  started_request started_release : started.

Lemma resume_started body s :
  (forall r s', body s = (r, s') -> started_handlers s' = started_handlers s) ->
  started_handlers (resume R body s) = started_handlers s.
Proof.
  intros Hb. unfold resume.
  destruct (body s) as [[[]|e] s'] eqn:Hbody;
    rewrite ?started_schedule, (Hb _ s' eq_refl); cbn; lia.
Qed.

Lemma generate_requests_started s r s' :
  generate_requests R p s = (r, s') -> started_handlers s' = started_handlers s.
Proof.
  unfold generate_requests. run_body; intros H; split_pairs;
    unfold incr_total; autorewrite with started; cbn; lia.
Qed.

Lemma server_failures_started s r s' :
  server_failures R p s = (r, s') -> started_handlers s' = started_handlers s.
Proof.
  unfold server_failures. run_body; intros H; split_pairs;
    autorewrite with started; cbn; lia.
Qed.

(** Every event leaves the number of handlers started as it is: the one
    event that spawns a handler schedules its Initialize event and counts
    it. *)
Lemma fire_started e s :
  started_handlers (fire R p e s) = started_handlers s.
Proof.
  destruct e as [| |rid|rid| |i|i h|i h|i| |x|]; cbn [fire];
    try reflexivity; try apply started_trigger_put;
    apply resume_started; intros r s'.
  - apply generate_requests_started.
  - apply server_failures_started.
  - unfold process_request. run_body; intros H; split_pairs;
      unfold incr_failed; autorewrite with started; cbn; lia.
  - unfold generate_requests_wake.
    unfold bind at 1, modify at 1. unfold bind at 1, modify at 1.
    intros H. rewrite (generate_requests_started _ _ _ H).
    autorewrite with started. cbn. lia.
  - intros Hbody.
    destruct (choice_index R (length (servers R s)) (rng R s))
      as [[i|x] g'] eqn:Hc.
    2:{ rewrite (server_failures_wake_raise R p s x g' Hc) in Hbody.
        split_pairs. reflexivity. }
    destruct (servers R s !! i) as [sv|] eqn:Hi.
    2:{ rewrite (server_failures_wake_missing R p s i g' Hc Hi) in Hbody.
        split_pairs. reflexivity. }
    destruct (length (users sv) =? 0)%nat eqn:Hu.
    + rewrite (server_failures_wake_idle R p s i g' sv Hc Hi Hu) in Hbody.
      revert Hbody. run_body; intros H; split_pairs;
        unfold add_available, update_server;
        autorewrite with started; cbn; lia.
    + rewrite (server_failures_wake_busy R p s i g' sv Hc Hi Hu) in Hbody.
      now rewrite (server_failures_started _ _ _ Hbody).
  - unfold server_failures_recovered.
    unfold bind at 1, modify at 1. unfold bind at 1, modify at 1.
    intros H. rewrite (server_failures_started _ _ _ H).
    unfold add_available, update_server. autorewrite with started. reflexivity.
  - unfold process_request_granted. run_body; intros H; split_pairs;
      autorewrite with started; cbn; lia.
  - unfold process_request_done. run_body; intros H; split_pairs;
      unfold record_completion; autorewrite with started; cbn; lia.
Qed.

(** The Initialize events of handlers that have been processed are the
    handlers started. *)
Lemma history_started tr s :
  history R p tr s ->
  Z.of_nat (length (List.filter is_init_req tr)) = started_handlers s.
Proof.
  induction 1 as [g s Hc | tr s d _ IH | tr s x q s' _ IH Hq Hstep].
  - unfold construct in Hc. injection Hc as <-. unfold init.
    rewrite !started_schedule. reflexivity.
  - rewrite started_schedule. cbn. lia.
  - assert (s' = fire R p (ev x) (with_env R (at_time x) q (next_eid R s) s)) as ->.
    { unfold step in Hstep. rewrite Hq in Hstep.
      destruct (ev x); cbn [after_step] in Hstep; congruence. }
    rewrite fire_started, List.filter_app, length_app, Nat2Z.inj_add, IH.
    unfold started_handlers. cbn [spawned queue with_env]. rewrite Hq.
    cbn [count_ev List.filter]. destruct (is_init_req (ev x)); cbn; lia.
Qed.

Lemma reachable_history s : reachable R p s -> exists tr, history R p tr s.
Proof.
  induction 1 as [g s Hc | s d _ [tr IH] | s s' _ [tr IH] Hstep].
  - exists []. exact (hist_construct R p g s Hc).
  - exists tr. exact (hist_run R p tr s d IH).
  - destruct (queue R s) as [|x q] eqn:Hq.
    + unfold step in Hstep. rewrite Hq in Hstep. discriminate.
    + exists (tr ++ [ev x]). exact (hist_step R p tr s x q s' IH Hq Hstep).
Qed.

Lemma history_reachable tr s : history R p tr s -> reachable R p s.
Proof.
  induction 1 as [g s Hc | tr s d _ IH | tr s x q s' _ IH Hq Hstep].
  - exact (reach_construct R p g s Hc).
  - exact (reach_run R p s d IH).
  - exact (reach_step R p s s' IH Hstep).
Qed.

(** C10: whenever the arrival generator is suspended, [total_requests] is
    one more than the number of handlers spawned, that is of the
    Initialize events of [process_request] processes that have been
    processed or are pending; and so
    [completed_requests + failed_requests <= total_requests - 1]. *)
Theorem total_counts_one_ahead s :
  reachable R p s ->
  generator_suspended s ->
  (exists tr, history R p tr s) /\
  (forall tr, history R p tr s ->
              total_requests R s = handlers_spawned tr s + 1) /\
  m_completed_requests (get_metrics R s) + m_failed_requests (get_metrics R s)
    <= m_total_requests (get_metrics R s) - 1.
Proof.
  intros Hs (x & rid & Hin & Hx).
  pose proof (reachable_inv s Hs) as Hinv.
  assert (1 <= count_ev is_gen_wake (queue R s)) as Hone
    by (apply (count_ev_In _ _ x Hin); rewrite Hx; reflexivity).
  pose proof (view_nonneg R s) as (Hig & Hgw & _).
  pose proof (count_ev_nonneg is_handler (queue R s)) as Hh.
  pose proof (waiting_nonneg (servers R s)) as Hw.
  destruct Hinv as [Hfl Hgen Hfresh Hstarted _ _ _ _ _ _].
  split; [exact (reachable_history s Hs)|]. split.
  - intros tr Htr. pose proof (history_started tr s Htr) as Hst.
    unfold handlers_spawned, started_handlers in *. cbn in *. lia.
  - cbn in *. lia.
Qed.

(** C9: for a configuration with a non-negative [num_servers], in every
    reachable state [available_servers] is the number of servers that are
    up, and lies between 0 and [num_servers]. *)
Theorem available_servers_counts_up s :
  0 <= num_servers p ->
  reachable R p s ->
  m_available_servers (get_metrics R s) = servers_up s /\
  0 <= m_available_servers (get_metrics R s) <= num_servers p.
Proof.
  intros Hn Hs. pose proof (reachable_inv s Hs) as Hinv.
  pose proof (count_up_range (servers R s)) as Hr.
  unfold servers_up. rewrite <- count_up_filter.
  destruct Hinv as [_ _ _ _ _ _ _ _ Hav Hsrv].
  cbn in *. lia.
Qed.

End Invariants.

(** ** Failures and busy servers *)

Lemma map_capacity_insert_same (l : list Resource) (j : nat) sv sv' :
  l !! j = Some sv -> capacity sv' = capacity sv ->
  map capacity (<[j := sv']> l) = map capacity l.
Proof.
  revert j. induction l as [|y l IH]; intros [|j] Hj Hc; try discriminate.
  - injection Hj as ->. cbn. now rewrite Hc.
  - cbn in Hj. cbn. f_equal. now apply IH.
Qed.

Lemma map_capacity_alter (l : list Resource) (j : nat) c :
  map capacity (alter (set_capacity c) j l) =
  alter (fun _ => c) j (map capacity l).
Proof.
  revert j. induction l as [|y l IH]; intros [|j]; try reflexivity.
  cbn. f_equal. apply IH.
Qed.

Section Failures.
Context (R : RandomSource) (p : Params).
Implicit Types s : Sim R.

Lemma caps_lookup s i sv :
  servers R s !! i = Some sv -> caps s !! i = Some (capacity sv).
Proof. intros H. unfold caps. now rewrite list_lookup_fmap, H. Qed.

Lemma caps_trigger_put i s : caps (trigger_put R i s) = caps s.
Proof.
  unfold trigger_put.
  destruct (servers R s !! i) as [sv|] eqn:Hi; [|reflexivity].
  destruct (put_queue sv); [reflexivity|].
  destruct (_ <? _); [|reflexivity].
  unfold caps. cbn [servers schedule with_env with_servers].
  now apply (map_capacity_insert_same _ _ sv).
Qed.

Lemma caps_request i h s : caps (request R i h s) = caps s.
Proof.
  unfold request.
  destruct (servers R s !! i) as [sv|] eqn:Hi; [|reflexivity].
  rewrite caps_trigger_put. unfold caps. cbn [servers with_servers].
  now apply (map_capacity_insert_same _ _ sv).
Qed.

Lemma caps_release i h s : caps (release R i h s) = caps s.
Proof.
  unfold release.
  destruct (servers R s !! i) as [sv|] eqn:Hi; [|reflexivity].
  unfold caps. cbn [servers schedule with_env with_servers].
  now apply (map_capacity_insert_same _ _ sv).
Qed.

Lemma caps_schedule e prio d s : caps (schedule R e prio d s) = caps s.
Proof. reflexivity. Qed.

Lemma caps_with_rng g s : caps (with_rng R g s) = caps s.
Proof. reflexivity. Qed.

Lemma caps_with_metrics t c f l a sp s :
  caps (with_metrics R t c f l a sp s) = caps s.
Proof. reflexivity. Qed.

Lemma caps_set_capacity j c s :
  caps (update_server R j (set_capacity c) s) = alter (fun _ => c) j (caps s).
Proof. apply map_capacity_alter. Qed.

Create Rewrite HintDb caps.
#[local] Hint Rewrite caps_schedule caps_with_rng caps_with_metrics
  caps_release caps_request caps_trigger_put : caps.

(** The failure loop, from its head to its [yield], touches neither the
    servers nor the counters. *)
Lemma resume_server_failures_frame s :
  servers R (resume R (server_failures R p) s) = servers R s /\
  get_metrics R (resume R (server_failures R p) s) = get_metrics R s.
Proof.
  unfold resume, server_failures. run_body; split; reflexivity.
Qed.

Lemma resume_generate_requests_caps s :
  caps (resume R (generate_requests R p) s) = caps s.
Proof.
  unfold resume, generate_requests. run_body; reflexivity.
Qed.

(** The events other than the two timeouts of the failure process leave
    every capacity as it is. *)
Lemma fire_caps e s :
  e <> FailWake -> (forall j, e <> RecoverWake j) ->
  caps (fire R p e s) = caps s.
Proof.
  intros Hf Hr.
  destruct e as [| |rid|rid| |i|i h|i h|i| |x|]; cbn [fire];
    try congruence; try (exfalso; eapply Hr; reflexivity); try reflexivity.
  - apply resume_generate_requests_caps.
  - unfold caps. now rewrite (proj1 (resume_server_failures_frame s)).
  - unfold resume, process_request. run_body; unfold_counters; autorewrite with caps; reflexivity.
  - change (resume R (generate_requests_wake R p rid) s)
      with (resume R (generate_requests R p)
              (incr_spawned R (schedule R (InitReq rid) URGENT 0 s))).
    rewrite resume_generate_requests_caps. reflexivity.
  - unfold resume, process_request_granted. run_body;
      split_pairs; unfold_counters; autorewrite with caps; reflexivity.
  - unfold resume, process_request_done. run_body;
      split_pairs; unfold_counters; autorewrite with caps; reflexivity.
  - apply caps_trigger_put.
Qed.

Lemma same_caps_lookup s s' i sv sv' :
  caps s' = caps s ->
  servers R s !! i = Some sv -> servers R s' !! i = Some sv' ->
  capacity sv' = capacity sv.
Proof.
  intros Hc Hi Hi'. apply caps_lookup in Hi, Hi'. rewrite Hc in Hi'. congruence.
Qed.

Lemma altered_caps_lookup s s' j c i sv sv' :
  caps s' = alter (fun _ => c) j (caps s) ->
  servers R s !! i = Some sv -> servers R s' !! i = Some sv' ->
  (i = j /\ capacity sv' = c) \/ (i <> j /\ capacity sv' = capacity sv).
Proof.
  intros Hc Hi Hi'. apply caps_lookup in Hi, Hi'. rewrite Hc in Hi'.
  destruct (decide (i = j)) as [->|Hne].
  - left. split; [reflexivity|].
    rewrite list_lookup_alter_eq, Hi in Hi'. cbn in Hi'. congruence.
  - right. split; [assumption|].
    rewrite list_lookup_alter_ne in Hi' by congruence. congruence.
Qed.

Lemma fire_recover_caps j s :
  caps (fire R p (RecoverWake j) s) = alter (fun _ => 1) j (caps s).
Proof.
  cbn [fire].
  change (resume R (server_failures_recovered R p j) s)
    with (resume R (server_failures R p)
            (add_available R 1 (update_server R j (set_capacity 1) s))).
  unfold caps at 1. rewrite (proj1 (resume_server_failures_frame _)).
  apply caps_set_capacity.
Qed.

Lemma fire_fail_idle_caps s j g' sv :
  choice_index R (length (servers R s)) (rng R s) = (Ok j, g') ->
  servers R s !! j = Some sv ->
  (length (users sv) =? 0)%nat = true ->
  caps (fire R p FailWake s) = alter (fun _ => 0) j (caps s).
Proof.
  intros Hc Hj Hu. cbn [fire]. unfold resume.
  rewrite (server_failures_wake_idle R p s j g' sv Hc Hj Hu).
  run_body;
    split_pairs; unfold_counters; autorewrite with caps; rewrite caps_set_capacity; reflexivity.
Qed.

(** A capacity that goes from 1 to 0 when an event fires. *)
Lemma fire_down_only_idle (e : event) s i sv sv' :
  servers R s !! i = Some sv ->
  servers R (fire R p e s) !! i = Some sv' ->
  capacity sv = 1 -> capacity sv' = 0 ->
  e = FailWake /\ users sv = [].
Proof.
  intros Hi Hi' Hup Hdown.
  assert (forall j, e = RecoverWake j -> False) as Hnr.
  { intros j ->.
    destruct (altered_caps_lookup s _ j 1 i sv sv' (fire_recover_caps j s) Hi Hi')
      as [[_ H] | [_ H]]; lia. }
  assert (e = FailWake) as ->.
  { destruct e; try reflexivity;
      try (exfalso; eapply Hnr; reflexivity);
      (assert (capacity sv' = capacity sv) as H;
       [ eapply same_caps_lookup; [ | exact Hi | exact Hi'];
         apply fire_caps; congruence
       | lia ]). }
  split; [reflexivity|].
  destruct (choice_index R (length (servers R s)) (rng R s))
    as [[j|x] g'] eqn:Hc.
  2:{ exfalso. cbn [fire] in Hi'. unfold resume in Hi'.
      rewrite (server_failures_wake_raise R p s x g' Hc) in Hi'.
      cbn [servers schedule with_env with_rng] in Hi'. rewrite Hi in Hi'.
      injection Hi' as <-. lia. }
  destruct (servers R s !! j) as [svj|] eqn:Hj.
  2:{ exfalso. cbn [fire] in Hi'. unfold resume in Hi'.
      rewrite (server_failures_wake_missing R p s j g' Hc Hj) in Hi'.
      cbn [servers schedule with_env with_rng] in Hi'. rewrite Hi in Hi'.
      injection Hi' as <-. lia. }
  destruct (length (users svj) =? 0)%nat eqn:Hu.
  2:{ exfalso. cbn [fire] in Hi'. unfold resume in Hi'.
      rewrite (server_failures_wake_busy R p s j g' svj Hc Hj Hu) in Hi'.
      pose proof (resume_server_failures_frame (with_rng R g' s)) as [Hs _].
      unfold resume in Hs. rewrite Hs in Hi'.
      cbn [servers with_rng] in Hi'. rewrite Hi in Hi'.
      injection Hi' as <-. lia. }
  destruct (altered_caps_lookup s _ j 0 i sv sv'
              (fire_fail_idle_caps s j g' svj Hc Hj Hu) Hi Hi')
    as [[-> _] | [_ H]]; [|lia].
  rewrite Hj in Hi. injection Hi as ->.
  apply Nat.eqb_eq in Hu. now destruct (users sv).
Qed.

(** C5: in whatever state a step is taken, a server whose capacity goes
    from 1 to 0 in that step had no user, and the step processed the
    failure timeout; and when the server the failure process selects has a
    user, the process goes straight back to the head of its loop: servers
    and counters stay as they are. *)
Theorem failure_only_while_idle s :
  (forall s' i sv sv',
      after_step (step R p s) = Some s' ->
      servers R s !! i = Some sv ->
      servers R s' !! i = Some sv' ->
      capacity sv = 1 -> capacity sv' = 0 ->
      users sv = [] /\ exists x q, queue R s = x :: q /\ ev x = FailWake) /\
  (forall i g' sv,
      choice_index R (length (servers R s)) (rng R s) = (Ok i, g') ->
      servers R s !! i = Some sv ->
      users sv <> [] ->
      fire R p FailWake s = resume R (server_failures R p) (with_rng R g' s) /\
      servers R (fire R p FailWake s) = servers R s /\
      get_metrics R (fire R p FailWake s) = get_metrics R s).
Proof.
  split.
  - intros s' i sv sv' Hstep Hi Hi' Hup Hdown. unfold step in Hstep.
    destruct (queue R s) as [|x q] eqn:Hq; [discriminate|].
    assert (s' = fire R p (ev x) (with_env R (at_time x) q (next_eid R s) s)) as ->
      by (destruct (ev x); cbn [after_step] in Hstep; congruence).
    destruct (fire_down_only_idle (ev x)
                (with_env R (at_time x) q (next_eid R s) s) i sv sv'
                Hi Hi' Hup Hdown) as [Hx Hu].
    split; [exact Hu|]. exists x, q. split; [reflexivity | exact Hx].
  - intros i g' sv Hc Hi Hbusy.
    assert ((length (users sv) =? 0)%nat = false) as Hu.
    { apply Nat.eqb_neq. destruct (users sv); [congruence | cbn; lia]. }
    assert (fire R p FailWake s =
            resume R (server_failures R p) (with_rng R g' s)) as Heq.
    { cbn [fire]. unfold resume.
      rewrite (server_failures_wake_busy R p s i g' sv Hc Hi Hu). reflexivity. }
    rewrite Heq. split; [reflexivity|].
    apply (resume_server_failures_frame (with_rng R g' s)).
Qed.

End Failures.

(** ** The configuration fields the model does not read *)

Section QueueTimeout.
Context (R : RandomSource) (p : Params) (v : option Q).

Lemma fire_queue_timeout e (s : Sim R) :
  fire R (with_queue_timeout v p) e s = fire R p e s.
Proof. destruct e; reflexivity. Qed.

Lemma step_queue_timeout (s : Sim R) :
  step R (with_queue_timeout v p) s = step R p s.
Proof.
  unfold step. destruct (queue R s) as [|x q]; [reflexivity|].
  cbv zeta. rewrite fire_queue_timeout. reflexivity.
Qed.

Lemma run_loop_queue_timeout fuel (s : Sim R) :
  run_loop R (with_queue_timeout v p) fuel s = run_loop R p fuel s.
Proof.
  revert s. induction fuel as [|fuel IH]; intros s; cbn [run_loop]; [reflexivity|].
  rewrite step_queue_timeout. destruct (step R p s); auto.
Qed.

Lemma run_queue_timeout fuel until (s : Sim R) :
  run R (with_queue_timeout v p) fuel until s = run R p fuel until s.
Proof.
  unfold run. destruct (Qle_bool until (now R s)); [reflexivity|].
  apply run_loop_queue_timeout.
Qed.

Lemma run_simulation_queue_timeout fuel simulation_time (g : G R) :
  run_simulation R (with_queue_timeout v p) fuel simulation_time g =
  run_simulation R p fuel simulation_time g.
Proof.
  unfold run_simulation.
  change (construct R (with_queue_timeout v p) g) with (construct R p g).
  destruct (construct R p g); [|reflexivity].
  rewrite run_queue_timeout. reflexivity.
Qed.

End QueueTimeout.

(** ** Reproducibility *)

Section Fuel.
Context (R : RandomSource) (p : Params).

Lemma run_loop_more_fuel fuel fuel' (s : Sim R) r :
  (fuel <= fuel')%nat ->
  run_loop R p fuel s = Some r -> run_loop R p fuel' s = Some r.
Proof.
  revert fuel' s. induction fuel as [|fuel IH]; intros fuel' s Hle; [discriminate|].
  destruct fuel' as [|fuel']; [lia|]. cbn [run_loop].
  destruct (step R p s); auto. apply IH. lia.
Qed.

Lemma run_loop_fuel_irrelevant fuel1 fuel2 (s : Sim R) r1 r2 :
  run_loop R p fuel1 s = Some r1 -> run_loop R p fuel2 s = Some r2 -> r1 = r2.
Proof.
  intros H1 H2.
  apply (run_loop_more_fuel fuel1 (Nat.max fuel1 fuel2)) in H1; [|lia].
  apply (run_loop_more_fuel fuel2 (Nat.max fuel1 fuel2)) in H2; [|lia].
  congruence.
Qed.

Lemma run_fuel_irrelevant fuel1 fuel2 until (s : Sim R) r1 r2 :
  run R p fuel1 until s = Some r1 -> run R p fuel2 until s = Some r2 -> r1 = r2.
Proof.
  unfold run. destruct (Qle_bool until (now R s)); [congruence|].
  apply run_loop_fuel_irrelevant.
Qed.

(** C4, as the code has it: the model takes no seed; two runs of the same
    configuration, started from the same state of the [random] module's
    generator and advanced to the same horizon, return the same snapshot
    (and leave the generator in the same state), however many steps each
    is allowed. *)
Theorem same_generator_state_same_snapshot fuel1 fuel2 simulation_time g r1 r2 :
  run_simulation R p fuel1 simulation_time g = Some r1 ->
  run_simulation R p fuel2 simulation_time g = Some r2 ->
  r1 = r2.
Proof.
  unfold run_simulation. destruct (construct R p g) as [model|e]; [|congruence].
  destruct (run R p fuel1 simulation_time model) as [o1|] eqn:H1; [|discriminate].
  destruct (run R p fuel2 simulation_time model) as [o2|] eqn:H2;
    [|destruct o1 as [[]]; discriminate].
  rewrite (run_fuel_irrelevant _ _ _ _ _ _ H1 H2). congruence.
Qed.

End Fuel.

(** ** Construction *)

(** C2, as the code has it: construction checks nothing.  For every
    configuration it returns a model with [max(0, num_servers)] servers, all
    up and idle, zeroed counters, [available_servers = num_servers], and the
    two processes waiting to start. *)
Theorem construct_never_raises (R : RandomSource) (p : Params) (g : G R) :
  exists s,
    construct R p g = Ok s /\
    servers R s =
      replicate (Z.to_nat (num_servers p))
        {| capacity := 1; users := []; put_queue := [] |} /\
    total_requests R s = 0 /\ completed_requests R s = 0 /\
    failed_requests R s = 0 /\ latency R s = [] /\
    available_servers R s = num_servers p /\
    map ev (queue R s) = [InitGen; InitFail] /\
    rng R s = g.
Proof.
  eexists. split; [reflexivity|]. repeat split; reflexivity.
Qed.

(** ** Scenarios on the scripted generator *)

(** Counterexample to C2: a configuration that is invalid in every way the
    claim lists is accepted, and the caller gets a model it can take
    metrics from. *)
Lemma construct_accepts_invalid_config :
  ~ valid_config invalid_params /\
  exists s,
    construct Tape invalid_params [] = Ok s /\
    servers Tape s = [] /\
    get_metrics Tape s =
      {| m_total_requests := 0; m_completed_requests := 0;
         m_failed_requests := 0; m_avg_latency := 0;
         m_available_servers := 0 |}.
Proof.
  split.
  - intros (Hn & _). cbn in Hn. lia.
  - eexists. split; [reflexivity|]. split; reflexivity.
Qed.

(** What the scan of [process_request] selects: the first server without a
    user, whatever its capacity; a request is rejected exactly when every
    server has a user. *)
Lemma process_request_scan (R : RandomSource) (rid : Z) (s : Sim R) :
  match list_find (fun sv => length (users sv) = 0%nat) (servers R s) with
  | Some (i, sv) =>
      process_request R rid s =
        (Ok Yielded,
         request R i {| request_id := rid; arrival_time := now R s |} s) /\
      servers R s !! i = Some sv /\ users sv = [] /\
      (forall j sv', servers R s !! j = Some sv' -> (j < i)%nat -> users sv' <> [])
  | None =>
      process_request R rid s = (Ok Returned, incr_failed R s) /\
      (forall j sv', servers R s !! j = Some sv' -> users sv' <> [])
  end.
Proof.
  destruct (list_find _ (servers R s)) as [[i sv]|] eqn:Hfind.
  - unfold process_request, bind, gets, modify, ret. rewrite Hfind.
    apply list_find_Some in Hfind as (Hi & Hu & Hfirst).
    repeat split; try assumption.
    + now destruct (users sv).
    + intros j sv' Hj Hlt Hnil. apply (Hfirst j sv' Hj Hlt). now rewrite Hnil.
  - unfold process_request, bind, gets, modify, ret. rewrite Hfind.
    split; [reflexivity|].
    apply list_find_None in Hfind. intros j sv' Hj Hnil.
    rewrite Forall_lookup in Hfind. apply (Hfind j sv' Hj). now rewrite Hnil.
Qed.

(** C1: at time 3 of the outage scenario, [servers[0]] is down and
    [servers[1]] is up and idle, yet the request that arrived at time 2
    chose [servers[0]]: it sits in that server's put queue, neither
    completed nor rejected. *)
Theorem request_selects_down_server :
  exists s,
    run Tape outage_params 20 3 (init Tape outage_params 0 [] 0%nat outage_tape)
      = Some (Ok tt, s) /\
    map capacity (servers Tape s) = [0; 1] /\
    map users (servers Tape s) = [[]; []] /\
    map (fun sv => map request_id (put_queue sv)) (servers Tape s) = [[1]; []] /\
    spawned Tape s = 1 /\
    completed_requests Tape s = 0 /\ failed_requests Tape s = 0.
Proof.
  eexists. split; [vm_compute; reflexivity|]. repeat split; reflexivity.
Qed.

(** What becomes of a request when the first server without a user is
    down: it joins that server's put queue and nothing else happens. *)
Lemma request_at_down_server (R : RandomSource) p rid (s : Sim R) i sv :
  list_find (fun sv => length (users sv) = 0%nat) (servers R s) = Some (i, sv) ->
  capacity sv = 0 ->
  fire R p (InitReq rid) s =
  with_servers R
    (<[i := {| capacity := 0; users := [];
               put_queue := put_queue sv ++
                            [{| request_id := rid; arrival_time := now R s |}] |}]>
       (servers R s)) s.
Proof.
  intros Hfind Hcap.
  pose proof (process_request_scan R rid s) as Hscan. rewrite Hfind in Hscan.
  destruct Hscan as (Hbody & Hi & Hu & _).
  cbn [fire]. unfold resume. rewrite Hbody. unfold request. rewrite Hi.
  rewrite Hcap, Hu. unfold trigger_put. cbn [servers with_servers].
  rewrite list_lookup_insert_eq by (apply lookup_lt_Some in Hi; exact Hi).
  cbn [put_queue users capacity length].
  destruct (put_queue sv ++ _); reflexivity.
Qed.

(** C7: [queue_timeout] is never read: any two values of it give the same
    model, the same run from every state and the same [run_simulation].
    But a request that finds no available server is not always rejected:
    the scan looks at [users] only, so when the first server without a user
    is down the request is not counted as failed, no event is scheduled for
    it, and it waits in that server's put queue, under no timeout.  In the
    lone-server scenario the server fails at time 1 and the requests that
    arrive at times 2, 4, 6 and 8 are all still waiting at time 10, with a
    [queue_timeout] of 5 and no server available. *)
Theorem request_waits_past_queue_timeout :
  (forall (R : RandomSource) p v,
      (forall g, construct R (with_queue_timeout v p) g = construct R p g) /\
      (forall fuel until (s : Sim R),
          run R (with_queue_timeout v p) fuel until s = run R p fuel until s) /\
      (forall fuel simulation_time (g : G R),
          run_simulation R (with_queue_timeout v p) fuel simulation_time g =
          run_simulation R p fuel simulation_time g)) /\
  (forall (R : RandomSource) p rid (s : Sim R) i sv,
      list_find (fun sv => length (users sv) = 0%nat) (servers R s) = Some (i, sv) ->
      capacity sv = 0 ->
      failed_requests R (fire R p (InitReq rid) s) = failed_requests R s /\
      queue R (fire R p (InitReq rid) s) = queue R s /\
      (exists sv',
          servers R (fire R p (InitReq rid) s) !! i = Some sv' /\
          capacity sv' = 0 /\ users sv' = [] /\
          put_queue sv' =
            put_queue sv ++ [{| request_id := rid; arrival_time := now R s |}])) /\
  exists s,
    run Tape lone_params 40 10 (init Tape lone_params 0 [] 0%nat lone_tape)
      = Some (Ok tt, s) /\
    queue_timeout lone_params = Some 5%Q /\
    m_available_servers (get_metrics Tape s) = 0 /\
    map capacity (servers Tape s) = [0] /\
    map users (servers Tape s) = [[]] /\
    map (fun sv => map request_id (put_queue sv)) (servers Tape s)
      = [[1; 2; 3; 4]] /\
    map (fun sv => map (fun h => Qred (arrival_time h)) (put_queue sv))
        (servers Tape s)
      = [[2; 4; 6; 8]%Q] /\
    m_total_requests (get_metrics Tape s) = 5 /\
    m_completed_requests (get_metrics Tape s) = 0 /\
    m_failed_requests (get_metrics Tape s) = 0.
Proof.
  split; [|split].
  - intros R p v. split; [reflexivity|]. split.
    + apply run_queue_timeout.
    + apply run_simulation_queue_timeout.
  - intros R p rid s i sv Hfind Hcap.
    rewrite (request_at_down_server R p rid s i sv Hfind Hcap).
    cbn [failed_requests queue servers with_servers].
    split; [reflexivity|]. split; [reflexivity|].
    eexists. split.
    + apply list_lookup_insert_eq.
      apply list_find_Some in Hfind as (Hi & _). exact (lookup_lt_Some _ _ _ Hi).
    + repeat split.
  - eexists. split; [vm_compute; reflexivity|]. repeat split; reflexivity.
Qed.

Lemma request_waits_past_queue_timeout_witness :
  (list_find (fun sv => length (users sv) = 0%nat) (servers Tape lone_state)
     = Some (0%nat, lone_server) /\
   capacity lone_server = 0) /\
  (failed_requests Tape (fire Tape lone_params (InitReq 2) lone_state)
     = failed_requests Tape lone_state /\
   queue Tape (fire Tape lone_params (InitReq 2) lone_state)
     = queue Tape lone_state /\
   exists sv',
     servers Tape (fire Tape lone_params (InitReq 2) lone_state) !! 0%nat
       = Some sv' /\
     capacity sv' = 0 /\ users sv' = [] /\
     put_queue sv' =
       put_queue lone_server ++
       [{| request_id := 2; arrival_time := now Tape lone_state |}]).
Proof.
  assert (list_find (fun sv => length (users sv) = 0%nat) (servers Tape lone_state)
          = Some (0%nat, lone_server)) as Hfind by (vm_compute; reflexivity).
  split; [split; [exact Hfind | reflexivity]|].
  apply (proj1 (proj2 request_waits_past_queue_timeout)
           Tape lone_params 2 lone_state 0%nat lone_server);
    [exact Hfind | reflexivity].
Defined.

(** Counterexample to C4: [run_simulation] twice in a row in one process,
    same configuration, same horizon.  The second run starts from the
    generator state the first one left, and returns another snapshot. *)
Lemma same_config_different_snapshots :
  exists m1 g1 m2 g2,
    run_simulation Tape example_params 40 3 [8; 40]%nat = Some (Ok m1, g1) /\
    run_simulation Tape example_params 40 3 g1 = Some (Ok m2, g2) /\
    m1 <> m2.
Proof.
  do 4 eexists. split; [vm_compute; reflexivity|].
  split; [vm_compute; reflexivity|]. intros H. discriminate H.
Qed.

(** ** The theorems at concrete inputs *)

Lemma sample_state_reachable : reachable Tape example_params sample_state.
Proof.
  apply (run_reachable Tape example_params 60 5
           (init Tape example_params 0 [] 0%nat sample_tape) (Ok tt)).
  - apply (reach_construct Tape example_params sample_tape). reflexivity.
  - vm_compute. reflexivity.
Qed.

Lemma sample_state_counters :
  total_requests Tape sample_state = 6 /\
  completed_requests Tape sample_state = 4 /\
  spawned Tape sample_state = 5.
Proof. vm_compute. repeat split; reflexivity. Qed.

Lemma sample_state_suspended : generator_suspended sample_state.
Proof.
  exists (hd {| at_time := 0; priority := NORMAL; eid := 0%nat; ev := Until |}
            (queue Tape sample_state)), 6.
  split; [vm_compute; left; reflexivity | vm_compute; reflexivity].
Qed.

Lemma terminal_counters_bounded_witness :
  reachable Tape example_params sample_state /\
  (m_completed_requests (get_metrics Tape sample_state)
   + m_failed_requests (get_metrics Tape sample_state)
     <= m_total_requests (get_metrics Tape sample_state) /\
   completed_requests Tape sample_state + failed_requests Tape sample_state
     <= spawned Tape sample_state /\
   spawned Tape sample_state <= total_requests Tape sample_state).
Proof.
  split; [exact sample_state_reachable|].
  apply (terminal_counters_bounded Tape example_params sample_state).
  exact sample_state_reachable.
Defined.

Lemma total_counts_one_ahead_witness :
  (reachable Tape example_params sample_state /\
   generator_suspended sample_state) /\
  ((exists tr, history Tape example_params tr sample_state) /\
   (forall tr, history Tape example_params tr sample_state ->
               total_requests Tape sample_state =
               handlers_spawned tr sample_state + 1) /\
   m_completed_requests (get_metrics Tape sample_state)
   + m_failed_requests (get_metrics Tape sample_state)
     <= m_total_requests (get_metrics Tape sample_state) - 1).
Proof.
  split; [split; [exact sample_state_reachable | exact sample_state_suspended]|].
  apply (total_counts_one_ahead Tape example_params sample_state).
  - exact sample_state_reachable.
  - exact sample_state_suspended.
Defined.

Lemma outage_state_reachable : reachable Tape outage_params outage_state.
Proof.
  apply (run_reachable Tape outage_params 20 3
           (init Tape outage_params 0 [] 0%nat outage_tape) (Ok tt)).
  - apply (reach_construct Tape outage_params outage_tape). reflexivity.
  - vm_compute. reflexivity.
Qed.

Lemma available_servers_counts_up_witness :
  (0 <= num_servers outage_params /\
   reachable Tape outage_params outage_state) /\
  (m_available_servers (get_metrics Tape outage_state) = servers_up outage_state /\
   0 <= m_available_servers (get_metrics Tape outage_state)
     <= num_servers outage_params).
Proof.
  split; [split; [cbn; lia | exact outage_state_reachable]|].
  apply (available_servers_counts_up Tape outage_params outage_state).
  - cbn. lia.
  - exact outage_state_reachable.
Defined.

Lemma outage_state_available :
  m_available_servers (get_metrics Tape outage_state) = 1.
Proof. vm_compute. reflexivity. Qed.

Lemma failure_only_while_idle_witness :
  (after_step (step Tape example_params (failure_state [1]%nat)) = Some after_failure /\
   servers Tape (failure_state [1]%nat) !! 1%nat = Some idle_server /\
   servers Tape after_failure !! 1%nat = Some (set_capacity 0 idle_server)) /\
  (users idle_server = [] /\
   exists x q, queue Tape (failure_state [1]%nat) = x :: q /\ ev x = FailWake) /\
  (fire Tape example_params FailWake (failure_state [0]%nat) =
     resume Tape (server_failures Tape example_params)
       (with_rng Tape [] (failure_state [0]%nat)) /\
   servers Tape (fire Tape example_params FailWake (failure_state [0]%nat)) =
     servers Tape (failure_state [0]%nat) /\
   get_metrics Tape (fire Tape example_params FailWake (failure_state [0]%nat)) =
     get_metrics Tape (failure_state [0]%nat)).
Proof.
  split; [repeat split; reflexivity|]. split.
  - apply (proj1 (failure_only_while_idle Tape example_params
                    (failure_state [1]%nat))
             after_failure 1%nat idle_server (set_capacity 0 idle_server));
      reflexivity.
  - apply (proj2 (failure_only_while_idle Tape example_params
                    (failure_state [0]%nat))
             0%nat [] busy_server);
      [reflexivity | reflexivity | discriminate].
Defined.

Lemma same_generator_state_same_snapshot_witness :
  (run_simulation Tape example_params 40 3 [8; 40]%nat = Some first_result /\
   run_simulation Tape example_params 60 3 [8; 40]%nat = Some first_result) /\
  first_result = first_result.
Proof.
  split; [split; vm_compute; reflexivity|].
  apply (same_generator_state_same_snapshot Tape example_params 40 60 3
           [8; 40]%nat first_result first_result);
    vm_compute; reflexivity.
Defined.

(** * Further properties of the model *)

(** ** A proof principle for properties that every operation keeps

    A property of the state that survives a draw, each counter update,
    each operation on a server and the scheduling of any event but the stop
    event, with a delay that is not negative, survives every event. *)

Section Closure.
Context (R : RandomSource) (p : Params) (P : Sim R -> Prop).
Context (P_rng : forall g s, P s -> P (with_rng R g s)).
Context (P_total : forall s, P s -> P (incr_total R s)).
Context (P_failed : forall s, P s -> P (incr_failed R s)).
Context (P_completion : forall x s, P s -> P (record_completion R x s)).
Context (P_available : forall d s, P s -> P (add_available R d s)).
Context (P_spawned : forall s, P s -> P (incr_spawned R s)).
Context (P_trigger_put : forall i s, P s -> P (trigger_put R i s)).
Context (P_request : forall i h s, P s -> P (request R i h s)).
Context (P_release : forall i h s, P s -> P (release R i h s)).
Context (P_fail : forall i sv s,
            servers R s !! i = Some sv -> users sv = [] ->
            P s -> P (update_server R i (set_capacity 0) s)).
Context (P_recover : forall i s, P s -> P (update_server R i (set_capacity 1) s)).
Context (P_schedule : forall e prio d s,
            e <> Until -> (0 <= d)%Q -> P s -> P (schedule R e prio d s)).

Create HintDb keep.
#[local] Hint Resolve P_rng P_total P_failed P_completion P_available
  P_spawned P_schedule P_trigger_put P_request P_release P_recover : keep.
#[local] Hint Extern 1 (_ <> Until) => discriminate : keep.
#[local] Hint Extern 1 (0 <= _)%Q => first [assumption | lra] : keep.

Lemma generate_requests_keeps : keeps P (generate_requests R p).
Proof.
  intros s r s' Hs. unfold generate_requests. run_body; intros H;
    split_pairs; auto 20 with keep nocore.
Qed.

Lemma server_failures_keeps : keeps P (server_failures R p).
Proof.
  intros s r s' Hs. unfold server_failures. run_body; intros H;
    split_pairs; auto 20 with keep nocore.
Qed.

Lemma resume_closed body s : keeps P body -> P s -> P (resume R body s).
Proof.
  intros Hb Hs. unfold resume.
  destruct (body s) as [[[]|e] s'] eqn:Hbody;
    pose proof (Hb s _ s' Hs Hbody); auto 20 with keep nocore.
Qed.

Lemma fire_closed e s : P s -> P (fire R p e s).
Proof.
  intros Hs.
  destruct e as [| |rid|rid| |i|i h|i h|i| |x|]; cbn [fire];
    try exact Hs; try (apply P_trigger_put, Hs);
    apply resume_closed; try exact Hs.
  - apply generate_requests_keeps.
  - apply server_failures_keeps.
  - intros s0 r s' H0. unfold process_request. run_body; intros H;
      split_pairs; auto 20 with keep nocore.
  - intros s0 r s' H0. unfold generate_requests_wake.
    unfold bind at 1, modify at 1. unfold bind at 1, modify at 1.
    apply generate_requests_keeps. auto 20 with keep nocore.
  - intros s0 r s' H0 Hbody.
    destruct (choice_index R (length (servers R s0)) (rng R s0))
      as [[i|x] g'] eqn:Hc.
    2:{ rewrite (server_failures_wake_raise R p s0 x g' Hc) in Hbody.
        split_pairs. auto 20 with keep nocore. }
    destruct (servers R s0 !! i) as [sv|] eqn:Hi.
    2:{ rewrite (server_failures_wake_missing R p s0 i g' Hc Hi) in Hbody.
        split_pairs. auto 20 with keep nocore. }
    destruct (length (users sv) =? 0)%nat eqn:Hu.
    + rewrite (server_failures_wake_idle R p s0 i g' sv Hc Hi Hu) in Hbody.
      assert (P (update_server R i (set_capacity 0) (with_rng R g' s0))) as Hdown.
      { apply (P_fail i sv); [exact Hi | | apply P_rng, H0].
        apply Nat.eqb_eq in Hu. now destruct (users sv). }
      revert Hbody. run_body; intros H;
        split_pairs; auto 20 with keep nocore.
    + rewrite (server_failures_wake_busy R p s0 i g' sv Hc Hi Hu) in Hbody.
      apply (server_failures_keeps _ _ _ (P_rng g' s0 H0) Hbody).
  - intros s0 r s' H0. unfold server_failures_recovered.
    unfold bind at 1, modify at 1. unfold bind at 1, modify at 1.
    apply server_failures_keeps. auto 20 with keep nocore.
  - intros s0 r s' H0. unfold process_request_granted. run_body; intros H;
      split_pairs; auto 20 with keep nocore.
  - intros s0 r s' H0. unfold process_request_done. run_body; intros H;
      split_pairs; auto 20 with keep nocore.
Qed.

(** The same, through steps and runs, for a property that does not speak
    of the clock or the event queue. *)
Context (P_env : forall t q n s, P s -> P (with_env R t q n s)).

Lemma step_closed s s' : P s -> after_step (step R p s) = Some s' -> P s'.
Proof.
  intros Hs. unfold step.
  destruct (queue R s) as [|x q]; [discriminate|]. intros Hs'.
  assert (s' = fire R p (ev x) (with_env R (at_time x) q (next_eid R s) s)) as ->
    by (destruct (ev x); cbn [after_step] in Hs'; congruence).
  apply fire_closed, P_env, Hs.
Qed.

Lemma run_loop_closed fuel s r s' :
  P s -> run_loop R p fuel s = Some (r, s') -> P s'.
Proof.
  revert s. induction fuel as [|fuel IH]; intros s Hs; cbn [run_loop]; [discriminate|].
  destruct (step R p s) as [s1|s1|e s1|] eqn:Hstep; intros H.
  - apply (IH s1); [|exact H]. apply (step_closed s s1 Hs). now rewrite Hstep.
  - injection H as <- <-. apply (step_closed s s1 Hs). now rewrite Hstep.
  - injection H as <- <-. apply (step_closed s s1 Hs). now rewrite Hstep.
  - injection H as <- <-. exact Hs.
Qed.

Lemma run_closed fuel until s r s' :
  P s -> run R p fuel until s = Some (r, s') -> P s'.
Proof.
  intros Hs. unfold run. destruct (Qle_bool until (now R s)).
  - intros H. injection H as <- <-. exact Hs.
  - apply run_loop_closed. unfold schedule. apply P_env, Hs.
Qed.

Lemma reachable_closed s :
  (forall g, P (init R p 0 [] 0%nat g)) -> reachable R p s -> P s.
Proof.
  intros Hinit. induction 1 as [g s Hc | s d _ IH | s s' _ IH Hstep].
  - unfold construct in Hc. injection Hc as <-. apply Hinit.
  - unfold schedule. apply P_env, IH.
  - exact (step_closed s s' IH Hstep).
Qed.

End Closure.

(** A property that speaks of neither the servers, the clock nor the event
    queue needs only the draw and the counter updates. *)

Section ClosureCounters.
Context (R : RandomSource) (p : Params) (P : Sim R -> Prop).
Context (P_rng : forall g s, P s -> P (with_rng R g s)).
Context (P_total : forall s, P s -> P (incr_total R s)).
Context (P_failed : forall s, P s -> P (incr_failed R s)).
Context (P_completion : forall x s, P s -> P (record_completion R x s)).
Context (P_available : forall d s, P s -> P (add_available R d s)).
Context (P_spawned : forall s, P s -> P (incr_spawned R s)).
Context (P_servers : forall l s, P s -> P (with_servers R l s)).
Context (P_env : forall t q n s, P s -> P (with_env R t q n s)).

Lemma counters_schedule e prio d s : P s -> P (schedule R e prio d s).
Proof. intros Hs. unfold schedule. apply P_env, Hs. Qed.

Lemma counters_trigger_put i s : P s -> P (trigger_put R i s).
Proof.
  intros Hs. unfold trigger_put.
  destruct (servers R s !! i) as [sv|]; [|exact Hs].
  destruct (put_queue sv); [exact Hs|].
  destruct (_ <? _); [|exact Hs].
  apply counters_schedule, P_servers, Hs.
Qed.

Lemma counters_request i h s : P s -> P (request R i h s).
Proof.
  intros Hs. unfold request.
  destruct (servers R s !! i) as [sv|]; [|exact Hs].
  apply counters_trigger_put, P_servers, Hs.
Qed.

Lemma counters_release i h s : P s -> P (release R i h s).
Proof.
  intros Hs. unfold release.
  destruct (servers R s !! i) as [sv|]; [|exact Hs].
  apply counters_schedule, P_servers, Hs.
Qed.

Lemma counters_run fuel until s r s' :
  P s -> run R p fuel until s = Some (r, s') -> P s'.
Proof.
  apply (run_closed R p P); auto using counters_schedule,
    counters_trigger_put, counters_request, counters_release.
  - intros i sv s0 _ _ H0. apply P_servers, H0.
  - intros i s0 H0. apply P_servers, H0.
Qed.

Lemma counters_reachable s :
  (forall g, P (init R p 0 [] 0%nat g)) -> reachable R p s -> P s.
Proof.
  apply (reachable_closed R p P); auto using counters_schedule,
    counters_trigger_put, counters_request, counters_release.
  - intros i sv s0 _ _ H0. apply P_servers, H0.
  - intros i s0 H0. apply P_servers, H0.
Qed.

End ClosureCounters.

(** A property of the clock and the event queue alone needs only the
    scheduling of events. *)

Section ClosureQueue.
Context (R : RandomSource) (p : Params) (P : Sim R -> Prop).
Context (P_rng : forall g s, P s -> P (with_rng R g s)).
Context (P_metrics : forall t c f l a sp s, P s -> P (with_metrics R t c f l a sp s)).
Context (P_servers : forall l s, P s -> P (with_servers R l s)).
Context (P_schedule : forall e prio d s,
            e <> Until -> (0 <= d)%Q -> P s -> P (schedule R e prio d s)).

Lemma queue_trigger_put i s : P s -> P (trigger_put R i s).
Proof.
  intros Hs. unfold trigger_put.
  destruct (servers R s !! i) as [sv|]; [|exact Hs].
  destruct (put_queue sv); [exact Hs|].
  destruct (_ <? _); [|exact Hs].
  apply P_schedule; [discriminate | lra | apply P_servers, Hs].
Qed.

Lemma queue_request i h s : P s -> P (request R i h s).
Proof.
  intros Hs. unfold request.
  destruct (servers R s !! i) as [sv|]; [|exact Hs].
  apply queue_trigger_put, P_servers, Hs.
Qed.

Lemma queue_release i h s : P s -> P (release R i h s).
Proof.
  intros Hs. unfold release.
  destruct (servers R s !! i) as [sv|]; [|exact Hs].
  apply P_schedule; [discriminate | lra | apply P_servers, Hs].
Qed.

Lemma queue_fire e s : P s -> P (fire R p e s).
Proof.
  apply (fire_closed R p P); auto using queue_trigger_put, queue_request,
    queue_release; unfold incr_total, incr_failed, record_completion,
    add_available, incr_spawned, update_server; auto.
Qed.

End ClosureQueue.

(** ** Latency samples and counters *)

Section Counters.
Context (R : RandomSource) (p : Params).
Implicit Types s : Sim R.

Lemma reachable_samples s :
  reachable R p s -> Z.of_nat (length (latency R s)) = completed_requests R s.
Proof.
  intros Hs.
  eapply (counters_reachable R p
            (fun s0 => Z.of_nat (length (latency R s0)) = completed_requests R s0));
    [.. | exact Hs];
    try (intros; cbn; assumption); try (intros; reflexivity).
  intros x s0 H0. cbn. rewrite length_app. cbn [length]. lia.
Qed.

(** X1: in every reachable state the model holds exactly one latency
    sample per completed request, so [avg_latency] is the mean of
    [completed_requests] samples and is 0 when nothing has completed. *)
Theorem one_sample_per_completion s :
  reachable R p s ->
  Z.of_nat (length (latency R s)) = m_completed_requests (get_metrics R s) /\
  (m_completed_requests (get_metrics R s) = 0 ->
   m_avg_latency (get_metrics R s) = 0%Q) /\
  (m_completed_requests (get_metrics R s) <> 0 ->
   m_avg_latency (get_metrics R s) =
   (py_sum (latency R s)
    / inject_Z (m_completed_requests (get_metrics R s)))%Q).
Proof.
  intros Hs.
  pose proof (reachable_samples s Hs) as Hlen.
  split; [exact Hlen|]. cbn [get_metrics m_completed_requests m_avg_latency].
  rewrite <- Hlen. split.
  - intros H0. destruct (latency R s); [reflexivity | cbn in H0; lia].
  - intros Hne. destruct (latency R s); [cbn in Hne; lia | reflexivity].
Qed.

Lemma run_grew fuel until s r s' :
  run R p fuel until s = Some (r, s') -> grew s s'.
Proof.
  apply (counters_run R p (grew s)); unfold grew.
  - intros g s0 H. exact H.
  - intros s0 (? & ? & ? & ?). cbn. repeat split; try lia; assumption.
  - intros s0 (? & ? & ? & ?). cbn. repeat split; try lia; assumption.
  - intros x s0 (? & ? & ? & new & Hnew). cbn. repeat split; try lia.
    exists (new ++ [x]). rewrite Hnew. now rewrite app_assoc.
  - intros d s0 H. exact H.
  - intros s0 H. exact H.
  - intros l s0 H. exact H.
  - intros t q n s0 H. exact H.
  - repeat split; try lia. exists []. now rewrite app_nil_r.
Qed.

(** X2: over any run, from any state and whether it returns or raises, no
    counter of the model decreases and the latency samples already taken
    stay, in order, at the head of the list. *)
Theorem run_only_grows fuel until s r s' :
  run R p fuel until s = Some (r, s') -> grew s s'.
Proof. apply run_grew. Qed.

Lemma grew_trans s1 s2 s3 : grew s1 s2 -> grew s2 s3 -> grew s1 s3.
Proof.
  intros (? & ? & ? & n1 & Hn1) (? & ? & ? & n2 & Hn2).
  repeat split; try lia. exists (n1 ++ n2). rewrite Hn2, Hn1. now rewrite app_assoc.
Qed.

End Counters.

(** ** Where a run leaves the clock *)

Lemma until_times_enqueue_other x q :
  is_until (ev x) = false -> until_times (enqueue x q) = until_times q.
Proof.
  intros Hx. induction q as [|y q IH]; cbn [enqueue until_times].
  - now rewrite Hx.
  - destruct (before x y); cbn [until_times]; rewrite ?Hx, ?IH; reflexivity.
Qed.

Lemma until_times_enqueue_first x q :
  is_until (ev x) = true -> until_times q = [] ->
  until_times (enqueue x q) = [at_time x].
Proof.
  intros Hx. induction q as [|y q IH]; cbn [enqueue until_times].
  - now rewrite Hx.
  - destruct (is_until (ev y)) eqn:Hy; [discriminate|]. intros Hq.
    destruct (before x y); cbn [until_times]; rewrite ?Hx, ?Hy, ?Hq; auto.
Qed.

Section Clock.
Context (R : RandomSource) (p : Params).
Implicit Types s : Sim R.

(** No event processed during a run schedules a stop event or removes
    one. *)
Lemma fire_until_times e s :
  until_times (queue R (fire R p e s)) = until_times (queue R s).
Proof.
  apply (queue_fire R p
           (fun s' => until_times (queue R s') = until_times (queue R s)));
    try (intros; cbn; assumption); try reflexivity.
  intros e' prio d s0 He' _ H0. unfold schedule. cbn [queue with_env].
  rewrite until_times_enqueue_other; [exact H0|].
  cbn [ev]. now destruct e'.
Qed.

Lemma run_loop_stops fuel s T s' :
  until_times (queue R s) = [T] ->
  run_loop R p fuel s = Some (Ok tt, s') ->
  now R s' = T /\ until_times (queue R s') = [].
Proof.
  revert s. induction fuel as [|fuel IH]; intros s HT; cbn [run_loop]; [discriminate|].
  unfold step. destruct (queue R s) as [|x q] eqn:Hq; [discriminate|].
  cbn [until_times] in HT. cbv zeta.
  pose proof (fire_until_times (ev x)
                (with_env R (at_time x) q (next_eid R s) s)) as Hfire.
  cbn [queue with_env] in Hfire.
  destruct (ev x) eqn:Hx; cbn [is_until] in HT;
    try (intros H; apply (IH _ (eq_trans Hfire HT) H)); try discriminate.
  intros H. injection H as <-. cbn [fire now queue with_env].
  injection HT as -> ->. split; reflexivity.
Qed.

Lemma run_stops fuel until s s' :
  until_times (queue R s) = [] ->
  run R p fuel until s = Some (Ok tt, s') ->
  (now R s < until)%Q /\ (now R s' == until)%Q /\
  until_times (queue R s') = [].
Proof.
  intros Hnone. unfold run.
  destruct (Qle_bool until (now R s)) eqn:Hle; [discriminate|].
  intros Hrun.
  assert (now R s < until)%Q as Hlt.
  { apply Qnot_le_lt. intros H. apply Qle_bool_iff in H. congruence. }
  split; [exact Hlt|].
  destruct (run_loop_stops fuel (schedule R Until URGENT (until - now R s) s)
              (now R s + (until - now R s))%Q s') as [Hnow Hq];
    [| exact Hrun | ].
  - unfold schedule. cbn [queue with_env].
    now rewrite until_times_enqueue_first.
  - split; [rewrite Hnow; ring | exact Hq].
Qed.

(** The model as constructed has no stop event pending. *)
Lemma construct_no_until g s :
  construct R p g = Ok s -> until_times (queue R s) = [].
Proof. intros H. injection H as <-. reflexivity. Qed.

End Clock.

(** ** One request per server *)

Lemma remove_request_length h l :
  (length (remove_request h l) <= length l)%nat.
Proof.
  induction l as [|x l IH]; cbn [remove_request length]; [lia|].
  destruct (request_id x =? request_id h); cbn [length]; lia.
Qed.

Section Exclusion.
Context (R : RandomSource) (p : Params).
Implicit Types s : Sim R.

Lemma trigger_put_exclusive i s :
  Forall exclusive (servers R s) -> Forall exclusive (servers R (trigger_put R i s)).
Proof.
  intros Hs. unfold trigger_put.
  destruct (servers R s !! i) as [sv|] eqn:Hi; [|exact Hs].
  destruct (put_queue sv); [exact Hs|].
  destruct (Z.of_nat (length (users sv)) <? capacity sv) eqn:Hlt; [|exact Hs].
  cbn [servers schedule with_env with_servers].
  apply Forall_insert; [exact Hs|].
  rewrite Forall_lookup in Hs. destruct (Hs i sv Hi) as [Hc Hu].
  apply Z.ltb_lt in Hlt.
  split; cbn [capacity users]; [exact Hc|]. rewrite length_app. cbn [length]. lia.
Qed.

Lemma request_exclusive i h s :
  Forall exclusive (servers R s) -> Forall exclusive (servers R (request R i h s)).
Proof.
  intros Hs. unfold request.
  destruct (servers R s !! i) as [sv|] eqn:Hi; [|exact Hs].
  apply trigger_put_exclusive. cbn [servers with_servers].
  apply Forall_insert; [exact Hs|].
  rewrite Forall_lookup in Hs. exact (Hs i sv Hi).
Qed.

Lemma release_exclusive i h s :
  Forall exclusive (servers R s) -> Forall exclusive (servers R (release R i h s)).
Proof.
  intros Hs. unfold release.
  destruct (servers R s !! i) as [sv|] eqn:Hi; [|exact Hs].
  cbn [servers schedule with_env with_servers].
  apply Forall_insert; [exact Hs|].
  rewrite Forall_lookup in Hs. destruct (Hs i sv Hi) as [Hc Hu].
  pose proof (remove_request_length h (users sv)).
  split; cbn [capacity users]; [exact Hc | lia].
Qed.

Lemma reachable_exclusive s :
  reachable R p s -> Forall exclusive (servers R s).
Proof.
  apply (reachable_closed R p (fun s0 => Forall exclusive (servers R s0)));
    try (intros; cbn; assumption).
  - apply trigger_put_exclusive.
  - apply request_exclusive.
  - apply release_exclusive.
  - intros i sv s0 Hi Hu H0. unfold update_server. cbn [servers with_servers].
    apply Forall_alter; [exact H0|]. intros sv' Hi' _.
    rewrite Hi in Hi'. injection Hi' as <-.
    split; cbn; [lia | rewrite Hu; cbn; lia].
  - intros i s0 H0. unfold update_server. cbn [servers with_servers].
    apply Forall_alter; [exact H0|]. intros sv' _ [Hc Hu].
    split; cbn; lia.
  - intros g. unfold init. cbn [servers schedule with_env].
    apply Forall_replicate. split; cbn; lia.
Qed.

(** X4: in every reachable state each server has at most one user, a server
    that is out of service has none, and no capacity is anything but 0
    or 1. *)
Theorem one_user_per_server s i sv :
  reachable R p s ->
  servers R s !! i = Some sv ->
  (length (users sv) <= 1)%nat /\
  (capacity sv = 0 \/ capacity sv = 1) /\
  (users sv <> [] -> capacity sv = 1).
Proof.
  intros Hs Hi. pose proof (reachable_exclusive s Hs) as Hall.
  rewrite Forall_lookup in Hall. destruct (Hall i sv Hi) as [Hc Hu].
  repeat split; try lia.
  intros Hne. destruct (users sv); [congruence | cbn in Hu; lia].
Qed.

End Exclusion.

(** ** One failure at a time *)

Lemma count_up_caps l : count_up l = count_caps (map capacity l).
Proof.
  unfold count_up. induction l as [|sv l IH]; cbn [sum_over map count_caps];
    [reflexivity|]. now rewrite IH.
Qed.

Lemma count_caps_alter_down (j : nat) (l : list Z) :
  count_caps l - 1 <= count_caps (alter (fun _ => 0) j l).
Proof.
  revert j. induction l as [|c l IH]; intros [|j]; cbn [alter list_alter count_caps];
    try lia.
  - pose proof (indicator_range (c =? 1)). cbn. lia.
  - specialize (IH j). cbn [alter] in IH. lia.
Qed.

Lemma count_caps_alter_up (j : nat) (l : list Z) :
  count_caps l <= count_caps (alter (fun _ => 1) j l).
Proof.
  revert j. induction l as [|c l IH]; intros [|j]; cbn [alter list_alter count_caps];
    try lia.
  - pose proof (indicator_range (c =? 1)). cbn. lia.
  - specialize (IH j). cbn [alter] in IH. lia.
Qed.

Section OneFailure.
Context (R : RandomSource) (p : Params).
Implicit Types s : Sim R.

Lemma fire_fail_caps s :
  caps (fire R p FailWake s) = caps s \/
  exists j, caps (fire R p FailWake s) = alter (fun _ => 0) j (caps s).
Proof.
  destruct (choice_index R (length (servers R s)) (rng R s))
    as [[j|x] g'] eqn:Hc.
  2:{ left. cbn [fire]. unfold resume.
      now rewrite (server_failures_wake_raise R p s x g' Hc). }
  destruct (servers R s !! j) as [sv|] eqn:Hj.
  2:{ left. cbn [fire]. unfold resume.
      now rewrite (server_failures_wake_missing R p s j g' Hc Hj). }
  destruct (length (users sv) =? 0)%nat eqn:Hu.
  - right. exists j. exact (fire_fail_idle_caps R p s j g' sv Hc Hj Hu).
  - left. cbn [fire]. unfold resume.
    rewrite (server_failures_wake_busy R p s j g' sv Hc Hj Hu).
    pose proof (resume_server_failures_frame R p (with_rng R g' s)) as [Hs _].
    unfold resume in Hs. unfold caps. now rewrite Hs.
Qed.

Lemma reachable_one_down s :
  reachable R p s ->
  Z.of_nat (length (servers R s)) - 1 <= count_up (servers R s).
Proof.
  induction 1 as [g s Hc | s d _ IH | s s' Hreach IH Hstep].
  - unfold construct in Hc. injection Hc as <-.
    unfold init. cbn [servers schedule with_env].
    rewrite count_up_replicate, length_replicate. lia.
  - exact IH.
  - pose proof (reachable_inv R p s Hreach) as Hinv.
    unfold step in Hstep.
    destruct (queue R s) as [|x q] eqn:Hq; [discriminate|].
    rewrite (view_pop R s x q Hq) in Hinv.
    set (s0 := with_env R (at_time x) q (next_eid R s) s) in *.
    assert (s' = fire R p (ev x) s0) as ->
      by (destruct (ev x); cbn [after_step] in Hstep; congruence).
    change (servers R s) with (servers R s0) in IH.
    pose proof (view_nonneg R s0) as Hnn.
    rewrite !count_up_caps in *.
    replace (length (servers R (fire R p (ev x) s0)))
      with (length (caps (fire R p (ev x) s0)))
      by (unfold caps; apply length_map).
    replace (length (servers R s0)) with (length (caps s0)) in IH
      by (unfold caps; apply length_map).
    fold (caps s0) in IH. fold (caps (fire R p (ev x) s0)).
    destruct (ev x) as [| |rid|rid| |i|i h|i h|i| |e|] eqn:Hx;
      try (rewrite fire_caps by congruence; exact IH).
    + assert (count_caps (caps s0) = Z.of_nat (length (caps s0))) as Hfull.
      { destruct Hinv as [_ _ _ _ Hf Hall _ _ _ _], Hnn as (_ & _ & Hfi & Hrec & _).
        cbn in Hf, Hall, Hfi, Hrec. unfold caps.
        rewrite <- count_up_caps, length_map. apply Hall. lia. }
      destruct (fire_fail_caps s0) as [-> | [j ->]]; [exact IH|].
      pose proof (count_caps_alter_down j (caps s0)).
      rewrite length_alter. lia.
    + rewrite fire_recover_caps.
      pose proof (count_caps_alter_up i (caps s0)).
      rewrite length_alter. lia.
Qed.

(** X5: the failure process waits for the recovery of the server it took
    down before it draws the next failure, so at most one server is out of
    service at any time: with a non-negative [num_servers],
    [available_servers] is [num_servers] or [num_servers - 1]. *)
Theorem at_most_one_server_down s :
  0 <= num_servers p ->
  reachable R p s ->
  Z.of_nat (length (servers R s)) - servers_up s <= 1 /\
  num_servers p - 1 <= m_available_servers (get_metrics R s) <= num_servers p.
Proof.
  intros Hn Hs. pose proof (reachable_inv R p s Hs) as Hinv.
  pose proof (reachable_one_down s Hs) as Hone.
  pose proof (count_up_range (servers R s)) as Hr.
  unfold servers_up. rewrite <- count_up_filter.
  destruct Hinv as [_ _ _ _ _ _ _ _ Hav Hsrv].
  cbn in *. lia.
Qed.

End OneFailure.

(** ** Exceptions surface *)

Lemma crash_pending_head c q : is_crash (ev c) = true -> crash_pending (c :: q).
Proof. intros Hc. exists [], c, q. repeat split. exact Hc. Qed.

Lemma crash_pending_cons z q :
  is_until (ev z) = false -> crash_pending q -> crash_pending (z :: q).
Proof.
  intros Hz (l1 & c & l2 & -> & Hc & Hl1).
  exists (z :: l1), c, l2. repeat split; [exact Hc|].
  cbn [until_times]. now rewrite Hz.
Qed.

Lemma crash_pending_enqueue y q :
  is_until (ev y) = false -> crash_pending q -> crash_pending (enqueue y q).
Proof.
  intros Hy (l1 & c & l2 & -> & Hc & Hl1).
  induction l1 as [|z l1 IH]; cbn [app enqueue].
  - destruct (before y c).
    + apply crash_pending_cons; [exact Hy|]. now apply crash_pending_head.
    + now apply crash_pending_head.
  - cbn [until_times] in Hl1.
    destruct (is_until (ev z)) eqn:Hz; [discriminate|].
    destruct (before y z).
    + apply crash_pending_cons; [exact Hy|].
      apply crash_pending_cons; [exact Hz|].
      exists l1, c, l2. repeat split; assumption.
    + apply crash_pending_cons; [exact Hz|]. apply IH, Hl1.
Qed.

(** A crash scheduled ahead of every pending stop event is pending. *)
Lemma crash_lands y q :
  is_crash (ev y) = true ->
  (forall u, In u q -> is_until (ev u) = true -> before y u = true) ->
  crash_pending (enqueue y q).
Proof.
  intros Hy. induction q as [|z q IH]; intros Hq; cbn [enqueue].
  - now apply crash_pending_head.
  - destruct (before y z) eqn:Hb; [now apply crash_pending_head|].
    apply crash_pending_cons.
    + destruct (is_until (ev z)) eqn:Hz; [|reflexivity].
      rewrite (Hq z (or_introl eq_refl) Hz) in Hb. discriminate.
    + apply IH. intros u Hu. apply Hq. now right.
Qed.

Lemma before_earlier (a b : scheduled) :
  (at_time a < at_time b)%Q -> before a b = true.
Proof.
  intros H. unfold before.
  destruct (Qlt_alt (at_time a) (at_time b)) as [HH _]. now rewrite (HH H).
Qed.

Lemma before_false_le_time (a b : scheduled) :
  (at_time b < at_time a)%Q -> before a b = false.
Proof.
  intros H. unfold before.
  destruct (Qcompare_spec (at_time a) (at_time b)) as [H'|H'|H'];
    [lra | lra | reflexivity].
Qed.

Lemma before_later_normal (a b : scheduled) :
  (at_time b <= at_time a)%Q -> priority a = NORMAL -> priority b = URGENT ->
  before a b = false.
Proof.
  intros H Ha Hb. unfold before. rewrite Ha, Hb.
  destruct (at_time a ?= at_time b)%Q eqn:Hc; try reflexivity.
  destruct (Qlt_alt (at_time a) (at_time b)) as [_ HH]. specialize (HH Hc). lra.
Qed.

Section Crashes.
Context (R : RandomSource) (p : Params).
Implicit Types s : Sim R.

Lemma fire_crash_pending e s :
  crash_pending (queue R s) -> crash_pending (queue R (fire R p e s)).
Proof.
  apply (queue_fire R p (fun s' => crash_pending (queue R s')));
    try (intros; cbn; assumption).
  intros e' prio d s0 He' _ H0. unfold schedule. cbn [queue with_env].
  apply crash_pending_enqueue; [|exact H0]. cbn [ev]. now destruct e'.
Qed.

(** Once the event of a crashed process is pending ahead of the stop event,
    the run does not return: it raises (that exception or one that is
    processed earlier). *)
Lemma run_loop_crash_pending fuel s r s' :
  crash_pending (queue R s) ->
  run_loop R p fuel s = Some (r, s') -> exists e, r = Raise e.
Proof.
  revert s. induction fuel as [|fuel IH]; intros s Hs; cbn [run_loop]; [discriminate|].
  unfold step. destruct (queue R s) as [|x q] eqn:Hq.
  { intros H. injection H as <- <-. eauto. }
  cbv zeta.
  assert (is_until (ev x) = false /\
          (is_crash (ev x) = false -> crash_pending q)) as [Hx Hrest].
  { destruct Hs as (l1 & c & l2 & Heq & Hc & Hl1).
    destruct l1 as [|z l1]; cbn [app] in Heq; injection Heq as -> ->.
    - split; [now destruct (ev c) | intros H; congruence].
    - cbn [until_times] in Hl1.
      destruct (is_until (ev z)) eqn:Hz; [discriminate|].
      split; [reflexivity|]. intros _. exists l1, c, l2. repeat split; assumption. }
  pose proof (fire_crash_pending (ev x)
                (with_env R (at_time x) q (next_eid R s) s)) as Hfire.
  cbn [queue with_env] in Hfire.
  destruct (ev x) eqn:Hev; cbn [is_until is_crash] in Hx, Hrest;
    try discriminate;
    try (intros H; apply (IH _ (Hfire (Hrest eq_refl)) H)).
  intros H. injection H as <- <-. eauto.
Qed.

(** The arrival generator, from the head of its loop: it is resumed by one
    new event, normal in priority and due no earlier than now. *)
Lemma resume_generate_requests_queue s :
  exists y,
    queue R (resume R (generate_requests R p) s) = enqueue y (queue R s) /\
    is_until (ev y) = false /\ priority y = NORMAL /\
    (now R s <= at_time y)%Q.
Proof.
  unfold resume, generate_requests. run_body; split_pairs;
    cbn [queue schedule with_env with_rng incr_total with_metrics now];
    eexists; (split; [reflexivity|]); cbn [ev priority at_time];
    repeat split; lra.
Qed.

Lemma rate_kwargs_zero rate :
  Qeq_bool rate 0 = true -> rate_kwargs rate = Raise ZeroDivisionError.
Proof. intros H. unfold rate_kwargs, py_div. now rewrite H. Qed.

Lemma resume_generate_requests_crash s :
  Qeq_bool (request_rate p) 0 = true ->
  queue R (resume R (generate_requests R p) s) =
  enqueue {| at_time := (now R s + 0)%Q; priority := NORMAL;
             eid := next_eid R s; ev := Crash ZeroDivisionError |} (queue R s).
Proof.
  intros H. unfold resume, generate_requests, bind, modify, gets, lift.
  rewrite (rate_kwargs_zero _ H). reflexivity.
Qed.

Lemma resume_server_failures_crash s :
  Qeq_bool (failure_rate p) 0 = true ->
  queue R (resume R (server_failures R p) s) =
  enqueue {| at_time := (now R s + 0)%Q; priority := NORMAL;
             eid := next_eid R s; ev := Crash ZeroDivisionError |} (queue R s).
Proof.
  intros H. unfold resume, server_failures, bind, lift.
  rewrite (rate_kwargs_zero _ H). reflexivity.
Qed.

(** The first run of a model with a zero rate never returns. *)
Lemma run_zero_rate fuel simulation_time g r s' :
  Qeq_bool (request_rate p) 0 = true \/ Qeq_bool (failure_rate p) 0 = true ->
  run R p fuel simulation_time (init R p 0 [] 0%nat g) = Some (r, s') ->
  exists e, r = Raise e.
Proof.
  intros Hzero. unfold run.
  set (s0 := init R p 0 [] 0%nat g).
  destruct (Qle_bool simulation_time (now R s0)) eqn:Hle.
  { intros H. injection H as <- <-. eauto. }
  assert (0 < simulation_time)%Q as Ht.
  { apply Qnot_le_lt. intros H. apply Qle_bool_iff in H.
    change (now R s0) with 0%Q in Hle. congruence. }
  revert s'.
  enough (forall r0 s', run_loop R p fuel
            (schedule R Until URGENT (simulation_time - now R s0) s0) =
            Some (r0, s') -> exists e, r0 = Raise e) as Hen
    by (intros s' H; exact (Hen _ _ H)).
  intros r0 s'.
  set (u := {| at_time := (0 + (simulation_time - 0))%Q; priority := URGENT;
               eid := 2%nat; ev := Until |}).
  set (b := {| at_time := (0 + 0)%Q; priority := URGENT; eid := 1%nat;
               ev := InitFail |}).
  assert (forall c, at_time c = (0 + 0 + 0)%Q -> before c u = true) as Hcu.
  { intros c Hc. apply before_earlier. rewrite Hc. cbn [at_time u]. lra. }
  assert (schedule R Until URGENT (simulation_time - now R s0) s0 =
          with_env R 0 [{| at_time := (0 + 0)%Q; priority := URGENT;
                           eid := 0%nat; ev := InitGen |}; b; u] 3%nat s0) as ->.
  { unfold schedule, s0, init. cbn [now queue next_eid schedule with_env enqueue].
    assert (forall a, at_time a = (0 + 0)%Q -> priority a = URGENT ->
                      (eid a <? 2)%nat = true ->
                      before {| at_time := (0 + (simulation_time - 0))%Q;
                                priority := URGENT; eid := 2%nat; ev := Until |} a
                      = false) as Hu.
    { intros a Ha Hp He. unfold before. cbn [at_time priority eid]. rewrite Ha, Hp.
      destruct (_ ?= _)%Q eqn:Hc; try reflexivity.
      - destruct (Qeq_alt (0 + (simulation_time - 0)) (0 + 0)) as [_ HH].
        specialize (HH Hc). lra.
      - destruct (Qlt_alt (0 + (simulation_time - 0)) (0 + 0)) as [_ HH].
        specialize (HH Hc). lra. }
    match goal with |- context [if ?c then _ else _] => change c with false end.
    cbn [enqueue]. rewrite !Hu by reflexivity. reflexivity. }
  destruct fuel as [|fuel]; [discriminate|]. cbn [run_loop].
  unfold step. cbn [queue with_env ev at_time next_eid fire]. cbv zeta.
  set (s1 := with_env R (0 + 0) [b; u] 3%nat _).
  destruct Hzero as [Hreq | Hfail].
  - (* the generator raises at once *)
    apply run_loop_crash_pending.
    rewrite (resume_generate_requests_crash _ Hreq).
    apply crash_lands; [reflexivity|].
    cbn [queue s1 with_env now].
    intros x [<- | [<- | []]]; [discriminate|]. intros _. now apply Hcu.
  - (* the generator is resumed by some event; the failure process raises *)
    destruct (resume_generate_requests_queue s1) as (y & Hq & Hy & Hprio & Htime).
    set (s2 := resume R (generate_requests R p) s1) in *.
    cbn [queue now s1 with_env] in Hq, Htime.
    assert (enqueue y [b; u] = b :: enqueue y [u]) as Hb.
    { cbn [enqueue]. rewrite before_later_normal; auto. }
    rewrite Hb in Hq.
    destruct fuel as [|fuel]; [discriminate|]. cbn [run_loop].
    unfold step. rewrite Hq. cbn [ev b at_time fire]. cbv zeta.
    apply run_loop_crash_pending.
    rewrite (resume_server_failures_crash _ Hfail).
    apply crash_lands; [reflexivity|].
    cbn [queue with_env now].
    intros x Hx Hux.
    assert (x = u) as ->.
    { cbn [enqueue] in Hx. destruct (before y u); cbn [In] in Hx;
        destruct Hx as [<- | [<- | []]]; try reflexivity; congruence. }
    now apply Hcu.
Qed.

(** The failure process, from the head of its loop: it schedules one event
    of its own, normal in priority and due no earlier than now, and draws
    the next event id. *)
Lemma resume_server_failures_queue s :
  exists y,
    queue R (resume R (server_failures R p) s) = enqueue y (queue R s) /\
    handler_of (ev y) = None /\ priority y = NORMAL /\
    eid y = next_eid R s /\ (now R s <= at_time y)%Q.
Proof.
  unfold resume, server_failures. run_body; split_pairs;
    cbn [queue schedule with_env with_rng now next_eid];
    eexists; (split; [reflexivity|]); cbn [ev priority at_time eid handler_of];
    repeat split; lra.
Qed.

(** X6: when a server recovers nothing changes but its capacity: the
    requests in its put queue stay there, although the server is up and
    idle again, and the one event scheduled is the failure process's own,
    so no request is granted by the recovery. *)
Theorem recovery_grants_nothing i s :
  servers R (fire R p (RecoverWake i) s) =
    alter (set_capacity 1) i (servers R s) /\
  exists y, queue R (fire R p (RecoverWake i) s) = enqueue y (queue R s) /\
            handler_of (ev y) = None.
Proof.
  cbn [fire].
  change (resume R (server_failures_recovered R p i) s)
    with (resume R (server_failures R p)
            (add_available R 1 (update_server R i (set_capacity 1) s))).
  split.
  - now rewrite (proj1 (resume_server_failures_frame R p _)).
  - destruct (resume_server_failures_queue
                (add_available R 1 (update_server R i (set_capacity 1) s)))
      as (y & Hq & Hy & _).
    exists y. split; [exact Hq | exact Hy].
Qed.

(** X7: with a [request_rate] of zero the exception is the third event
    of the run: the arrival generator raises [ZeroDivisionError] when it is
    started, and any [run_simulation] to a positive horizon raises it. *)
Theorem zero_request_rate_raises fuel simulation_time g :
  Qeq_bool (request_rate p) 0 = true ->
  (0 < simulation_time)%Q -> (3 <= fuel)%nat ->
  exists g', run_simulation R p fuel simulation_time g =
             Some (Raise ZeroDivisionError, g').
Proof.
  intros Hreq Ht Hfuel. unfold run_simulation, construct, run.
  set (s0 := init R p 0 [] 0%nat g).
  assert (Qle_bool simulation_time (now R s0) = false) as ->.
  { destruct (Qle_bool simulation_time (now R s0)) eqn:Hle; [|reflexivity].
    apply Qle_bool_iff in Hle. change (now R s0) with 0%Q in Hle. lra. }
  set (u := {| at_time := (0 + (simulation_time - 0))%Q; priority := URGENT;
               eid := 2%nat; ev := Until |}).
  set (b := {| at_time := (0 + 0)%Q; priority := URGENT; eid := 1%nat;
               ev := InitFail |}).
  set (c := {| at_time := (0 + 0 + 0)%Q; priority := NORMAL; eid := 3%nat;
               ev := Crash ZeroDivisionError |}).
  assert (schedule R Until URGENT (simulation_time - now R s0) s0 =
          with_env R 0 [{| at_time := (0 + 0)%Q; priority := URGENT;
                           eid := 0%nat; ev := InitGen |}; b; u] 3%nat s0) as ->.
  { unfold schedule, s0, init. cbn [now queue next_eid schedule with_env enqueue].
    assert (forall a, at_time a = (0 + 0)%Q -> priority a = URGENT ->
                      (eid a <? 2)%nat = true ->
                      before {| at_time := (0 + (simulation_time - 0))%Q;
                                priority := URGENT; eid := 2%nat; ev := Until |} a
                      = false) as Hu.
    { intros a Ha Hp He. apply before_false_le_time. cbn [at_time]. rewrite Ha. lra. }
    match goal with |- context [if ?c then _ else _] => change c with false end.
    cbn [enqueue]. rewrite !Hu by reflexivity. reflexivity. }
  destruct fuel as [|[|[|fuel]]]; try lia. clear Hfuel.
  (* the generator is started and raises *)
  cbn [run_loop]. unfold step at 1.
  cbn [queue with_env ev at_time next_eid fire]. cbv zeta.
  set (s1 := with_env R (0 + 0) [b; u] 3%nat _).
  assert (queue R (resume R (generate_requests R p) s1) = [b; c; u]) as Hq1.
  { rewrite (resume_generate_requests_crash _ Hreq).
    cbn [queue now next_eid s1 with_env enqueue].
    change (before _ b) with false. cbn iota.
    rewrite before_earlier; [reflexivity|]. unfold u. cbn [at_time]. lra. }
  assert (next_eid R (resume R (generate_requests R p) s1) = 4%nat) as Hn1.
  { unfold resume, generate_requests, bind, modify, gets, lift.
    rewrite (rate_kwargs_zero _ Hreq). reflexivity. }
  assert (now R (resume R (generate_requests R p) s1) = (0 + 0)%Q) as Hnow1.
  { unfold resume, generate_requests, bind, modify, gets, lift.
    rewrite (rate_kwargs_zero _ Hreq). reflexivity. }
  (* the failure process is started: whatever it schedules comes later *)
  unfold step at 1. rewrite Hq1. cbn [ev b at_time fire]. cbv zeta.
  destruct (resume_server_failures_queue
              (with_env R (0 + 0) [c; u]
                 (next_eid R (resume R (generate_requests R p) s1))
                 (resume R (generate_requests R p) s1)))
    as (y & Hq2 & _ & Hprio & Heid & Htime).
  cbn [queue now next_eid with_env] in Hq2, Heid, Htime. rewrite Hn1 in Heid.
  assert (enqueue y [c; u] = c :: enqueue y [u]) as Hc.
  { cbn [enqueue]. replace (before y c) with false; [reflexivity|].
    symmetry. unfold before. rewrite Hprio, Heid. cbn [priority eid at_time c].
    destruct (Qcompare_spec (at_time y) (0 + 0 + 0)) as [H|H|H];
      [reflexivity | lra | reflexivity]. }
  rewrite Hc in Hq2.
  (* the crash is processed *)
  unfold step. rewrite Hq2. cbn [ev c]. eauto.
Qed.

(** X8: with a [request_rate] or a [failure_rate] of zero (the failure
    slider of [app.py] starts at 0.0) the reciprocal raises in the first
    stretch of a process, and no [run_simulation] returns metrics: if it
    returns at all, it raises. *)
Theorem zero_rate_never_completes fuel simulation_time g r g' :
  Qeq_bool (request_rate p) 0 = true \/ Qeq_bool (failure_rate p) 0 = true ->
  run_simulation R p fuel simulation_time g = Some (r, g') ->
  exists e, r = Raise e.
Proof.
  intros Hzero. unfold run_simulation, construct.
  destruct (run R p fuel simulation_time _) as [[r0 s']|] eqn:Hrun; [|discriminate].
  destruct (run_zero_rate _ _ _ _ _ Hzero Hrun) as [e ->].
  intros [= <- _]. eauto.
Qed.

End Crashes.

(** ** The processing time and the distribution that uses it *)

Lemma random_value_rate_only (R : RandomSource) name kw kw' (g : G R) :
  name <> "uniform"%string -> name <> "normal"%string ->
  kw_rate kw = kw_rate kw' -> kw_values kw = kw_values kw' ->
  random_value R name kw g = random_value R name kw' g.
Proof.
  intros Hu Hn Hrate Hvalues. unfold random_value.
  destruct (name =? "exponential")%string; [now rewrite Hrate|].
  destruct (name =? "uniform")%string eqn:Eu; [apply String.eqb_eq in Eu; contradiction|].
  destruct (name =? "normal")%string eqn:En; [apply String.eqb_eq in En; contradiction|].
  destruct (name =? "custom")%string; [now rewrite Hvalues|reflexivity].
Qed.

Section ProcessingTime.
Context (R : RandomSource) (p : Params) (v : Q) (std : option Q).
Hypothesis not_uniform : server_processing_time_distribution p <> "uniform"%string.
Hypothesis not_normal : server_processing_time_distribution p <> "normal"%string.

Lemma fire_processing_time e (s : Sim R) :
  fire R (with_server_processing_time v std p) e s = fire R p e s.
Proof.
  destruct e; try reflexivity.
  cbn [fire]. unfold resume, process_request_granted, on_exception, bind, draw.
  cbn [server_processing_time_distribution with_server_processing_time].
  now rewrite (random_value_rate_only R _
                 (processing_kwargs (with_server_processing_time v std p))
                 (processing_kwargs p)).
Qed.

Lemma run_loop_processing_time fuel (s : Sim R) :
  run_loop R (with_server_processing_time v std p) fuel s = run_loop R p fuel s.
Proof.
  revert s. induction fuel as [|fuel IH]; intros s; cbn [run_loop]; [reflexivity|].
  unfold step. destruct (queue R s) as [|x q]; [reflexivity|].
  cbv zeta. rewrite fire_processing_time. destruct (ev x); auto.
Qed.

End ProcessingTime.

(** X9: the call in [process_request] passes no [rate], so unless the
    processing distribution is "uniform" or "normal" the parameters
    [server_processing_time] and [server_processing_time_std] reach no
    draw: every run and [run_simulation] are the same for any values of
    them (an "exponential" processing time has rate 1). *)
Theorem processing_time_reaches_only_uniform_and_normal
  (R : RandomSource) (p : Params) (v : Q) (std : option Q) :
  server_processing_time_distribution p <> "uniform"%string ->
  server_processing_time_distribution p <> "normal"%string ->
  (forall fuel until s,
      run R (with_server_processing_time v std p) fuel until s =
      run R p fuel until s) /\
  (forall fuel simulation_time g,
      run_simulation R (with_server_processing_time v std p) fuel simulation_time g =
      run_simulation R p fuel simulation_time g).
Proof.
  intros Hu Hn.
  assert (forall fuel until s,
      run R (with_server_processing_time v std p) fuel until s =
      run R p fuel until s) as Hrun.
  { intros fuel t s. unfold run. destruct (Qle_bool t (now R s)); [reflexivity|].
    now apply run_loop_processing_time. }
  split; [exact Hrun|].
  intros fuel t g. unfold run_simulation.
  change (construct R (with_server_processing_time v std p) g)
    with (construct R p g).
  destruct (construct R p g); [|reflexivity]. now rewrite Hrun.
Qed.

(** ** Uniform durations *)

Lemma uniform_between (R : RandomSource) a b (g : G R) :
  RandomLaws R -> (a <= b)%Q -> between (fst (uniform R a b g)) (a, b).
Proof.
  intros HR Hab. unfold uniform, between.
  pose proof (rand_random_range R HR g) as [H0 H1].
  destruct (rand_random R g) as [u g1]. cbn [fst snd] in *. split; nra.
Qed.

Lemma uniform_between_reversed (R : RandomSource) a b (g : G R) :
  RandomLaws R -> (b <= a)%Q -> between (fst (uniform R a b g)) (b, a).
Proof.
  intros HR Hab. unfold uniform, between.
  pose proof (rand_random_range R HR g) as [H0 H1].
  destruct (rand_random R g) as [u g1]. cbn [fst snd] in *. split; nra.
Qed.

(** X10: the three calls that pass a rate pass [low=0.1] and
    [high=1 / rate * 2]: under the "uniform" distribution every duration
    drawn lies between these two numbers, whichever is the smaller, so it
    is never below the smaller of 0.1 and twice the mean however large the
    rate. *)
Theorem uniform_duration_between_bounds (R : RandomSource) rate kw (g : G R) :
  RandomLaws R -> rate_kwargs rate = Ok kw ->
  exists x,
    fst (random_value R "uniform" kw g) = Ok x /\
    (Qmin (1 # 10) (1 / rate * 2) <= x <= Qmax (1 # 10) (1 / rate * 2))%Q.
Proof.
  intros HR. unfold rate_kwargs, py_div.
  destruct (Qeq_bool rate 0); [discriminate|]. intros [= <-].
  unfold random_value.
  cbn [String.eqb Ascii.eqb Bool.eqb kw_low kw_high default from_option id].
  set (lo := (1 # 10)%Q). set (hi := (1 / rate * 2)%Q).
  destruct (Qlt_le_dec hi lo) as [Hrev|Hord].
  - pose proof (uniform_between_reversed R lo hi g HR ltac:(lra)) as [H1 H2].
    destruct (uniform R lo hi g) as [x g1]. cbn [fst snd] in *.
    exists x. split; [reflexivity|].
    rewrite (Q.min_r lo hi) by lra. rewrite (Q.max_l lo hi) by lra. split; assumption.
  - pose proof (uniform_between R lo hi g HR Hord) as [H1 H2].
    destruct (uniform R lo hi g) as [x g1]. cbn [fst snd] in *.
    exists x. split; [reflexivity|].
    rewrite (Q.min_l lo hi) by lra. rewrite (Q.max_r lo hi) by lra. split; assumption.
Qed.

(** ** The clock *)

Lemma before_true_le y z : before y z = true -> (at_time y <= at_time z)%Q.
Proof.
  unfold before.
  destruct (Qcompare_spec (at_time y) (at_time z)) as [H|H|H];
    intros Hb; try discriminate; lra.
Qed.

Lemma before_false_le y z : before y z = false -> (at_time z <= at_time y)%Q.
Proof.
  unfold before.
  destruct (Qcompare_spec (at_time y) (at_time z)) as [H|H|H];
    intros Hb; try discriminate; lra.
Qed.

Lemma enqueue_Forall (P : scheduled -> Prop) y q :
  P y -> Forall P q -> Forall P (enqueue y q).
Proof.
  intros Hy. induction 1 as [|z q Hz Hq IH]; cbn [enqueue].
  - repeat constructor. exact Hy.
  - destruct (before y z); repeat constructor; assumption.
Qed.

Lemma enqueue_time_sorted y q : time_sorted q -> time_sorted (enqueue y q).
Proof.
  induction q as [|z q IH]; cbn [enqueue time_sorted].
  - intros _. split; [constructor | exact I].
  - intros [Hz Hq]. destruct (before y z) eqn:Hb; cbn [time_sorted].
    + apply before_true_le in Hb. repeat split; try assumption.
      constructor; [exact Hb|].
      eapply Forall_impl; [exact Hz|]. cbn. intros x Hx. lra.
    + apply before_false_le in Hb. split; [|apply IH, Hq].
      apply enqueue_Forall; assumption.
Qed.

Lemma py_sum_nonneg l :
  Forall (fun x => (0 <= x)%Q) l -> (0 <= py_sum l)%Q.
Proof.
  unfold py_sum.
  enough (forall a, (0 <= a)%Q -> Forall (fun x => (0 <= x)%Q) l ->
                    (0 <= fold_left Qplus l a)%Q) as H
    by (apply H; lra).
  induction l as [|x l IH]; intros a Ha Hl; cbn [fold_left].
  - exact Ha.
  - inversion Hl as [|? ? Hx Hl']; subst. apply IH; [lra | exact Hl'].
Qed.

Section ClockInvariant.
Context (R : RandomSource) (p : Params).
Implicit Types s : Sim R.

Lemma clock_rng g s : clock_ok s -> clock_ok (with_rng R g s).
Proof. intros [? ? ? ?]. constructor; assumption. Qed.

Lemma clock_counters t c f a sp s :
  clock_ok s -> clock_ok (with_metrics R t c f (latency R s) a sp s).
Proof. intros [? ? ? ?]. constructor; assumption. Qed.

Lemma clock_completion x s :
  (0 <= x)%Q -> clock_ok s -> clock_ok (record_completion R x s).
Proof.
  intros Hx [? ? ? Hl]. constructor; try assumption.
  cbn. apply Forall_app. split; [exact Hl | repeat constructor; exact Hx].
Qed.

Lemma clock_schedule e prio d s :
  (0 <= d)%Q -> arrived_by (now R s + d) e ->
  clock_ok s -> clock_ok (schedule R e prio d s).
Proof.
  intros Hd He [Hs Hp Hw Hl]. constructor; cbn; try assumption.
  - apply enqueue_time_sorted, Hs.
  - apply enqueue_Forall; [|exact Hp]. split; cbn; [lra | exact He].
Qed.

Lemma clock_capacity i c s :
  clock_ok s -> clock_ok (update_server R i (set_capacity c) s).
Proof.
  intros [Hs Hp Hw Hl]. constructor; cbn; try assumption.
  apply Forall_alter; [exact Hw|]. intros sv _ Hsv. exact Hsv.
Qed.

Lemma clock_trigger_put i s : clock_ok s -> clock_ok (trigger_put R i s).
Proof.
  intros Hc. unfold trigger_put.
  destruct (servers R s !! i) as [sv|] eqn:Hi; [|exact Hc].
  destruct (put_queue sv) as [|h rest] eqn:Hq; [exact Hc|].
  destruct (_ <? _); [|exact Hc].
  pose proof (clock_waiting s Hc) as Hw.
  pose proof (proj1 (Forall_lookup _ _) Hw i sv Hi) as Hsv. cbn in Hsv.
  rewrite Hq in Hsv. inversion Hsv as [|? ? Hh Hrest]; subst.
  apply clock_schedule; [lra | |].
  - intros h' [= <-]. cbn. lra.
  - destruct Hc as [Hs Hp _ Hl]. constructor; cbn; try assumption.
    apply Forall_insert; [exact Hw | exact Hrest].
Qed.

Lemma clock_request i h s :
  (arrival_time h <= now R s)%Q -> clock_ok s -> clock_ok (request R i h s).
Proof.
  intros Hh Hc. unfold request.
  destruct (servers R s !! i) as [sv|] eqn:Hi; [|exact Hc].
  apply clock_trigger_put.
  pose proof (clock_waiting s Hc) as Hw.
  pose proof (proj1 (Forall_lookup _ _) Hw i sv Hi) as Hsv. cbn in Hsv.
  destruct Hc as [Hs Hp _ Hl]. constructor; cbn; try assumption.
  apply Forall_insert; [exact Hw|]. cbn.
  apply Forall_app. split; [exact Hsv | repeat constructor; exact Hh].
Qed.

Lemma clock_release i h s : clock_ok s -> clock_ok (release R i h s).
Proof.
  intros Hc. unfold release.
  destruct (servers R s !! i) as [sv|] eqn:Hi; [|exact Hc].
  pose proof (clock_waiting s Hc) as Hw.
  pose proof (proj1 (Forall_lookup _ _) Hw i sv Hi) as Hsv. cbn in Hsv.
  apply clock_schedule; [lra | intros h' [=] |].
  destruct Hc as [Hs Hp _ Hl]. constructor; cbn; try assumption.
  apply Forall_insert; [exact Hw | exact Hsv].
Qed.

Create HintDb clock.
#[local] Hint Resolve clock_rng clock_completion clock_schedule clock_capacity
  clock_trigger_put clock_request clock_release : clock.
#[local] Hint Extern 1 (clock_ok (incr_total _ _)) => apply clock_counters : clock.
#[local] Hint Extern 1 (clock_ok (incr_failed _ _)) => apply clock_counters : clock.
#[local] Hint Extern 1 (clock_ok (incr_spawned _ _)) => apply clock_counters : clock.
#[local] Hint Extern 1 (clock_ok (add_available _ _ _)) => apply clock_counters : clock.
#[local] Hint Extern 1 (arrived_by _ _) => (intros ? [=]) : clock.
#[local] Hint Extern 1 (0 <= _)%Q => first [assumption | lra] : clock.

Lemma generate_requests_clock : keeps clock_ok (generate_requests R p).
Proof.
  intros s r s' Hs. unfold generate_requests. run_body; intros H;
    split_pairs; auto 20 with clock nocore.
Qed.

Lemma server_failures_clock : keeps clock_ok (server_failures R p).
Proof.
  intros s r s' Hs. unfold server_failures. run_body; intros H;
    split_pairs; auto 20 with clock nocore.
Qed.

Lemma resume_clock_at body s :
  (forall r s', body s = (r, s') -> clock_ok s') -> clock_ok (resume R body s).
Proof.
  intros Hb. unfold resume.
  destruct (body s) as [[[]|e] s'] eqn:Hbody;
    pose proof (Hb _ s' eq_refl); auto 20 with clock nocore.
Qed.

Lemma resume_clock body s :
  keeps clock_ok body -> clock_ok s -> clock_ok (resume R body s).
Proof. intros Hb Hs. apply resume_clock_at. intros r s'. apply Hb, Hs. Qed.

(** Every event keeps the clock invariant, provided the handler it resumes
    has arrived. *)
Lemma fire_clock e s :
  arrived_by (now R s) e -> clock_ok s -> clock_ok (fire R p e s).
Proof.
  intros He Hs.
  destruct e as [| |rid|rid| |i|i h|i h|i| |x|]; cbn [fire];
    try exact Hs; try (apply clock_trigger_put, Hs);
    [apply resume_clock; try exact Hs ..
    | apply resume_clock_at | apply resume_clock_at].
  - apply generate_requests_clock.
  - apply server_failures_clock.
  - intros s0 r s' H0. unfold process_request. run_body; intros H;
      split_pairs; auto 20 with clock nocore.
    apply clock_request; [cbn; lra | exact H0].
  - intros s0 r s' H0. unfold generate_requests_wake.
    unfold bind at 1, modify at 1. unfold bind at 1, modify at 1.
    apply generate_requests_clock. auto 20 with clock nocore.
  - intros s0 r s' H0 Hbody.
    destruct (choice_index R (length (servers R s0)) (rng R s0))
      as [[i|x] g'] eqn:Hc.
    2:{ rewrite (server_failures_wake_raise R p s0 x g' Hc) in Hbody.
        split_pairs. auto 20 with clock nocore. }
    destruct (servers R s0 !! i) as [sv|] eqn:Hi.
    2:{ rewrite (server_failures_wake_missing R p s0 i g' Hc Hi) in Hbody.
        split_pairs. auto 20 with clock nocore. }
    destruct (length (users sv) =? 0)%nat eqn:Hu.
    + rewrite (server_failures_wake_idle R p s0 i g' sv Hc Hi Hu) in Hbody.
      revert Hbody. run_body; intros H;
        split_pairs; auto 20 with clock nocore.
    + rewrite (server_failures_wake_busy R p s0 i g' sv Hc Hi Hu) in Hbody.
      apply (server_failures_clock _ _ _ (clock_rng g' s0 H0) Hbody).
  - intros s0 r s' H0. unfold server_failures_recovered.
    unfold bind at 1, modify at 1. unfold bind at 1, modify at 1.
    apply server_failures_clock. auto 20 with clock nocore.
  - assert (arrival_time h <= now R s)%Q as Hh by (apply He; reflexivity).
    intros r s'. unfold process_request_granted. run_body; intros H;
      split_pairs; auto 20 with clock nocore.
    apply clock_schedule; [lra | | apply clock_rng, Hs].
    intros h' [= <-]. cbn. lra.
  - assert (arrival_time h <= now R s)%Q as Hh by (apply He; reflexivity).
    intros r s'. unfold process_request_done. run_body; intros H;
      split_pairs. apply clock_release, clock_completion; [lra | exact Hs].
Qed.

Lemma fire_now e s : now R (fire R p e s) = now R s.
Proof.
  apply (queue_fire R p (fun s' => now R s' = now R s));
    try (intros; cbn; assumption); reflexivity.
Qed.

Lemma step_clock s s' :
  clock_ok s -> after_step (step R p s) = Some s' ->
  clock_ok s' /\ (now R s <= now R s')%Q.
Proof.
  intros [Hsort Hpend Hwait Hlat]. unfold step.
  destruct (queue R s) as [|x q] eqn:Hq; [discriminate|]. intros Hs'.
  assert (s' = fire R p (ev x) (with_env R (at_time x) q (next_eid R s) s)) as ->
    by (destruct (ev x); cbn [after_step] in Hs'; congruence).
  inversion Hpend as [|? ? [Hx Hhx] Hrest]; subst.
  destruct Hsort as [Hfirst Hsort].
  rewrite fire_now. split; [|exact Hx].
  apply fire_clock; [exact Hhx|].
  constructor; cbn; try assumption.
  - apply Forall_forall. intros y Hy. split.
    + exact (proj1 (Forall_forall _ _) Hfirst y Hy).
    + exact (proj2 (proj1 (Forall_forall _ _) Hrest y Hy)).
  - eapply Forall_impl; [exact Hwait|]. cbn. intros sv Hsv.
    eapply Forall_impl; [exact Hsv|]. cbn. intros h Hh. lra.
Qed.

Lemma run_loop_clock fuel s r s' :
  clock_ok s -> run_loop R p fuel s = Some (r, s') ->
  clock_ok s' /\ (now R s <= now R s')%Q.
Proof.
  revert s. induction fuel as [|fuel IH]; intros s Hs; cbn [run_loop]; [discriminate|].
  destruct (step R p s) as [s1|s1|e s1|] eqn:Hstep; intros H.
  - destruct (step_clock s s1 Hs) as [H1 Hle]; [now rewrite Hstep|].
    destruct (IH s1 H1 H) as [H2 Hle']. split; [exact H2 | lra].
  - injection H as <- <-. apply (step_clock s s1 Hs). now rewrite Hstep.
  - injection H as <- <-. apply (step_clock s s1 Hs). now rewrite Hstep.
  - injection H as <- <-. split; [exact Hs | lra].
Qed.

Lemma construct_clock g s : construct R p g = Ok s -> clock_ok s.
Proof.
  unfold construct, init. intros [= <-].
  apply clock_schedule; [lra | intros h [=] |].
  apply clock_schedule; [lra | intros h [=] |].
  constructor; cbn; try constructor.
  apply Forall_replicate. constructor.
Qed.

Lemma run_clock fuel until s r s' :
  clock_ok s -> run R p fuel until s = Some (r, s') ->
  clock_ok s' /\ (now R s <= now R s')%Q.
Proof.
  intros Hs. unfold run. destruct (Qle_bool until (now R s)) eqn:Hle.
  - intros H. injection H as <- <-. split; [exact Hs | lra].
  - intros H. apply run_loop_clock in H.
    + exact H.
    + apply clock_schedule; [|intros h [=] | exact Hs].
      destruct (Qlt_le_dec (now R s) until) as [Hlt|Hge]; [lra|].
      apply Qle_bool_iff in Hge. congruence.
Qed.

(** X11: the clock never runs back.  Over a run from a state in which the
    queue is in time order and nothing is due in the past, the clock only
    advances, and the same holds of the state the run ends in (whether it
    returns or raises). *)
Theorem clock_never_runs_back fuel until s r s' :
  clock_ok s -> run R p fuel until s = Some (r, s') ->
  clock_ok s' /\ (now R s <= now R s')%Q.
Proof. apply run_clock. Qed.

Lemma metrics_latency_nonneg s :
  clock_ok s -> (0 <= m_avg_latency (get_metrics R s))%Q.
Proof.
  intros Hs. pose proof (clock_latency s Hs) as Hl.
  cbn [get_metrics m_avg_latency].
  destruct (latency R s) as [|x l] eqn:Hlat; [lra|].
  apply Qle_shift_div_l.
  - change 0%Q with (inject_Z 0). rewrite <- Zlt_Qlt. cbn [length]. lia.
  - rewrite Qmult_0_l. apply py_sum_nonneg, Hl.
Qed.

(** X12: no latency sample is negative (a request completes no earlier than
    it arrived), so the [avg_latency] that [run_simulation] returns is never
    negative. *)
Theorem run_simulation_latency_nonneg fuel simulation_time g m g' :
  run_simulation R p fuel simulation_time g = Some (Ok m, g') ->
  (0 <= m_avg_latency m)%Q.
Proof.
  unfold run_simulation.
  destruct (construct R p g) as [model|e] eqn:Hc; [|discriminate].
  destruct (run R p fuel simulation_time model) as [[[[]|e] s]|] eqn:Hrun;
    try discriminate.
  intros [= <- _]. apply metrics_latency_nonneg.
  apply (run_clock fuel simulation_time model (Ok tt) s).
  - apply (construct_clock g), Hc.
  - exact Hrun.
Qed.

End ClockInvariant.

(** ** The snapshot loop of [app.py] *)

Lemma last_cons_default {A} (x d : A) l : List.last (x :: l) d = List.last l x.
Proof.
  revert x d. induction l as [|y l IH]; intros x d; [reflexivity|].
  change (List.last (x :: y :: l) d) with (List.last (y :: l) d).
  now rewrite !IH.
Qed.

Lemma due_app {A} U (l1 l2 : list (Z * A)) last :
  due U (l1 ++ l2) last = due U l1 last ++ due U l2 (last_after U l1 last).
Proof.
  revert last. induction l1 as [|[t a] l1 IH]; intros last; cbn [app due last_after].
  - reflexivity.
  - destruct (U <=? t - last); cbn [app]; now rewrite IH.
Qed.

Lemma last_after_app {A} U (l1 l2 : list (Z * A)) last :
  last_after U (l1 ++ l2) last = last_after U l2 (last_after U l1 last).
Proof.
  revert last. induction l1 as [|[t a] l1 IH]; intros last; cbn [app last_after].
  - reflexivity.
  - apply IH.
Qed.

Lemma due_Forall {A} (P : Z * A -> Prop) U (l : list (Z * A)) last :
  Forall P l -> Forall P (due U l last).
Proof.
  intros H. revert last. induction H as [|[t a] l Hx Hl IH]; intros last; cbn [due].
  - constructor.
  - destruct (U <=? t - last); [constructor; [exact Hx|]|]; apply IH.
Qed.

Lemma due_pairwise {A} (rel : Z * A -> Z * A -> Prop) U (l : list (Z * A)) last :
  pairwise rel l -> pairwise rel (due U l last).
Proof.
  revert last. induction l as [|[t a] l IH]; intros last; cbn [due pairwise].
  - trivial.
  - intros [Hx Hl]. destruct (U <=? t - last); [|apply IH, Hl].
    cbn [pairwise]. split; [apply due_Forall, Hx | apply IH, Hl].
Qed.

Lemma pairwise_map {A B} (f : A -> B) (rel : A -> A -> Prop)
    (rel' : B -> B -> Prop) (l : list A) :
  (forall a b, rel a b -> rel' (f a) (f b)) ->
  pairwise rel l -> pairwise rel' (map f l).
Proof.
  intros Hf. induction l as [|x l IH]; cbn [map pairwise]; [trivial|].
  intros [Hx Hl]. split; [|apply IH, Hl].
  apply Forall_map. eapply Forall_impl; [exact Hx|]. intros b. apply Hf.
Qed.

Lemma pairwise_snoc {A} (rel : A -> A -> Prop) (l : list A) z :
  pairwise rel l -> Forall (fun x => rel x z) l -> pairwise rel (l ++ [z]).
Proof.
  induction l as [|x l IH]; cbn [app pairwise].
  - intros _ _. split; [constructor | exact I].
  - intros [Hx Hl] Hz. inversion Hz as [|? ? Hxz Hlz]; subst. split.
    + apply Forall_app. split; [exact Hx | repeat constructor; exact Hxz].
    + apply IH; assumption.
Qed.

Section AppLoop.
Context (R : RandomSource) (p : Params) (fuel : nat) (U : Z) (time_scale : Q).
Implicit Types (s : Sim R) (f : App.Frame R) (l : list (Z * Sim R)).

(** A loop that runs to its end is a chain of runs that return, and its
    rows are the snapshots of the iterations in which one was due. *)
Lemma loop_returns ts f f' :
  App.loop R p fuel U time_scale ts f = Some (Ok tt, f') ->
  exists l,
    map fst l = ts /\ chain p fuel (App.model R f) l /\
    App.model R f' = List.last (map snd l) (App.model R f) /\
    App.last_update R f' = last_after U l (App.last_update R f) /\
    App.results R f' =
      App.results R f ++ map snapshot (due U l (App.last_update R f)) /\
    App.yielded R f' =
      App.yielded R f ++ map snapshot (due U l (App.last_update R f)).
Proof.
  revert f. induction ts as [|t ts IH]; intros f; cbn [App.loop].
  - intros [= <-]. exists []. cbn. now rewrite !app_nil_r.
  - destruct (run R p fuel (inject_Z (t + 1)) (App.model R f))
      as [[[[]|e] s]|] eqn:Hrun; try discriminate.
    destruct (U <=? t - App.last_update R f) eqn:Hdue.
    + cbv zeta. destruct (py_div 1 time_scale) as [secs|e]; [|discriminate].
      destruct (App.sleep secs) as [[]|e]; [|discriminate].
      intros H. destruct (IH _ H) as (l & Hts & Hchain & Hm & Hlast & Hres & Hy).
      cbn [App.model App.last_update App.results App.yielded] in *.
      exists ((t, s) :: l). cbn [map fst snd chain due last_after].
      rewrite Hdue, Hts, Hres, Hy, <- !app_assoc. repeat split; try assumption.
      now rewrite last_cons_default.
    + intros H. destruct (IH _ H) as (l & Hts & Hchain & Hm & Hlast & Hres & Hy).
      cbn [App.model App.last_update App.results App.yielded] in *.
      exists ((t, s) :: l). cbn [map fst snd chain due last_after].
      rewrite Hdue, Hts, Hres, Hy. repeat split; try assumption.
      now rewrite last_cons_default.
Qed.

(** What [run_simulation] returns, in terms of the chain of runs. *)
Lemma run_simulation_returns T g ys rows g' :
  App.run_simulation R p fuel T U time_scale g = Some (ys, Ok rows, g') ->
  exists s0 l,
    construct R p g = Ok s0 /\ map fst l = App.py_range (T + 1) /\
    chain p fuel s0 l /\
    ys = map snapshot (due U l 0) /\
    rows = ys ++ [snapshot (T, List.last (map snd l) s0)].
Proof.
  unfold App.run_simulation.
  destruct (construct R p g) as [s0|e] eqn:Hc; [|discriminate].
  destruct (App.loop _ _ _ _ _ _ _) as [[[[]|e] f]|] eqn:Hloop; try discriminate.
  intros [= <- <- _].
  destruct (loop_returns _ _ _ Hloop) as (l & Hts & Hchain & Hm & _ & Hres & Hy).
  cbn [App.model App.last_update App.results App.yielded app] in *.
  exists s0, l. rewrite Hm, Hres, Hy. repeat split; assumption.
Qed.

End AppLoop.

(** *** When a snapshot is due *)

Lemma next_multiple U n :
  1 <= U -> 0 <= n ->
  (U <=? n + 1 - U * (n / U)) = ((n + 1) mod U =? 0) /\
  (if U <=? n + 1 - U * (n / U) then n + 1 else U * (n / U)) =
  U * ((n + 1) / U).
Proof.
  intros HU Hn.
  pose proof (Z.div_mod n U ltac:(lia)) as Hdm.
  pose proof (Z.mod_pos_bound n U ltac:(lia)) as Hr.
  destruct (Z.eq_dec (n mod U) (U - 1)) as [Hlast|Hmid].
  - assert ((n + 1) mod U = 0) as Hm
      by (symmetry; apply (Z.mod_unique_pos _ _ (n / U + 1)); lia).
    assert ((n + 1) / U = n / U + 1) as Hq
      by (symmetry; apply (Z.div_unique_pos _ _ _ 0); lia).
    rewrite Hm, Hq. replace (U <=? n + 1 - U * (n / U)) with true
      by (symmetry; apply Z.leb_le; lia).
    split; [reflexivity | lia].
  - assert ((n + 1) mod U = n mod U + 1) as Hm
      by (symmetry; apply (Z.mod_unique_pos _ _ (n / U)); lia).
    assert ((n + 1) / U = n / U) as Hq
      by (symmetry; apply (Z.div_unique_pos _ _ _ (n mod U + 1)); lia).
    rewrite Hm, Hq. replace (U <=? n + 1 - U * (n / U)) with false
      by (symmetry; apply Z.leb_gt; lia).
    split; [symmetry; apply Z.eqb_neq; lia | reflexivity].
Qed.

Lemma py_range_succ (n : nat) :
  App.py_range (Z.of_nat (S n) + 1) =
  App.py_range (Z.of_nat n + 1) ++ [Z.of_nat (S n)].
Proof.
  unfold App.py_range.
  replace (Z.to_nat (Z.of_nat (S n) + 1)) with (S (S n)) by lia.
  replace (Z.to_nat (Z.of_nat n + 1)) with (S n) by lia.
  rewrite (seq_S (S n)), map_app. reflexivity.
Qed.

Lemma multiples_succ U (n : nat) :
  multiples U (Z.of_nat (S n)) =
  multiples U (Z.of_nat n) ++
  (if (Z.of_nat n + 1) mod U =? 0 then [Z.of_nat n + 1] else []).
Proof.
  unfold multiples. rewrite !Nat2Z.id, seq_S, map_app, List.filter_app.
  cbn [map List.filter]. replace (Z.of_nat (1 + n)) with (Z.of_nat n + 1) by lia.
  reflexivity.
Qed.

(** With a positive interval the snapshots fall on its multiples. *)
Lemma due_on_multiples {A} U (n : nat) (l : list (Z * A)) :
  1 <= U -> map fst l = App.py_range (Z.of_nat n + 1) ->
  map fst (due U l 0) = multiples U (Z.of_nat n) /\
  last_after U l 0 = U * (Z.of_nat n / U).
Proof.
  intros HU. revert l. induction n as [|n IH]; intros l Hl.
  - destruct l as [|[t a] [|? ?]]; try discriminate. injection Hl as ->.
    cbn [due last_after]. change (Z.of_nat 0) with 0.
    replace (U <=? 0 - 0) with false by (symmetry; apply Z.leb_gt; lia).
    split; [reflexivity|]. rewrite Z.div_0_l by lia. lia.
  - rewrite py_range_succ in Hl.
    apply map_eq_app in Hl. destruct Hl as (l1 & l2 & -> & Hl1 & Hl2).
    destruct l2 as [|[t a] [|? ?]]; try discriminate. injection Hl2 as ->.
    destruct (IH l1 Hl1) as [Hdue Hlast].
    destruct (next_multiple U (Z.of_nat n) HU ltac:(lia)) as [Htest Hnext].
    rewrite due_app, last_after_app, map_app, Hdue, Hlast, multiples_succ.
    cbn [due last_after]. replace (Z.of_nat (S n)) with (Z.of_nat n + 1) by lia.
    rewrite <- Htest. split.
    + now destruct (U <=? _).
    + replace (Z.of_nat n + 1 - U * (Z.of_nat n / U))
        with (Z.of_nat n + 1 - U * (Z.of_nat n / U)) by reflexivity.
      exact Hnext.
Qed.

(** *** The chain of runs *)

Section Chain.
Context (R : RandomSource) (p : Params) (fuel : nat).
Implicit Types (s : Sim R) (l : list (Z * Sim R)).

Lemma chain_states s l :
  reachable R p s -> until_times (queue R s) = [] -> chain p fuel s l ->
  Forall (fun x => reachable R p (snd x) /\
                   (now R (snd x) == inject_Z (fst x + 1))%Q) l.
Proof.
  revert s. induction l as [|[t s'] l IH]; intros s Hs Hq; cbn [chain].
  - constructor.
  - intros [Hrun Hl].
    destruct (run_stops R p _ _ _ _ Hq Hrun) as (_ & Hnow & Hq').
    pose proof (run_reachable R p _ _ _ _ _ Hs Hrun) as Hs'.
    constructor; [split; assumption | apply (IH s'); assumption].
Qed.

Lemma chain_grew s l :
  chain p fuel s l -> Forall (fun x => grew s (snd x)) l.
Proof.
  revert s. induction l as [|[t s'] l IH]; intros s; cbn [chain].
  - constructor.
  - intros [Hrun Hl]. pose proof (run_grew R p _ _ _ _ _ Hrun) as Hg.
    constructor; [exact Hg|].
    eapply Forall_impl; [apply (IH s' Hl)|]. cbn. intros x Hx.
    exact (grew_trans R _ _ _ Hg Hx).
Qed.

Lemma chain_pairwise s l :
  chain p fuel s l -> pairwise (fun a b => grew (snd a) (snd b)) l.
Proof.
  revert s. induction l as [|[t s'] l IH]; intros s; cbn [chain pairwise].
  - trivial.
  - intros [_ Hl]. split; [apply chain_grew, Hl | apply (IH s'), Hl].
Qed.

Lemma grew_refl s : grew s s.
Proof. repeat split; try lia. exists []. now rewrite app_nil_r. Qed.

Lemma chain_last s l :
  chain p fuel s l ->
  Forall (fun x => grew (snd x) (List.last (map snd l) s)) l.
Proof.
  revert s. induction l as [|[t s'] l IH]; intros s; cbn [chain].
  - constructor.
  - intros [Hrun Hl]. cbn [map snd]. rewrite last_cons_default.
    constructor; [|apply IH, Hl]. cbn [snd].
    pose proof (chain_grew s' l Hl) as Hall.
    destruct (map snd l) eqn:Hm using rev_ind; [apply grew_refl|].
    rewrite last_last.
    assert (In x (map snd l)) as Hin by (rewrite Hm; apply in_or_app; right; now left).
    apply in_map_iff in Hin. destruct Hin as (y & <- & Hy).
    exact (proj1 (List.Forall_forall _ _) Hall y Hy).
Qed.

End Chain.

(** *** What the consumer of [run_simulation] sees *)

Lemma py_range_last T :
  0 <= T -> App.py_range (T + 1) = App.py_range T ++ [T].
Proof.
  intros HT. unfold App.py_range.
  replace (Z.to_nat (T + 1)) with (S (Z.to_nat T)) by lia.
  rewrite seq_S, map_app. cbn [map plus]. now rewrite Z2Nat.id.
Qed.

Lemma range_split {A} T (l : list (Z * A)) :
  0 <= T -> map fst l = App.py_range (T + 1) ->
  exists l1 a, l = l1 ++ [(T, a)] /\ map fst l1 = App.py_range T.
Proof.
  intros HT Hl. rewrite py_range_last in Hl by exact HT.
  apply map_eq_app in Hl. destruct Hl as (l1 & l2 & -> & Hl1 & Hl2).
  destruct l2 as [|[t a] [|? ?]]; try discriminate. injection Hl2 as ->.
  now exists l1, a.
Qed.

Lemma map_row_time {R} (l : list (Z * Sim R)) :
  map App.row_time (map snapshot l) = map fst l.
Proof. rewrite map_map. apply map_ext. now intros [t s]. Qed.

Section Snapshots.
Context (R : RandomSource) (p : Params) (fuel : nat).
Context (simulation_time update_interval : Z) (time_scale : Q).

Lemma snapshots_on_multiples_aux g ys rows g' :
  1 <= update_interval ->
  App.run_simulation R p fuel simulation_time update_interval time_scale g =
    Some (ys, Ok rows, g') ->
  map App.row_time ys = multiples update_interval simulation_time.
Proof.
  intros HU Hrun.
  destruct (run_simulation_returns _ _ _ _ _ _ _ _ _ _ Hrun)
    as (s0 & l & _ & Hl & _ & -> & ->).
  rewrite map_row_time.
  destruct (Z_lt_le_dec simulation_time 0) as [Hneg|Hpos].
  - unfold App.py_range in Hl. replace (Z.to_nat (simulation_time + 1)) with 0%nat in Hl by lia.
    destruct l; [|discriminate]. unfold multiples.
    now replace (Z.to_nat simulation_time) with 0%nat by lia.
  - rewrite <- (Z2Nat.id simulation_time Hpos) in Hl |- *.
    now destruct (due_on_multiples update_interval _ l HU Hl).
Qed.

(** X13: with an update interval of at least one second, the rows that
    [run_simulation] yields are labelled with the positive multiples of the
    interval up to [simulation_time], in order (none at time 0), and the
    table it returns is those rows followed by one more, labelled
    [simulation_time]. *)
Theorem snapshots_on_multiples g ys rows g' :
  1 <= update_interval ->
  App.run_simulation R p fuel simulation_time update_interval time_scale g =
    Some (ys, Ok rows, g') ->
  map App.row_time ys = multiples update_interval simulation_time /\
  exists final, rows = ys ++ [final] /\ App.row_time final = simulation_time.
Proof.
  intros HU Hrun. split; [exact (snapshots_on_multiples_aux g ys rows g' HU Hrun)|].
  destruct (run_simulation_returns _ _ _ _ _ _ _ _ _ _ Hrun)
    as (s0 & l & _ & _ & _ & -> & ->).
  eexists; split; reflexivity.
Qed.

(** X14: every row of the returned table holds the metrics of a reachable
    state of the model whose clock is one second past the row's label: the
    loop runs the model to [t + 1] before it takes the snapshot labelled
    [t], and to [simulation_time + 1] in all. *)
Theorem snapshot_one_second_ahead g ys rows g' :
  0 <= simulation_time ->
  App.run_simulation R p fuel simulation_time update_interval time_scale g =
    Some (ys, Ok rows, g') ->
  Forall (fun row =>
            exists s, reachable R p s /\
                      (now R s == inject_Z (App.row_time row + 1))%Q /\
                      App.row_metrics row = get_metrics R s) rows.
Proof.
  intros HT Hrun.
  destruct (run_simulation_returns _ _ _ _ _ _ _ _ _ _ Hrun)
    as (s0 & l & Hc & Hl & Hchain & -> & ->).
  assert (Forall (fun x => reachable R p (snd x) /\
                           (now R (snd x) == inject_Z (fst x + 1))%Q) l) as Hall.
  { apply (chain_states R p fuel s0); [| |exact Hchain].
    - exact (reach_construct R p g s0 Hc).
    - exact (construct_no_until R p g s0 Hc). }
  assert (forall x, reachable R p (snd x) /\
                    (now R (snd x) == inject_Z (fst x + 1))%Q ->
                    exists s, reachable R p s /\
                      (now R s == inject_Z (App.row_time (snapshot x) + 1))%Q /\
                      App.row_metrics (snapshot x) = get_metrics R s) as Hrow.
  { intros [t s] [Hs Hnow]. exists s. repeat split; assumption. }
  apply Forall_app. split.
  - apply Forall_map. apply due_Forall.
    eapply Forall_impl; [exact Hall|]. exact Hrow.
  - constructor; [|constructor]. apply Hrow.
    destruct (range_split _ l HT Hl) as (l1 & s & -> & _).
    rewrite map_app. cbn [map]. rewrite last_last. cbn [snd fst].
    apply Forall_app in Hall. destruct Hall as [_ Hlast].
    inversion Hlast; subst. assumption.
Qed.

(** X15: down the returned table no counter decreases: each row has
    [total_requests], [completed_requests] and [failed_requests] at least
    those of every row above it. *)
Theorem snapshots_ascending g ys rows g' :
  App.run_simulation R p fuel simulation_time update_interval time_scale g =
    Some (ys, Ok rows, g') ->
  pairwise row_le rows.
Proof.
  intros Hrun.
  destruct (run_simulation_returns _ _ _ _ _ _ _ _ _ _ Hrun)
    as (s0 & l & Hc & Hl & Hchain & -> & ->).
  assert (forall a b : Z * Sim R,
             grew (snd a) (snd b) -> row_le (snapshot a) (snapshot b)) as Hle.
  { intros [t s] [t' s'] (H1 & H2 & H3 & _). repeat split; assumption. }
  apply pairwise_snoc.
  - apply (pairwise_map snapshot (fun a b => grew (snd a) (snd b))); [exact Hle|].
    apply due_pairwise. exact (chain_pairwise R p fuel s0 l Hchain).
  - apply Forall_map. apply due_Forall.
    eapply Forall_impl; [exact (chain_last R p fuel s0 l Hchain)|].
    intros x Hx. apply (Hle x (simulation_time, _)). exact Hx.
Qed.

(** X16: when the update interval divides [simulation_time], the last
    iteration of the loop takes a snapshot and the final row repeats it:
    the returned table ends with the same row twice. *)
Theorem last_row_twice g ys rows g' :
  1 <= update_interval <= simulation_time ->
  simulation_time mod update_interval = 0 ->
  App.run_simulation R p fuel simulation_time update_interval time_scale g =
    Some (ys, Ok rows, g') ->
  exists init row, rows = init ++ [row; row].
Proof.
  intros [HU HT] Hdiv Hrun.
  destruct (run_simulation_returns _ _ _ _ _ _ _ _ _ _ Hrun)
    as (s0 & l & _ & Hl & _ & -> & ->).
  assert (0 <= simulation_time) as Hpos by lia.
  destruct (range_split _ l Hpos Hl) as (l1 & s & -> & Hl1).
  rewrite map_app. cbn [map]. rewrite last_last. cbn [snd].
  set (n := Z.to_nat (simulation_time - 1)).
  assert (simulation_time = Z.of_nat n + 1) as HTn by lia.
  rewrite HTn in Hl1.
  destruct (due_on_multiples update_interval n l1 HU Hl1) as [_ Hlast].
  destruct (next_multiple update_interval (Z.of_nat n) HU ltac:(lia)) as [Htest _].
  rewrite <- HTn, Hdiv in Htest. cbn [Z.eqb] in Htest.
  rewrite due_app, Hlast. cbn [due]. rewrite Htest.
  rewrite map_app. cbn [map].
  exists (map snapshot (due update_interval l1 0)), (snapshot (simulation_time, s)).
  now rewrite <- app_assoc.
Qed.

End Snapshots.

(** *** Where the generator raises *)

Lemma sleep_negative time_scale secs :
  (time_scale <= 0)%Q -> py_div 1 time_scale = Ok secs ->
  exists e, App.sleep secs = Raise e.
Proof.
  unfold py_div. destruct (Qeq_bool time_scale 0) eqn:Hz; [discriminate|].
  intros Hle [= <-]. unfold App.sleep.
  destruct (Qlt_le_dec (1 / time_scale) 0) as [_|Hpos]; [eauto|]. exfalso.
  assert (~ time_scale == 0)%Q as Hne
    by (intros H; apply Qeq_bool_iff in H; congruence).
  assert (1 / time_scale * time_scale == 1)%Q as Hinv
    by (field; exact Hne).
  assert (time_scale < 0)%Q as Hlt by (apply Qle_lt_or_eq in Hle; tauto).
  nra.
Qed.

Section Raises.
Context (R : RandomSource) (p : Params) (fuel : nat).
Context (simulation_time update_interval : Z) (time_scale : Q).

Lemma loop_no_yield ts f r f' :
  (time_scale <= 0)%Q ->
  App.loop R p fuel update_interval time_scale ts f = Some (r, f') ->
  App.yielded R f' = App.yielded R f.
Proof.
  intros Hle. revert f. induction ts as [|t ts IH]; intros f; cbn [App.loop].
  - now intros [= <- <-].
  - destruct (run R p fuel (inject_Z (t + 1)) (App.model R f))
      as [[[[]|e] s]|]; try discriminate.
    2:{ now intros [= <- <-]. }
    destruct (update_interval <=? t - App.last_update R f).
    + cbv zeta. destruct (py_div 1 time_scale) as [secs|e] eqn:Hdiv.
      * destruct (sleep_negative _ _ Hle Hdiv) as [e ->]. now intros [= <- <-].
      * now intros [= <- <-].
    + intros H. now rewrite (IH _ H).
Qed.

(** X17: [time.sleep(1 / time_scale)] stands between a snapshot and its
    [yield]: with a [time_scale] of zero or below, [run_simulation] yields
    no row at all, and raises as soon as the first snapshot is due. *)
Theorem nonpositive_time_scale_yields_nothing g ys r g' :
  (time_scale <= 0)%Q ->
  App.run_simulation R p fuel simulation_time update_interval time_scale g =
    Some (ys, r, g') ->
  ys = [] /\
  (1 <= update_interval <= simulation_time -> exists e, r = Raise e).
Proof.
  intros Hle Hrun.
  assert (ys = []) as ->.
  { revert Hrun. unfold App.run_simulation.
    destruct (construct R p g) as [s0|e]; [|now intros [= <- _ _]].
    destruct (App.loop _ _ _ _ _ _ _) as [[[[]|e] f]|] eqn:Hloop; try discriminate;
      intros [= <- _ _]; apply (loop_no_yield _ _ _ _ Hle Hloop). }
  split; [reflexivity|]. intros [HU HT].
  destruct r as [rows|e]; [exfalso | eauto].
  pose proof (snapshots_on_multiples_aux R p fuel simulation_time update_interval
                time_scale g [] rows g' HU Hrun) as Hm.
  assert (In update_interval (multiples update_interval simulation_time)) as Hin.
  { unfold multiples. apply List.filter_In. split.
    - apply in_map_iff. exists (Z.to_nat update_interval). split; [lia|].
      apply in_seq. lia.
    - rewrite Z.mod_same by lia. reflexivity. }
  rewrite <- Hm in Hin. exact Hin.
Qed.

(** X18: in [app.py] too a zero [request_rate] or [failure_rate] ends the
    simulation in its first second: nothing is yielded and, if the call
    returns at all, it raises. *)
Theorem zero_rate_stops_first_second g ys r g' :
  Qeq_bool (request_rate p) 0 = true \/ Qeq_bool (failure_rate p) 0 = true ->
  0 <= simulation_time ->
  App.run_simulation R p fuel simulation_time update_interval time_scale g =
    Some (ys, r, g') ->
  ys = [] /\ exists e, r = Raise e.
Proof.
  intros Hzero HT. unfold App.run_simulation, construct, App.py_range.
  replace (Z.to_nat (simulation_time + 1)) with (S (Z.to_nat simulation_time)) by lia.
  cbn [seq map App.loop App.model].
  destruct (run R p fuel _ _) as [[r0 s]|] eqn:Hrun; [|discriminate].
  destruct (run_zero_rate R p _ _ _ _ _ Hzero Hrun) as [e ->].
  intros [= <- <- _]. eauto.
Qed.

End Raises.

(** ** The random search of [optim_app.py] *)

Section Search.
Context (R : RandomSource) (fuel : nat) (simulation_time : Q)
        (param_ranges : ParamRanges).

Lemma best_of_step st sp m :
  best_of st ->
  best_of
    (if improves m (best_metrics st) then
       {| best_params := Some sp; best_metrics := Some m;
          all_results := all_results st ++ [{| res_params := sp; res_metrics := m |}] |}
     else
       {| best_params := best_params st; best_metrics := best_metrics st;
          all_results := all_results st ++ [{| res_params := sp; res_metrics := m |}] |}).
Proof.
  unfold best_of, improves.
  destruct (best_params st) as [bp|], (best_metrics st) as [bm|]; try contradiction.
  - intros (i & Hi & Hmin & Hfirst).
    destruct (Qlt_le_dec (m_avg_latency m) (m_avg_latency bm)) as [Hlt|Hge];
      cbn [best_params best_metrics all_results].
    + exists (length (all_results st)). split; [|split].
      * rewrite lookup_app_r by lia. now rewrite Nat.sub_diag.
      * intros j e Hj. apply lookup_app_Some in Hj.
        destruct Hj as [Hj | [_ Hj]].
        -- pose proof (Hmin j e Hj). lra.
        -- destruct (j - length (all_results st))%nat; [|discriminate].
           injection Hj as <-. cbn. lra.
      * intros j e Hlt' Hj. rewrite lookup_app_l in Hj by exact Hlt'.
        pose proof (Hmin j e Hj). lra.
    + exists i. pose proof (lookup_lt_Some _ _ _ Hi) as Hlen. split; [|split].
      * rewrite lookup_app_l by exact Hlen. exact Hi.
      * intros j e Hj. apply lookup_app_Some in Hj.
        destruct Hj as [Hj | [_ Hj]]; [exact (Hmin j e Hj)|].
        destruct (j - length (all_results st))%nat; [|discriminate].
        injection Hj as <-. exact Hge.
      * intros j e Hlt Hj. rewrite lookup_app_l in Hj by lia.
        exact (Hfirst j e Hlt Hj).
  - intros ->. cbn [best_params best_metrics all_results app].
    exists 0%nat. split; [reflexivity|]. split.
    + intros [|j] e Hj; [|discriminate]. injection Hj as <-. cbn. lra.
    + intros j e Hlt. lia.
Qed.

Lemma optimize_loop_returns n st g st' g' :
  optimize_loop R fuel simulation_time param_ranges n st g = Some (Ok st', g') ->
  best_of st ->
  Forall (ran R fuel simulation_time param_ranges) (all_results st) ->
  best_of st' /\
  Forall (ran R fuel simulation_time param_ranges) (all_results st') /\
  length (all_results st') = (length (all_results st) + n)%nat.
Proof.
  revert st g. induction n as [|n IH]; intros st g; cbn [optimize_loop].
  - intros [= <- <-] Hb Hr. repeat split; [exact Hb | exact Hr | lia].
  - destruct (draw_params R param_ranges g) as [[sp|e] g1] eqn:Hdraw; [|discriminate].
    destruct (run_simulation R sp fuel simulation_time g1) as [[[m|e] g2]|] eqn:Hrun;
      try discriminate.
    cbv zeta. intros H Hb Hr.
    apply IH in H.
    + destruct H as (Hb' & Hr' & Hlen). repeat split; [exact Hb' | exact Hr' |].
      rewrite Hlen. destruct (improves m (best_metrics st));
        cbn [all_results]; rewrite length_app; cbn [length]; lia.
    + apply best_of_step, Hb.
    + assert (Forall (ran R fuel simulation_time param_ranges)
                (all_results st ++ [{| res_params := sp; res_metrics := m |}])) as Hall.
      { apply Forall_app. split; [exact Hr|]. repeat constructor.
        exists g, g1, g2. split; assumption. }
      destruct (improves m (best_metrics st)); exact Hall.
Qed.

(** X19: a search that returns has run exactly [num_experiments]
    experiments (none when the number is not positive, and then the best is
    [None]); otherwise [best_params] and [best_metrics] belong to one and
    the same experiment, whose [avg_latency] is the least of all, and the
    first such in the order the experiments were run. *)
Theorem optimize_returns_first_minimum num_experiments g st g' :
  optimize_simulation R fuel simulation_time param_ranges num_experiments g =
    Some (Ok st, g') ->
  length (all_results st) = Z.to_nat num_experiments /\ best_of st /\
  (num_experiments <= 0 -> best_params st = None /\ best_metrics st = None).
Proof.
  unfold optimize_simulation. intros H.
  pose proof H as H'. apply optimize_loop_returns in H.
  - destruct H as (Hb & _ & Hlen). cbn in Hlen.
    split; [exact Hlen|]. split; [exact Hb|]. intros Hn.
    replace (Z.to_nat num_experiments) with 0%nat in H' by lia.
    injection H' as <- _. split; reflexivity.
  - reflexivity.
  - constructor.
Qed.

(** The two cases of a draw of parameters. *)
Lemma draw_params_cases g :
  RandomLaws R ->
  (ordered param_ranges ->
   exists sp g', draw_params R param_ranges g = (Ok sp, g') /\
                 within param_ranges sp) /\
  (snd (range_num_servers param_ranges) < fst (range_num_servers param_ranges) ->
   exists msg, draw_params R param_ranges g = (Raise (ValueError msg), g)).
Proof.
  intros HR. unfold draw_params, randint. split.
  - intros (Hn & Hrr & Hfr & Hpt & Hrc).
    replace (0 <? _) with true by (symmetry; apply Z.ltb_lt; lia).
    pose proof (rand_below_lt R HR
                  (Z.to_nat (snd (range_num_servers param_ranges) + 1 -
                             fst (range_num_servers param_ranges))) g
                  ltac:(lia)) as Hk.
    destruct (rand_below R _ g) as [k g1]. cbn [fst] in Hk.
    pose proof (uniform_between R _ _ g1 HR Hrr) as H1.
    destruct (uniform R _ _ g1) as [rr g2].
    pose proof (uniform_between R _ _ g2 HR Hfr) as H2.
    destruct (uniform R _ _ g2) as [fr g3].
    pose proof (uniform_between R _ _ g3 HR Hpt) as H3.
    destruct (uniform R _ _ g3) as [pt g4].
    pose proof (uniform_between R _ _ g4 HR Hrc) as H4.
    destruct (uniform R _ _ g4) as [rc g5].
    eexists _, _. split; [reflexivity|].
    unfold within. cbn [num_servers request_rate failure_rate
                        server_processing_time recovery_rate].
    cbn [fst] in H1, H2, H3, H4.
    destruct (range_request_rate param_ranges), (range_failure_rate param_ranges),
      (range_server_processing_time param_ranges), (range_recovery_rate param_ranges).
    repeat split; try lia; first [apply H1 | apply H2 | apply H3 | apply H4].
  - intros Hrev.
    replace (0 <? _) with false by (symmetry; apply Z.ltb_ge; lia).
    eauto.
Qed.

Lemma run_simulation_metrics p g m g' :
  run_simulation R p fuel simulation_time g = Some (Ok m, g') ->
  (0 <= m_avg_latency m)%Q /\
  (m_completed_requests m = 0 -> m_avg_latency m = 0%Q).
Proof.
  unfold run_simulation.
  destruct (construct R p g) as [model|e] eqn:Hc; [|discriminate].
  destruct (run R p fuel simulation_time model) as [[[[]|e] s]|] eqn:Hrun;
    try discriminate.
  intros [= <- _]. split.
  - apply metrics_latency_nonneg.
    apply (run_clock R p fuel simulation_time model (Ok tt) s);
      [apply (construct_clock R p g), Hc | exact Hrun].
  - assert (reachable R p s) as Hs
      by (apply (run_reachable R p _ _ _ _ _ (reach_construct R p g model Hc) Hrun)).
    pose proof (reachable_samples R p s Hs) as Hlen.
    cbn [get_metrics m_completed_requests m_avg_latency]. intros H0.
    destruct (latency R s); [reflexivity | cbn [length] in Hlen; lia].
Qed.

(** X21: an experiment in which no request completed reports an
    [avg_latency] of 0, and no experiment can report less; so as soon as
    one experiment of a search completed nothing, the best metrics the
    search returns have an [avg_latency] of 0. *)
Theorem search_prefers_idle num_experiments g st g' e :
  optimize_simulation R fuel simulation_time param_ranges num_experiments g =
    Some (Ok st, g') ->
  In e (all_results st) -> m_completed_requests (res_metrics e) = 0 ->
  exists bm, best_metrics st = Some bm /\ (m_avg_latency bm == 0)%Q.
Proof.
  unfold optimize_simulation. intros H He Hidle.
  apply optimize_loop_returns in H; [|reflexivity|constructor].
  destruct H as (Hb & Hran & _). unfold best_of in Hb.
  destruct (best_params st) as [bp|], (best_metrics st) as [bm|];
    try contradiction.
  2:{ rewrite Hb in He. destruct He. }
  exists bm. split; [reflexivity|].
  destruct Hb as (i & Hi & Hmin & _).
  assert (forall x, In x (all_results st) ->
            (0 <= m_avg_latency (res_metrics x))%Q /\
            (m_completed_requests (res_metrics x) = 0 ->
             m_avg_latency (res_metrics x) = 0%Q)) as Hall.
  { intros x Hx.
    destruct (proj1 (List.Forall_forall _ _) Hran x Hx) as (g0 & g1 & g2 & _ & Hrun).
    exact (run_simulation_metrics _ _ _ _ Hrun). }
  apply list_elem_of_In, list_elem_of_lookup_1 in He. destruct He as [j Hj].
  pose proof (Hmin j e Hj) as Hle.
  assert (In e (all_results st)) as He'
    by (apply list_elem_of_In, list_elem_of_lookup_2 with j, Hj).
  rewrite (proj2 (Hall e He') Hidle) in Hle.
  assert (In {| res_params := bp; res_metrics := bm |} (all_results st)) as Hbest
    by (apply list_elem_of_In, list_elem_of_lookup_2 with i, Hi).
  pose proof (proj1 (Hall _ Hbest)) as Hge. cbn [res_metrics] in Hge. lra.
Qed.

End Search.

(** X20: with the documented ranges of the [random] module, parameter
    ranges whose bounds are in order always yield a configuration within
    them, and every experiment of a search that returns ran on parameters
    within the ranges; a [num_servers] range whose bounds are reversed
    makes the first draw raise, and with it every search of at least one
    experiment, before any simulation is run. *)
Theorem drawn_params_within_ranges (R : RandomSource) :
  RandomLaws R ->
  (forall param_ranges g,
      ordered param_ranges ->
      exists sp g', draw_params R param_ranges g = (Ok sp, g') /\
                    within param_ranges sp) /\
  (forall fuel simulation_time param_ranges num_experiments g st g',
      ordered param_ranges ->
      optimize_simulation R fuel simulation_time param_ranges num_experiments g =
        Some (Ok st, g') ->
      Forall (fun e => within param_ranges (res_params e)) (all_results st)) /\
  (forall fuel simulation_time param_ranges num_experiments g,
      snd (range_num_servers param_ranges) < fst (range_num_servers param_ranges) ->
      0 < num_experiments ->
      exists msg,
        optimize_simulation R fuel simulation_time param_ranges num_experiments g =
          Some (Raise (ValueError msg), g)).
Proof.
  intros HR. split; [|split].
  - intros param_ranges g. exact (proj1 (draw_params_cases R param_ranges g HR)).
  - intros fuel simulation_time param_ranges num_experiments g st g' Hord Hrun.
    unfold optimize_simulation in Hrun.
    apply optimize_loop_returns in Hrun; [|reflexivity|constructor].
    destruct Hrun as (_ & Hran & _).
    eapply Forall_impl; [exact Hran|]. cbn.
    intros e (g0 & g1 & g2 & Hdraw & _).
    destruct (proj1 (draw_params_cases R param_ranges g0 HR) Hord)
      as (sp & g1' & Hdraw' & Hin).
    rewrite Hdraw in Hdraw'. injection Hdraw' as <- _. exact Hin.
  - intros fuel simulation_time param_ranges num_experiments g Hrev Hn.
    destruct (proj2 (draw_params_cases R param_ranges g HR) Hrev) as [msg Hdraw].
    exists msg. unfold optimize_simulation.
    destruct (Z.to_nat num_experiments) as [|n] eqn:Hnat; [lia|].
    cbn [optimize_loop]. now rewrite Hdraw.
Qed.

(** * The further properties on the examples *)

Lemma sample_run :
  run Tape example_params 60 5 (init Tape example_params 0 [] 0%nat sample_tape) =
  Some (Ok tt, sample_state).
Proof. vm_compute. reflexivity. Qed.

Lemma one_sample_per_completion_witness :
  reachable Tape example_params sample_state /\
  (Z.of_nat (length (latency Tape sample_state)) =
     m_completed_requests (get_metrics Tape sample_state) /\
   (m_completed_requests (get_metrics Tape sample_state) = 0 ->
    m_avg_latency (get_metrics Tape sample_state) = 0%Q) /\
   (m_completed_requests (get_metrics Tape sample_state) <> 0 ->
    m_avg_latency (get_metrics Tape sample_state) =
    (py_sum (latency Tape sample_state)
     / inject_Z (m_completed_requests (get_metrics Tape sample_state)))%Q)).
Proof.
  split; [exact sample_state_reachable|].
  apply (one_sample_per_completion Tape example_params sample_state).
  exact sample_state_reachable.
Defined.

Lemma run_only_grows_witness :
  run Tape example_params 60 5 (init Tape example_params 0 [] 0%nat sample_tape) =
    Some (Ok tt, sample_state) /\
  grew (init Tape example_params 0 [] 0%nat sample_tape) sample_state.
Proof.
  split; [exact sample_run|].
  apply (run_only_grows Tape example_params 60 5 _ (Ok tt) sample_state).
  exact sample_run.
Defined.

Lemma one_user_per_server_witness :
  (reachable Tape example_params sample_state /\
   servers Tape sample_state !! 0%nat = Some sample_server) /\
  ((length (users sample_server) <= 1)%nat /\
   (capacity sample_server = 0 \/ capacity sample_server = 1) /\
   (users sample_server <> [] -> capacity sample_server = 1)).
Proof.
  split; [split; [exact sample_state_reachable | vm_compute; reflexivity]|].
  apply (one_user_per_server Tape example_params sample_state 0%nat sample_server);
    [exact sample_state_reachable | vm_compute; reflexivity].
Defined.

Lemma at_most_one_server_down_witness :
  (0 <= num_servers outage_params /\
   reachable Tape outage_params outage_state) /\
  (Z.of_nat (length (servers Tape outage_state)) - servers_up outage_state <= 1 /\
   num_servers outage_params - 1
     <= m_available_servers (get_metrics Tape outage_state)
     <= num_servers outage_params).
Proof.
  split; [split; [cbn; lia | exact outage_state_reachable]|].
  apply (at_most_one_server_down Tape outage_params outage_state);
    [cbn; lia | exact outage_state_reachable].
Defined.

Lemma zero_request_rate_raises_witness :
  (Qeq_bool (request_rate invalid_params) 0 = true /\ (0 < 1)%Q /\ (3 <= 5)%nat) /\
  exists g', run_simulation Tape invalid_params 5 1 sample_tape =
             Some (Raise ZeroDivisionError, g').
Proof.
  split; [repeat split; lia|].
  apply (zero_request_rate_raises Tape invalid_params 5 1 sample_tape);
    [reflexivity | reflexivity | lia].
Defined.

Lemma zero_rate_never_completes_witness :
  ((Qeq_bool (request_rate no_failure_params) 0 = true \/
    Qeq_bool (failure_rate no_failure_params) 0 = true) /\
   run_simulation Tape no_failure_params 60 5 sample_tape =
     Some (Raise ZeroDivisionError, tl sample_tape)) /\
  exists e, @Raise Metrics ZeroDivisionError = Raise e.
Proof.
  split; [split; [right; reflexivity | vm_compute; reflexivity]|].
  apply (zero_rate_never_completes Tape no_failure_params 60 5 sample_tape
           (Raise ZeroDivisionError) (tl sample_tape));
    [right; reflexivity | vm_compute; reflexivity].
Defined.

Lemma processing_time_reaches_only_uniform_and_normal_witness :
  (server_processing_time_distribution example_params <> "uniform"%string /\
   server_processing_time_distribution example_params <> "normal"%string) /\
  ((forall fuel until s,
       run Tape (with_server_processing_time 7 (Some 2%Q) example_params)
         fuel until s = run Tape example_params fuel until s) /\
   (forall fuel simulation_time g,
       run_simulation Tape (with_server_processing_time 7 (Some 2%Q) example_params)
         fuel simulation_time g =
       run_simulation Tape example_params fuel simulation_time g)).
Proof.
  split; [split; discriminate|].
  apply (processing_time_reaches_only_uniform_and_normal Tape example_params
           7 (Some 2%Q)); discriminate.
Defined.

Lemma uniform_duration_between_bounds_witness :
  (RandomLaws Tape /\
   rate_kwargs 100 = Ok {| kw_rate := Some 100%Q; kw_mean := Some (1 / 100)%Q;
                           kw_std := Some (1 # 10)%Q; kw_low := Some (1 # 10)%Q;
                           kw_high := Some (1 / 100 * 2)%Q; kw_values := None |}) /\
  exists x,
    fst (random_value Tape "uniform"
           {| kw_rate := Some 100%Q; kw_mean := Some (1 / 100)%Q;
              kw_std := Some (1 # 10)%Q; kw_low := Some (1 # 10)%Q;
              kw_high := Some (1 / 100 * 2)%Q; kw_values := None |} [5%nat]) = Ok x /\
    (Qmin (1 # 10) (1 / 100 * 2) <= x <= Qmax (1 # 10) (1 / 100 * 2))%Q.
Proof.
  split; [split; [exact Tape_laws | reflexivity]|].
  apply (uniform_duration_between_bounds Tape 100 _ [5%nat] Tape_laws).
  reflexivity.
Defined.

Lemma clock_never_runs_back_witness :
  (clock_ok (init Tape example_params 0 [] 0%nat sample_tape) /\
   run Tape example_params 60 5 (init Tape example_params 0 [] 0%nat sample_tape) =
     Some (Ok tt, sample_state)) /\
  (clock_ok sample_state /\
   (now Tape (init Tape example_params 0 [] 0%nat sample_tape)
    <= now Tape sample_state)%Q).
Proof.
  assert (clock_ok (init Tape example_params 0 [] 0%nat sample_tape)) as Hc
    by (apply (construct_clock Tape example_params sample_tape); reflexivity).
  split; [split; [exact Hc | exact sample_run]|].
  apply (clock_never_runs_back Tape example_params 60 5 _ (Ok tt) sample_state);
    [exact Hc | exact sample_run].
Defined.

Lemma run_simulation_latency_nonneg_witness :
  run_simulation Tape example_params 60 5 sample_tape =
    Some (Ok (get_metrics Tape sample_state), []) /\
  (0 <= m_avg_latency (get_metrics Tape sample_state))%Q.
Proof.
  split; [vm_compute; reflexivity|].
  apply (run_simulation_latency_nonneg Tape example_params 60 5 sample_tape
           (get_metrics Tape sample_state) []).
  vm_compute. reflexivity.
Defined.

Lemma demo_app_returns :
  App.run_simulation Tape example_params 60 4 2 1 sample_tape =
  Some (demo_yielded, Ok demo_rows, []).
Proof. vm_compute. reflexivity. Qed.

Lemma snapshots_on_multiples_witness :
  (1 <= 2 /\
   App.run_simulation Tape example_params 60 4 2 1 sample_tape =
     Some (demo_yielded, Ok demo_rows, [])) /\
  (map App.row_time demo_yielded = multiples 2 4 /\
   exists final, demo_rows = demo_yielded ++ [final] /\ App.row_time final = 4).
Proof.
  split; [split; [lia | exact demo_app_returns]|].
  apply (snapshots_on_multiples Tape example_params 60 4 2 1 sample_tape
           demo_yielded demo_rows []); [lia | exact demo_app_returns].
Defined.

Lemma snapshot_one_second_ahead_witness :
  (0 <= 4 /\
   App.run_simulation Tape example_params 60 4 2 1 sample_tape =
     Some (demo_yielded, Ok demo_rows, [])) /\
  Forall (fun row =>
            exists s, reachable Tape example_params s /\
                      (now Tape s == inject_Z (App.row_time row + 1))%Q /\
                      App.row_metrics row = get_metrics Tape s) demo_rows.
Proof.
  split; [split; [lia | exact demo_app_returns]|].
  apply (snapshot_one_second_ahead Tape example_params 60 4 2 1 sample_tape
           demo_yielded demo_rows []); [lia | exact demo_app_returns].
Defined.

Lemma snapshots_ascending_witness :
  App.run_simulation Tape example_params 60 4 2 1 sample_tape =
    Some (demo_yielded, Ok demo_rows, []) /\
  pairwise row_le demo_rows.
Proof.
  split; [exact demo_app_returns|].
  apply (snapshots_ascending Tape example_params 60 4 2 1 sample_tape
           demo_yielded demo_rows []).
  exact demo_app_returns.
Defined.

Lemma last_row_twice_witness :
  (1 <= 2 <= 4 /\ 4 mod 2 = 0 /\
   App.run_simulation Tape example_params 60 4 2 1 sample_tape =
     Some (demo_yielded, Ok demo_rows, [])) /\
  exists init row, demo_rows = init ++ [row; row].
Proof.
  split; [split; [lia | split; [reflexivity | exact demo_app_returns]]|].
  apply (last_row_twice Tape example_params 60 4 2 1 sample_tape
           demo_yielded demo_rows []);
    [lia | reflexivity | exact demo_app_returns].
Defined.

Lemma nonpositive_time_scale_yields_nothing_witness :
  ((0 <= 0)%Q /\
   App.run_simulation Tape example_params 60 4 2 0 sample_tape =
     Some ([], Raise ZeroDivisionError, [])) /\
  ([] = @nil App.Row /\
   (1 <= 2 <= 4 -> exists e, @Raise (list App.Row) ZeroDivisionError = Raise e)).
Proof.
  split; [split; [lra | vm_compute; reflexivity]|].
  apply (nonpositive_time_scale_yields_nothing Tape example_params 60 4 2 0
           sample_tape [] (Raise ZeroDivisionError) []);
    [lra | vm_compute; reflexivity].
Defined.

Lemma zero_rate_stops_first_second_witness :
  ((Qeq_bool (request_rate no_failure_params) 0 = true \/
    Qeq_bool (failure_rate no_failure_params) 0 = true) /\
   0 <= 4 /\
   App.run_simulation Tape no_failure_params 60 4 2 1 sample_tape =
     Some ([], Raise ZeroDivisionError, tl sample_tape)) /\
  ([] = @nil App.Row /\
   exists e, @Raise (list App.Row) ZeroDivisionError = Raise e).
Proof.
  split; [split; [right; reflexivity | split; [lia | vm_compute; reflexivity]]|].
  apply (zero_rate_stops_first_second Tape no_failure_params 60 4 2 1
           sample_tape [] (Raise ZeroDivisionError) (tl sample_tape));
    [right; reflexivity | lia | vm_compute; reflexivity].
Defined.

Lemma demo_search_returns :
  optimize_simulation Tape 200 3 demo_ranges 2 demo_search_tape =
  Some (Ok demo_search, []).
Proof. vm_compute. reflexivity. Qed.

Lemma optimize_returns_first_minimum_witness :
  optimize_simulation Tape 200 3 demo_ranges 2 demo_search_tape =
    Some (Ok demo_search, []) /\
  (length (all_results demo_search) = Z.to_nat 2 /\ best_of demo_search /\
   (2 <= 0 -> best_params demo_search = None /\ best_metrics demo_search = None)).
Proof.
  split; [exact demo_search_returns|].
  apply (optimize_returns_first_minimum Tape 200 3 demo_ranges 2
           demo_search_tape demo_search []).
  exact demo_search_returns.
Defined.

Lemma drawn_params_within_ranges_witness :
  (RandomLaws Tape /\ ordered demo_ranges /\
   optimize_simulation Tape 200 3 demo_ranges 2 demo_search_tape =
     Some (Ok demo_search, []) /\
   snd (range_num_servers reversed_ranges) < fst (range_num_servers reversed_ranges) /\
   0 < 2) /\
  ((exists sp g', draw_params Tape demo_ranges demo_search_tape = (Ok sp, g') /\
                  within demo_ranges sp) /\
   Forall (fun e => within demo_ranges (res_params e)) (all_results demo_search) /\
   exists msg,
     optimize_simulation Tape 200 3 reversed_ranges 2 demo_search_tape =
       Some (Raise (ValueError msg), demo_search_tape)).
Proof.
  assert (ordered demo_ranges) as Hord
    by (unfold ordered, demo_ranges; cbn; repeat split; first [lia | lra]).
  assert (snd (range_num_servers reversed_ranges)
          < fst (range_num_servers reversed_ranges)) as Hrev by (cbn; lia).
  split; [split; [exact Tape_laws | split; [exact Hord | split;
    [exact demo_search_returns | split; [exact Hrev | lia]]]]|].
  destruct (drawn_params_within_ranges Tape Tape_laws) as (Hdraw & Hall & Hraise).
  split; [exact (Hdraw demo_ranges demo_search_tape Hord)|]. split.
  - exact (Hall 200%nat 3%Q demo_ranges 2 demo_search_tape demo_search []
             Hord demo_search_returns).
  - exact (Hraise 200%nat 3%Q reversed_ranges 2 demo_search_tape Hrev ltac:(lia)).
Defined.

Lemma search_prefers_idle_witness :
  (optimize_simulation Tape 200 3 demo_ranges 2 demo_search_tape =
     Some (Ok demo_search, []) /\
   In demo_idle (all_results demo_search) /\
   m_completed_requests (res_metrics demo_idle) = 0) /\
  exists bm, best_metrics demo_search = Some bm /\ (m_avg_latency bm == 0)%Q.
Proof.
  assert (In demo_idle (all_results demo_search)) as Hin
    by (vm_compute; left; reflexivity).
  split; [split; [exact demo_search_returns | split; [exact Hin | reflexivity]]|].
  apply (search_prefers_idle Tape 200 3 demo_ranges 2 demo_search_tape
           demo_search [] demo_idle);
    [exact demo_search_returns | exact Hin | reflexivity].
Defined.
